(** * The vibe-trader tick of the API worker (api-worker/src/index.ts)

    A shallow embedding of the trading decision and position-lifecycle
    engine: the per-tick control loop [vibeTick], the close-to-flat path,
    the order path, the status narrator, the trade ledger and the admin
    guard of the privileged handlers.

    Modelling conventions.
    - A JavaScript [number] that carries a price, a quantity or a dollar
      amount is an IEEE-754 binary64 value: Rocq's primitive [float], with
      the same rounding as the JavaScript arithmetic operators.
    - A timestamp or a duration obtained from [Date.now()] is an integer
      number of milliseconds: [Z].
    - The KV namespace [MEAP_KV] is a record with one typed field per key;
      a missing key reads as the fallback the code passes to [kvGetJson].
    - A JavaScript object used as a dictionary is a [gmap string _].
    - External services (exchange, oracle, clock, KV availability) are a
      [World]: a script of replies indexed by the number of effects
      performed so far.  Every effect may throw where [fetch] may.
    - The order in which [Object.keys] lists the keys of a stored object
      is the order of their insertion, which a [gmap] does not keep: the
      [World] supplies it.
    - A string is its sequence of code units, taken below 256.
    - The store keeps a value as it was handed to [JSON.stringify].  JSON
      has no text for NaN and the infinities: the code stores [null] for
      them.  A statement that depends on the number read back carries the
      finiteness of the number written as a hypothesis. *)

From Stdlib Require Import ZArith QArith Qround Uint63 Ascii.
From Stdlib Require Import Floats.PrimFloat Floats.FloatOps Floats.SpecFloat.
From stdpp Require Import gmap strings list fin_maps pretty.
Set Warnings "-inexact-float,-register-all".

(** ** JavaScript numbers *)

Module Js.

Local Open Scope float_scope.

(** [Boolean(x)] for a number: false for [0], [-0] and [NaN]. *)
Definition truthy (x : float) : bool := (x <? 0) || (0 <? x).

(** [x || y] on numbers. *)
Definition or (x y : float) : float := if truthy x then x else y.

(** [Number.isFinite(x)]. *)
Definition isFinite (x : float) : bool := abs x <? infinity.

(** [x >= y] and [x > y]. *)
Definition geb (x y : float) : bool := y <=? x.
Definition gtb (x y : float) : bool := y <? x.

(** [Math.floor]: the largest integer not above [x]; zeros, infinities
    and NaN are returned unchanged.  A finite binary64 value is
    [(-1)^s * m * 2^e]; with [0 <= e] it is already an integer. *)
Definition Math_floor (x : float) : float :=
  match Prim2SF x with
  | S754_finite s m e =>
      if (0 <=? e)%Z then x
      else
        let z := Z.div (if s then Z.neg m else Z.pos m) (2 ^ (- e)) in
        if (z <? 0)%Z then - (of_uint63 (Uint63.of_Z (- z)))
        else of_uint63 (Uint63.of_Z z)
  | _ => x
  end.

(** [Math.ceil(x)] is [-Math.floor(-x)]. *)
Definition Math_ceil (x : float) : float := - (Math_floor (- x)).

Definition Math_abs (x : float) : float := abs x.

(** [Math.max(a, b)]: NaN if either is NaN, and [+0] above [-0]. *)
Definition Math_max (a b : float) : float :=
  if a <? b then b
  else if b <? a then a
  else if a =? b then (if 1 / a <? 0 then b else a)
  else nan.

(** [Math.min(a, b)]: NaN if either is NaN, and [-0] below [+0]. *)
Definition Math_min (a b : float) : float :=
  if a <? b then a
  else if b <? a then b
  else if a =? b then (if 1 / a <? 0 then a else b)
  else nan.

(** An integer (a timestamp difference) as a number. *)
Definition ofZ (z : Z) : float :=
  if (z <? 0)%Z then - (of_uint63 (Uint63.of_Z (- z)))
  else of_uint63 (Uint63.of_Z z).

(** Truthiness of an optional string ([undefined] and [''] are falsy). *)
Definition truthyS (s : option string) : bool :=
  match s with
  | Some s => negb (String.eqb s "")
  | None => false
  end.

(** White space and line terminators among the code units below 256:
    TAB, LF, VT, FF, CR, SP and NBSP. *)
Definition isWhiteSpace (c : Ascii.ascii) : bool :=
  bool_decide (Ascii.N_of_ascii c ∈ [9; 10; 11; 12; 13; 32; 160]%N).

Definition isSlash (c : Ascii.ascii) : bool := Ascii.eqb c "/"%char.

(** [l] without its longest prefix, and without its longest suffix, of
    characters in [p]. *)
Fixpoint dropStart (p : Ascii.ascii → bool) (l : list Ascii.ascii) : list Ascii.ascii :=
  match l with
  | c :: r => if p c then dropStart p r else l
  | [] => []
  end.

Fixpoint dropEnd (p : Ascii.ascii → bool) (l : list Ascii.ascii) : list Ascii.ascii :=
  match l with
  | c :: r =>
      match dropEnd p r with
      | [] => if p c then [] else [c]
      | r' => c :: r'
      end
  | [] => []
  end.

(** [s.trim()] *)
Definition trim (s : string) : string :=
  String.string_of_list_ascii
    (dropEnd isWhiteSpace (dropStart isWhiteSpace (String.list_ascii_of_string s))).

(** [s.replace(/\/+$/, '')] *)
Definition stripTrailingSlashes (s : string) : string :=
  String.string_of_list_ascii (dropEnd isSlash (String.list_ascii_of_string s)).

End Js.

(** ** Data model *)

Inductive Side := LONG | SHORT.

Inductive Action := ActLONG | ActSHORT | ActFLAT.

Inductive RunStatus := running | stopped.

Inductive MarginMode := cross | isolated.

Record VibeConfig := {
  status : RunStatus;
  universe : list string;
  maxRiskPerTradeUsd : float;
  maxDailyLossUsd : float;
  maxExposureUsd : float;
  leverageCap : float;
  marginMode : MarginMode;
  model : string;
  maxLossPerTradeUsd : option float
}.

Definition DEFAULT_VIBE_CONFIG : VibeConfig := {|
  status := running;
  universe := ["BTCUSDT"; "ETHUSDT"; "BNBUSDT"; "XRPUSDT"; "DOGEUSDT"; "SOLUSDT";
               "ASTERUSDT"; "CAKEUSDT"; "ZORAUSDT"; "PUMPUSDT"; "ZECUSDT"];
  maxRiskPerTradeUsd := 1500;
  maxDailyLossUsd := 2000;
  maxExposureUsd := 10000;
  leverageCap := 5;
  marginMode := cross;
  model := "qwen2.5-32b-instruct";
  maxLossPerTradeUsd := Some 200%float
|}.

(** [cfg.status === 'running'] *)
Definition isRunning (cfg : VibeConfig) : bool :=
  match status cfg with running => true | stopped => false end.

Record VibeRuntime := {
  lastTickAt : option Z;
  lastError : option string;
  lastProvider : option string;
  lastModel : option string;
  lastOrderAt : option Z;
  lastSignal : option Action
}.

Definition emptyRuntime : VibeRuntime :=
  {| lastTickAt := None; lastError := None; lastProvider := None;
     lastModel := None; lastOrderAt := None; lastSignal := None |}.

Record OpenTrade := {
  ot_symbol : string;
  ot_side : Side;
  ot_qty : float;
  ot_entryPrice : float;
  ot_notionalEntry : float;
  ot_openedAt : Z;
  ot_provider : option string;
  ot_model : option string;
  ot_stopLoss : option float;
  ot_takeProfit : option float;
  ot_minHoldMs : option float;
  ot_thesis : option string
}.

Record ClosedTrade := {
  ct_symbol : string;
  ct_side : Side;
  ct_qty : float;
  ct_entryPrice : float;
  ct_exitPrice : float;
  ct_notionalEntry : float;
  ct_notionalExit : float;
  ct_openedAt : Z;
  ct_closedAt : Z;
  ct_holdingMs : Z;
  ct_pnlUsd : float;
  ct_provider : option string;
  ct_model : option string;
  ct_thesis : option string
}.

Record EquitySample := { es_at : Z; es_equityUsd : float }.

(** ** Position lifecycle: the exit decision of one open position
    (vibeTick, the body of the loop over [Object.keys(openMap)]) *)

Section Lifecycle.

Local Open Scope float_scope.

Inductive CloseReason :=
| StopLossHit                 (* 'Stop-loss hit' *)
| TakeProfitHit               (* 'Take-profit hit' *)
| MaxLossHit (limit : float). (* `Max loss ${-Math.abs(cap)} hit` *)

(** [typeof t.minHoldMs === 'number' ? now - t.openedAt >= t.minHoldMs : true] *)
Definition minHoldOk (t : OpenTrade) (now : Z) : bool :=
  match ot_minHoldMs t with
  | Some mh => Js.geb (Js.ofZ (now - ot_openedAt t)) mh
  | None => true
  end.

(** The position is skipped when [!price || !Number.isFinite(price)]. *)
Definition priceUsable (price : float) : bool :=
  Js.truthy price && Js.isFinite price.

Definition stopLossBreached (t : OpenTrade) (price : float) : bool :=
  match ot_stopLoss t with
  | Some sl =>
      match ot_side t with
      | LONG => price <=? sl
      | SHORT => Js.geb price sl
      end
  | None => false
  end.

Definition takeProfitBreached (t : OpenTrade) (price : float) : bool :=
  match ot_takeProfit t with
  | Some tp =>
      match ot_side t with
      | LONG => Js.geb price tp
      | SHORT => price <=? tp
      end
  | None => false
  end.

Definition unrealizedPnl (t : OpenTrade) (price : float) : float :=
  match ot_side t with
  | LONG => (price - ot_entryPrice t) * ot_qty t
  | SHORT => (ot_entryPrice t - price) * ot_qty t
  end.

Definition maxLossBreached (cfg : VibeConfig) (t : OpenTrade) (price : float) : bool :=
  match maxLossPerTradeUsd cfg with
  | Some cap =>
      Js.gtb cap 0 &&
      (let pnlNow := unrealizedPnl t price in
       Js.isFinite pnlNow && (pnlNow <=? - (Js.Math_abs cap)))
  | None => false
  end.

(** The three checks in source order.  [Some reason] stands for
    [shouldClose = true] with that [reason]; each later check is guarded
    by [!shouldClose]. *)
Definition exitDecision (cfg : VibeConfig) (t : OpenTrade) (now : Z) (price : float)
  : option CloseReason :=
  if stopLossBreached t price then Some StopLossHit
  else if minHoldOk t now && takeProfitBreached t price then Some TakeProfitHit
  else if maxLossBreached cfg t price
       then option_map (fun cap => MaxLossHit (- (Js.Math_abs cap))) (maxLossPerTradeUsd cfg)
       else None.

End Lifecycle.

(** ** Risk governor: the size clamp (vibeTick, "Size clamp") *)

Section Sizing.

Local Open Scope float_scope.

(** [Math.max(0, Math.floor((state.balances?.equityUsd || availableBalance) * 0.50))] *)
Definition targetRisk (equityUsd availableBalance : float) : float :=
  Js.Math_max 0 (Js.Math_floor (Js.or equityUsd availableBalance * 0.50)).

(** [Math.min(cfg.maxRiskPerTradeUsd, targetRisk)] *)
Definition sizeUsd (cfg : VibeConfig) (equityUsd availableBalance : float) : float :=
  Js.Math_min (maxRiskPerTradeUsd cfg) (targetRisk equityUsd availableBalance).

End Sizing.

(** ** Order execution gateway: lot-size quantization *)

Section Quantization.

Local Open Scope float_scope.

(** One filter of a symbol of [/fapi/v1/exchangeInfo].  A numeric field
    is [None] when the raw field is missing or falsy, and otherwise the
    [Number(...)] of the raw field. *)
Record Filter := {
  filterType : string;
  f_stepSize : option float;
  f_notional : option float;
  f_minNotional : option float
}.

Record SymbolInfo := { si_symbol : string; si_filters : list Filter }.

(** [info?.symbols] ([None]: the reply is null or has no symbol list). *)
Definition ExchangeInfo := option (list SymbolInfo).

Record StepSize := { step : float; minNotional : option float }.

Definition isNotionalFilter (f : Filter) : bool :=
  String.eqb (filterType f) "MIN_NOTIONAL" || String.eqb (filterType f) "NOTIONAL".

Definition stepSizeForSymbol (info : ExchangeInfo) (sym : string) : StepSize :=
  let s := info ≫= List.find (fun x => String.eqb (si_symbol x) sym) in
  let lot := s ≫= fun s => List.find (fun f => String.eqb (filterType f) "LOT_SIZE") (si_filters s) in
  let notional := s ≫= fun s => List.find isNotionalFilter (si_filters s) in
  let step := default 0 (lot ≫= f_stepSize) in
  let minNotional :=
    default 0 (notional ≫= fun n =>
                 match f_notional n with Some v => Some v | None => f_minNotional n end) in
  {| step := if Js.isFinite step && Js.gtb step 0 then step else 0.0001;
     minNotional := if Js.isFinite minNotional && Js.gtb minNotional 0
                    then Some minNotional else None |}.

(** [Math.max(1, Math.floor(q / step))] *)
Definition quantizeSteps (q step : float) : float :=
  Js.Math_max 1 (Js.Math_floor (q / step)).

(** [steps * step]: the quantity sent to the exchange. *)
Definition quantize (q step : float) : float := quantizeSteps q step * step.

(** [Math.max(0.0001, notional / price)] *)
Definition rawQuantity (notional price : float) : float :=
  Js.Math_max 0.0001 (notional / price).

(** The quantity of a new-position order once the exchange rules are
    known: quantized, then bumped to the minimum notional. *)
Definition lotQuantity (qty price : float) (ss : StepSize) : float :=
  let qty := quantize qty (step ss) in
  match minNotional ss with
  | Some mn =>
      if qty * price <? mn
      then Js.Math_max qty (Js.Math_ceil (mn / price / step ss) * step ss)
      else qty
  | None => qty
  end.

End Quantization.

(** ** Bounded closed-trade history *)

(** [list.push(x); if (list.length > cap) list.splice(0, list.length - cap)] *)
Definition pushBounded {A} (cap : nat) (l : list A) (x : A) : list A :=
  let l' := l ++ [x] in
  if decide (cap < length l') then drop (length l' - cap) l' else l'.

(** ** The persisted store (MEAP_KV) *)

Inductive OrderSide := BUY | SELL.

Record OrderParams := {
  op_symbol : string;
  op_side : OrderSide;
  op_quantity : float;
  op_reduceOnly : bool
}.

(** The [reason] of an order log: the exit reason of a close, or the
    oracle's thesis of a new position. *)
Inductive OrderReason :=
| ExitReason (r : CloseReason)
| Thesis (t : option string).

(** The log entries and feed events the tick writes, with the fields
    that carry data; fields that only carry display text are left out. *)
Inductive LogBody :=
| vibe_status_run (st : RunStatus)
| vibe_status (equityUsd : float) (summary : string)
| vibe_order (httpStatus : Z) (ok : bool) (p : OrderParams) (notional : float)
    (reason : OrderReason)
| vibe_error (error : string)
| vibe_prompt (provider model : option string) (equityUsd : float)
| vibe_llm_response (action : Action) (symbol : string)
| vibe_decision (action : Action) (symbol : string) (sizeUsd : float)
| vibe_order_error (error : string).

Record LogEntry := { log_at : Z; log_body : LogBody }.

(** The dedup record of the status narrator ([/vibe_last_status.json]). *)
Record LastStatus := { ls_at : Z; ls_equityUsd : float; ls_hashes : list string }.

Record Store := {
  kv_config : option VibeConfig;
  kv_runtime : option VibeRuntime;
  kv_events : list LogEntry;
  kv_logs : list LogEntry;
  kv_open_trades : gmap string OpenTrade;
  kv_trades : list ClosedTrade;
  kv_equity : list EquitySample;
  kv_equity_days : gmap string (list EquitySample);
  kv_initial_equity : option EquitySample;
  kv_last_status : option LastStatus;
  kv_positions : option (list string);
  kv_chart_anchor : option EquitySample
}.

(** The keys of the namespace; [K_equity_day dk] is the day partition
    stored under the key [dk] that [dayKey] computes. *)
Inductive Key :=
| K_config | K_runtime | K_events | K_logs | K_open_trades | K_trades
| K_equity | K_equity_day (dk : string) | K_initial_equity | K_last_status
| K_positions | K_chart_anchor.

Definition valT (k : Key) : Type :=
  match k with
  | K_config => option VibeConfig
  | K_runtime => option VibeRuntime
  | K_events => list LogEntry
  | K_logs => list LogEntry
  | K_open_trades => gmap string OpenTrade
  | K_trades => list ClosedTrade
  | K_equity => list EquitySample
  | K_equity_day _ => list EquitySample
  | K_initial_equity => option EquitySample
  | K_last_status => option LastStatus
  | K_positions => option (list string)
  | K_chart_anchor => option EquitySample
  end.

Definition kvRead (k : Key) (kv : Store) : valT k :=
  match k with
  | K_config => kv_config kv
  | K_runtime => kv_runtime kv
  | K_events => kv_events kv
  | K_logs => kv_logs kv
  | K_open_trades => kv_open_trades kv
  | K_trades => kv_trades kv
  | K_equity => kv_equity kv
  | K_equity_day dk => default [] (kv_equity_days kv !! dk)
  | K_initial_equity => kv_initial_equity kv
  | K_last_status => kv_last_status kv
  | K_positions => kv_positions kv
  | K_chart_anchor => kv_chart_anchor kv
  end.

Definition kvWrite (k : Key) : valT k → Store → Store :=
  match k with
  | K_config => fun v kv =>
      {| kv_config := v; kv_runtime := kv_runtime kv; kv_events := kv_events kv;
         kv_logs := kv_logs kv; kv_open_trades := kv_open_trades kv; kv_trades := kv_trades kv;
         kv_equity := kv_equity kv; kv_equity_days := kv_equity_days kv;
         kv_initial_equity := kv_initial_equity kv; kv_last_status := kv_last_status kv;
         kv_positions := kv_positions kv; kv_chart_anchor := kv_chart_anchor kv |}
  | K_runtime => fun v kv =>
      {| kv_config := kv_config kv; kv_runtime := v; kv_events := kv_events kv;
         kv_logs := kv_logs kv; kv_open_trades := kv_open_trades kv; kv_trades := kv_trades kv;
         kv_equity := kv_equity kv; kv_equity_days := kv_equity_days kv;
         kv_initial_equity := kv_initial_equity kv; kv_last_status := kv_last_status kv;
         kv_positions := kv_positions kv; kv_chart_anchor := kv_chart_anchor kv |}
  | K_events => fun v kv =>
      {| kv_config := kv_config kv; kv_runtime := kv_runtime kv; kv_events := v;
         kv_logs := kv_logs kv; kv_open_trades := kv_open_trades kv; kv_trades := kv_trades kv;
         kv_equity := kv_equity kv; kv_equity_days := kv_equity_days kv;
         kv_initial_equity := kv_initial_equity kv; kv_last_status := kv_last_status kv;
         kv_positions := kv_positions kv; kv_chart_anchor := kv_chart_anchor kv |}
  | K_logs => fun v kv =>
      {| kv_config := kv_config kv; kv_runtime := kv_runtime kv; kv_events := kv_events kv;
         kv_logs := v; kv_open_trades := kv_open_trades kv; kv_trades := kv_trades kv;
         kv_equity := kv_equity kv; kv_equity_days := kv_equity_days kv;
         kv_initial_equity := kv_initial_equity kv; kv_last_status := kv_last_status kv;
         kv_positions := kv_positions kv; kv_chart_anchor := kv_chart_anchor kv |}
  | K_open_trades => fun v kv =>
      {| kv_config := kv_config kv; kv_runtime := kv_runtime kv; kv_events := kv_events kv;
         kv_logs := kv_logs kv; kv_open_trades := v; kv_trades := kv_trades kv;
         kv_equity := kv_equity kv; kv_equity_days := kv_equity_days kv;
         kv_initial_equity := kv_initial_equity kv; kv_last_status := kv_last_status kv;
         kv_positions := kv_positions kv; kv_chart_anchor := kv_chart_anchor kv |}
  | K_trades => fun v kv =>
      {| kv_config := kv_config kv; kv_runtime := kv_runtime kv; kv_events := kv_events kv;
         kv_logs := kv_logs kv; kv_open_trades := kv_open_trades kv; kv_trades := v;
         kv_equity := kv_equity kv; kv_equity_days := kv_equity_days kv;
         kv_initial_equity := kv_initial_equity kv; kv_last_status := kv_last_status kv;
         kv_positions := kv_positions kv; kv_chart_anchor := kv_chart_anchor kv |}
  | K_equity => fun v kv =>
      {| kv_config := kv_config kv; kv_runtime := kv_runtime kv; kv_events := kv_events kv;
         kv_logs := kv_logs kv; kv_open_trades := kv_open_trades kv; kv_trades := kv_trades kv;
         kv_equity := v; kv_equity_days := kv_equity_days kv;
         kv_initial_equity := kv_initial_equity kv; kv_last_status := kv_last_status kv;
         kv_positions := kv_positions kv; kv_chart_anchor := kv_chart_anchor kv |}
  | K_equity_day dk => fun v kv =>
      {| kv_config := kv_config kv; kv_runtime := kv_runtime kv; kv_events := kv_events kv;
         kv_logs := kv_logs kv; kv_open_trades := kv_open_trades kv; kv_trades := kv_trades kv;
         kv_equity := kv_equity kv; kv_equity_days := <[dk := v]> (kv_equity_days kv);
         kv_initial_equity := kv_initial_equity kv; kv_last_status := kv_last_status kv;
         kv_positions := kv_positions kv; kv_chart_anchor := kv_chart_anchor kv |}
  | K_initial_equity => fun v kv =>
      {| kv_config := kv_config kv; kv_runtime := kv_runtime kv; kv_events := kv_events kv;
         kv_logs := kv_logs kv; kv_open_trades := kv_open_trades kv; kv_trades := kv_trades kv;
         kv_equity := kv_equity kv; kv_equity_days := kv_equity_days kv;
         kv_initial_equity := v; kv_last_status := kv_last_status kv;
         kv_positions := kv_positions kv; kv_chart_anchor := kv_chart_anchor kv |}
  | K_last_status => fun v kv =>
      {| kv_config := kv_config kv; kv_runtime := kv_runtime kv; kv_events := kv_events kv;
         kv_logs := kv_logs kv; kv_open_trades := kv_open_trades kv; kv_trades := kv_trades kv;
         kv_equity := kv_equity kv; kv_equity_days := kv_equity_days kv;
         kv_initial_equity := kv_initial_equity kv; kv_last_status := v;
         kv_positions := kv_positions kv; kv_chart_anchor := kv_chart_anchor kv |}
  | K_positions => fun v kv =>
      {| kv_config := kv_config kv; kv_runtime := kv_runtime kv; kv_events := kv_events kv;
         kv_logs := kv_logs kv; kv_open_trades := kv_open_trades kv; kv_trades := kv_trades kv;
         kv_equity := kv_equity kv; kv_equity_days := kv_equity_days kv;
         kv_initial_equity := kv_initial_equity kv; kv_last_status := kv_last_status kv;
         kv_positions := v; kv_chart_anchor := kv_chart_anchor kv |}
  | K_chart_anchor => fun v kv =>
      {| kv_config := kv_config kv; kv_runtime := kv_runtime kv; kv_events := kv_events kv;
         kv_logs := kv_logs kv; kv_open_trades := kv_open_trades kv; kv_trades := kv_trades kv;
         kv_equity := kv_equity kv; kv_equity_days := kv_equity_days kv;
         kv_initial_equity := kv_initial_equity kv; kv_last_status := kv_last_status kv;
         kv_positions := kv_positions kv; kv_chart_anchor := v |}
  end.

Definition emptyStore : Store :=
  {| kv_config := None; kv_runtime := None; kv_events := []; kv_logs := [];
     kv_open_trades := ∅; kv_trades := []; kv_equity := []; kv_equity_days := ∅;
     kv_initial_equity := None; kv_last_status := None; kv_positions := None;
     kv_chart_anchor := None |}.

(** ** External services and effects *)

Inductive Result (A : Type) := Ok (a : A) | Throw (e : string).
Arguments Ok {A} a.
Arguments Throw {A} e.

(** [/fapi/v2/account] after the coercions of the tick:
    [Number(acct?.availableBalance || '0')],
    [Number(acct?.totalWalletBalance || acct?.totalMarginBalance || 0)],
    [Number(acct?.totalUnrealizedProfit || 0)]. *)
Record Account := {
  acct_availableBalance : float;
  acct_wallet : float;
  acct_unrealized : float
}.

(** The reply to [POST /fapi/v1/order]: [res.status], [res.ok], and
    [Number(resBody?.avgPrice || resBody?.price)] when one of the two
    fields is truthy. *)
Record OrderResponse := { or_status : Z; or_ok : bool; or_px : option float }.

(** A parsed JSON value. *)
Inductive Json :=
| JNull
| JBool (b : bool)
| JNum (x : float)
| JStr (s : string)
| JArr (l : list Json)
| JObj (fields : list (string * Json)).

(** The body of an oracle reply with [r.ok]: what [r.json()],
    [data?.choices?.[0]?.message?.content || '{}'] and [JSON.parse]
    make of it. *)
Inductive LlmBody :=
| BodyNotJson                (* r.json() rejects *)
| ContentMissing             (* no content: '{}' is parsed *)
| ContentNotJson             (* JSON.parse(content) throws *)
| ContentJson (parsed : Json).

Record LlmHttp := { llm_ok : bool; llm_status : Z; llm_body : LlmBody }.

(** What the worker does to the outside, in order. *)
Inductive Effect :=
| EGet (path : string)       (* a GET to the exchange *)
| EOrder (p : OrderParams)   (* POST /fapi/v1/order *)
| EOracle (model : string)   (* POST {base}/chat/completions *)
| ESleep (ms : Z).           (* setTimeout *)

(** The outside world: the reply to the effect performed at step [n]. *)
Record World := {
  w_now : nat → Z;
  w_kvFails : nat → bool;
  w_account : nat → Result (option Account);
  w_tickerPrice : nat → string → Result float;
  w_stats24 : nat → Result unit;
  w_klines : nat → string → Result unit;
  w_exchangeInfo : nat → Result ExchangeInfo;
  w_positionRisk : nat → Result (list (string * float));
  w_order : nat → OrderParams → Result OrderResponse;
  w_llm : nat → Result LlmHttp;
  w_summary : nat → string;
  w_noveltyHash : nat → string;
  w_objectKeys : nat → list string → list string
}.

(** The worker's bindings and secrets. *)
Record Env := {
  ASTER_API_BASE : option string;
  ASTER_API_KEY : option string;
  ASTER_API_SECRET : option string;
  ADMIN_KEY : option string;
  QWEN_API_KEY : option string
}.

(** [st_rt] is the tick's local [rt] object, which the order path mutates
    in place and both the tick's tail and its catch block read. *)
Record State := {
  st_kv : Store;
  st_step : nat;
  st_trace : list Effect;
  st_rt : VibeRuntime
}.

Definition M (A : Type) : Type := State → Result A * State.

Global Instance M_ret : MRet M := λ A a s, (Ok a, s).

Global Instance M_bind : MBind M := λ A B k m s,
  match m s with
  | (Ok a, s') => k a s'
  | (Throw e, s') => (Throw e, s')
  end.

Definition throw {A} (e : string) : M A := λ s, (Throw e, s).

(** [try { m } catch (e) { h e }] *)
Definition tryCatch {A} (m : M A) (h : string → M A) : M A := λ s,
  match m s with
  | (Ok a, s') => (Ok a, s')
  | (Throw e, s') => h e s'
  end.

(** [try { m } catch {}] *)
Definition tryIgnore (m : M unit) : M unit := tryCatch m (λ _, mret tt).

(** [try { m } finally { fin }] *)
Definition tryFinally {A} (m : M A) (fin : M unit) : M A := λ s,
  let '(r, s1) := m s in
  match fin s1 with
  | (Ok _, s2) => (r, s2)
  | (Throw e, s2) => (Throw e, s2)
  end.

(** Reading and assigning the local [rt]. *)
Definition getRt : M VibeRuntime := λ s, (Ok (st_rt s), s).

Definition setRt (rt : VibeRuntime) : M unit := λ s,
  (Ok tt, {| st_kv := st_kv s; st_step := st_step s; st_trace := st_trace s; st_rt := rt |}).

(** [for (const x of l) { f x }] *)
Fixpoint forM_ {A} (l : list A) (f : A → M unit) : M unit :=
  match l with
  | [] => mret tt
  | x :: l' => f x ≫= λ _, forM_ l' f
  end.

(** A loop over [l] that threads a local variable. *)
Fixpoint foldM {A B} (f : B → A → M B) (b : B) (l : list A) : M B :=
  match l with
  | [] => mret b
  | x :: l' => f b x ≫= λ b', foldM f b' l'
  end.

Section Effects.

Variable w : World.

Definition stepped (kv : Store) (tr : list Effect) (s : State) : State :=
  {| st_kv := kv; st_step := S (st_step s); st_trace := tr; st_rt := st_rt s |}.

(** [Date.now()] *)
Definition dateNow : M Z := λ s,
  (Ok (w_now w (st_step s)), stepped (st_kv s) (st_trace s) s).

(** [env.MEAP_KV.get(key, { type: 'json' })] *)
Definition kvGet (k : Key) : M (valT k) := λ s,
  if w_kvFails w (st_step s)
  then (Throw "KV get failed", stepped (st_kv s) (st_trace s) s)
  else (Ok (kvRead k (st_kv s)), stepped (st_kv s) (st_trace s) s).

(** [env.MEAP_KV.put(key, JSON.stringify(value))] *)
Definition kvPut (k : Key) (v : valT k) : M unit := λ s,
  if w_kvFails w (st_step s)
  then (Throw "KV put failed", stepped (st_kv s) (st_trace s) s)
  else (Ok tt, stepped (kvWrite k v (st_kv s)) (st_trace s) s).

(** An external call: recorded in the trace, answered by the world. *)
Definition perform {A} (e : Effect) (reply : nat → Result A) : M A := λ s,
  (reply (st_step s), stepped (st_kv s) (st_trace s ++ [e]) s).

(** [await new Promise(r => setTimeout(r, ms))] *)
Definition sleep (ms : Z) : M unit := perform (ESleep ms) (λ _, Ok tt).

(** [Object.keys(map)]: the keys of the object, in the order the world
    gives them. *)
Definition objectKeys {A} (map : gmap string A) : M (list string) := λ s,
  (Ok (w_objectKeys w (st_step s) (fst <$> map_to_list map)), s).

(** [Object.entries(map)]: the keys in the same order, each with its
    value. *)
Definition objectEntries {A} (map : gmap string A) : M (list (string * A)) :=
  keys ← objectKeys map;
  mret (omap (λ k, pair k <$> map !! k) keys).

(** *** Ledger operations *)

Definition appendLog (entry : LogBody) : M unit :=
  logs ← kvGet K_logs;
  ts ← dateNow;
  kvPut K_logs (pushBounded 500 logs {| log_at := ts; log_body := entry |}).

Definition getOpenTrades : M (gmap string OpenTrade) := kvGet K_open_trades.

Definition setOpenTrades (map : gmap string OpenTrade) : M unit :=
  kvPut K_open_trades map.

Definition appendClosedTrade (trade : ClosedTrade) : M unit :=
  list ← kvGet K_trades;
  kvPut K_trades (pushBounded 2000 list trade).

End Effects.

(** ** Exchange calls *)

Section Exchange.

Variable w : World.

Local Open Scope float_scope.

(** [(env.ASTER_API_BASE || '').trim()] *)
Definition trimmedBase (env : Env) : string :=
  Js.trim (default "" (ASTER_API_BASE env)).

(** [(env.ASTER_API_BASE || '').trim().replace(/\/+$/, '')] *)
Definition apiBase (env : Env) : string := Js.stripTrailingSlashes (trimmedBase env).

(** [base && apiKey && apiSecret] *)
Definition hasCredentials (env : Env) : bool :=
  negb (String.eqb (apiBase env) "")
  && Js.truthyS (ASTER_API_KEY env) && Js.truthyS (ASTER_API_SECRET env).

(** [asterFapiGetJson(env, '/fapi/v2/account')] *)
Definition asterFapiGetAccount (env : Env) : M (option Account) :=
  if negb (hasCredentials env) then mret None
  else
    _ ← dateNow w;
    perform (EGet "/fapi/v2/account") (w_account w).

(** [Number(tick?.price || 0)] of
    [asterFapiGetPublicJson(env, `/fapi/v1/ticker/price?symbol=${sym}`)] *)
Definition tickerPrice (env : Env) (sym : string) : M float :=
  if String.eqb (apiBase env) "" then mret 0
  else perform (EGet ("/fapi/v1/ticker/price?symbol=" +:+ sym))
                 (λ n, w_tickerPrice w n sym).

(** [asterFapiGetPublicJson(env, '/fapi/v1/ticker/24hr')] *)
Definition stats24hr (env : Env) : M unit :=
  if String.eqb (apiBase env) "" then mret tt
  else perform (EGet "/fapi/v1/ticker/24hr") (w_stats24 w).

(** [fetchKlines(env, sym, '1m', 120)] *)
Definition fetchKlines (env : Env) (sym : string) : M unit :=
  if String.eqb (apiBase env) "" then mret tt
  else perform (EGet ("/fapi/v1/klines?symbol=" +:+ sym)) (λ n, w_klines w n sym).

Definition getExchangeInfo (env : Env) : M ExchangeInfo :=
  if String.eqb (apiBase env) "" then mret None
  else perform (EGet "/fapi/v1/exchangeInfo") (w_exchangeInfo w).

(** The closure [fetchPos] of the close path: the entry of [sym] in
    [/fapi/v2/positionRisk], as its [Number(p?.positionAmt || 0)]. *)
Definition fetchPos (sym : string) : M (option float) :=
  _ ← dateNow w;
  l ← perform (EGet "/fapi/v2/positionRisk") (w_positionRisk w);
  mret (snd <$> List.find (λ p, String.eqb (fst p) sym) l).

(** [base && apiKey && apiSecret] in the close path, whose [base] is
    trimmed only. *)
Definition canPoll (env : Env) : bool :=
  negb (String.eqb (trimmedBase env) "")
  && Js.truthyS (ASTER_API_KEY env) && Js.truthyS (ASTER_API_SECRET env).

(** [base && apiKey && apiSecret ? await fetchPos() : null] *)
Definition livePosition (env : Env) (sym : string) : M (option float) :=
  if canPoll env then fetchPos sym else mret None.

(** [asterFapiSignedPost(env, '/fapi/v1/order', params)] *)
Definition asterFapiSignedPost (env : Env) (params : OrderParams) : M OrderResponse :=
  if negb (hasCredentials env)
  then mret {| or_status := 400; or_ok := false; or_px := None |}
  else
    _ ← dateNow w;
    perform (EOrder params) (λ n, w_order w n params).

(** [Number(resBody?.avgPrice || resBody?.price || price) || price] *)
Definition fillPrice (res : OrderResponse) (price : float) : float :=
  Js.or (default price (or_px res)) price.

(** *** Close to flat *)

Record CloseAcc := {
  totalQtyClosed : float;
  sumNotionalExit : float;
  lastExitPrice : float
}.

Definition maxCloseAttempts : nat := 8.

(** [while (attempts < 8) { attempts++; ... }]: [fuel] is [8 - attempts]. *)
Fixpoint closeLoop (env : Env) (sym : string) (price : float) (reason : CloseReason)
    (stepSz : float) (fuel : nat) (acc : CloseAcc) : M CloseAcc :=
  match fuel with
  | O => mret acc
  | S fuel' =>
      p ← livePosition env sym;
      match p with
      | None => mret acc
      | Some amt =>
          if Js.Math_abs amt <=? 0 then mret acc
          else
            let side := if Js.gtb amt 0 then SELL else BUY in
            let qtyRaw := Js.Math_abs amt in
            let qty := quantize qtyRaw stepSz in
            if negb (Js.gtb qty 0) then mret acc
            else
              let params := {| op_symbol := sym; op_side := side;
                               op_quantity := qty; op_reduceOnly := true |} in
              res ← asterFapiSignedPost env params;
              _ ← appendLog w (vibe_order (or_status res) (or_ok res) params
                                (qty * fillPrice res price) (ExitReason reason));
              let acc' :=
                if or_ok res then
                  let px := fillPrice res price in
                  {| totalQtyClosed := totalQtyClosed acc + qty;
                     sumNotionalExit := sumNotionalExit acc + px * qty;
                     lastExitPrice := px |}
                else acc in
              _ ← sleep 500;
              closeLoop env sym price reason stepSz fuel' acc'
      end
  end.

(** [let step = 0.0001; try { step = stepSizeForSymbol(info, sym).step } catch {}] *)
Definition preloadStep (env : Env) (sym : string) : M float :=
  tryCatch (info ← getExchangeInfo env; mret (step (stepSizeForSymbol info sym)))
           (λ _, mret 0.0001).

(** [let finalAmt = 0; try { finalAmt = Number(p?.positionAmt || 0) } catch {}] *)
Definition finalCheck (env : Env) (sym : string) : M float :=
  tryCatch (p ← livePosition env sym; mret (default 0 p)) (λ _, mret 0).

Definition closedFromExit (sym : string) (t : OpenTrade) (now : Z) (acc : CloseAcc)
  : ClosedTrade :=
  let total := totalQtyClosed acc in
  let exitPrice := if Js.gtb total 0 then sumNotionalExit acc / total
                   else lastExitPrice acc in
  {| ct_symbol := sym;
     ct_side := ot_side t;
     ct_qty := total;
     ct_entryPrice := ot_entryPrice t;
     ct_exitPrice := exitPrice;
     ct_notionalEntry := ot_entryPrice t * total;
     ct_notionalExit := exitPrice * total;
     ct_openedAt := ot_openedAt t;
     ct_closedAt := now;
     ct_holdingMs := Z.max 0 (now - ot_openedAt t);
     ct_pnlUsd := match ot_side t with
                  | LONG => (exitPrice - ot_entryPrice t) * total
                  | SHORT => (ot_entryPrice t - exitPrice) * total
                  end;
     ct_provider := ot_provider t;
     ct_model := ot_model t;
     ct_thesis := ot_thesis t |}.

(** [if (Math.abs(finalAmt) <= 0 && totalQtyClosed > 0) { ... }]: the
    ClosedTrade is appended and the entry deleted from the local
    [openMap], which is written back whole. *)
Definition settleClose (sym : string) (t : OpenTrade) (now : Z) (acc : CloseAcc)
    (finalAmt : float) (openMap : gmap string OpenTrade) : M (gmap string OpenTrade) :=
  if (Js.Math_abs finalAmt <=? 0) && Js.gtb (totalQtyClosed acc) 0 then
    _ ← appendClosedTrade w (closedFromExit sym t now acc);
    let openMap' := delete sym openMap in
    _ ← setOpenTrades w openMap';
    mret openMap'
  else mret openMap.

(** The body of [if (shouldClose) { ... }]. *)
Definition closeToFlat (env : Env) (sym : string) (t : OpenTrade) (now : Z)
    (price : float) (reason : CloseReason) (openMap : gmap string OpenTrade)
  : M (gmap string OpenTrade) :=
  stepSz ← preloadStep env sym;
  acc ← closeLoop env sym price reason stepSz maxCloseAttempts
          {| totalQtyClosed := 0; sumNotionalExit := 0; lastExitPrice := price |};
  finalAmt ← finalCheck env sym;
  settleClose sym t now acc finalAmt openMap.

(** One iteration of [for (const sym of syms)]. *)
Definition enforceExit (env : Env) (cfg : VibeConfig) (openMap : gmap string OpenTrade)
    (sym : string) : M (gmap string OpenTrade) :=
  match openMap !! sym with
  | None => throw "TypeError: t is undefined"
  | Some t =>
      now ← dateNow w;
      price ← tickerPrice env sym;
      if negb (priceUsable price) then mret openMap
      else
        match exitDecision cfg t now price with
        | Some reason => closeToFlat env sym t now price reason openMap
        | None => mret openMap
        end
  end.

(** "Enforce SL/TP and min-hold on existing open trades before making a
    new decision": the whole loop sits in [try { ... } catch {}]. *)
Definition enforceExits (env : Env) (cfg : VibeConfig) : M unit :=
  tryIgnore (
    openMap ← getOpenTrades w;
    syms ← objectKeys w openMap;
    _ ← foldM (enforceExit env cfg) openMap syms;
    mret tt).

End Exchange.

(** ** Decision oracle adapter *)

Record Meta := {
  m_provider : option string;
  m_model : option string;
  m_thesis : option string;
  m_stopLoss : option float;
  m_takeProfit : option float;
  m_minHoldMs : option float
}.

Definition emptyMeta : Meta :=
  {| m_provider := None; m_model := None; m_thesis := None;
     m_stopLoss := None; m_takeProfit := None; m_minHoldMs := None |}.

(** [parsed?.k]: a property of a parsed object (the last duplicate wins),
    [undefined] on anything else. *)
Definition jget (j : Json) (k : string) : option Json :=
  match j with
  | JObj fields => snd <$> List.find (λ p, String.eqb (fst p) k) (rev fields)
  | _ => None
  end.

(** [typeof v === 'string'] and [typeof v === 'number']. *)
Definition jString (v : option Json) : option string :=
  match v with Some (JStr s) => Some s | _ => None end.

Definition jNumber (v : option Json) : option float :=
  match v with Some (JNum x) => Some x | _ => None end.

(** [cfg.universe[0]]; an empty universe gives [undefined], which the
    later uses turn into the text "undefined". *)
Definition firstOfUniverse (cfg : VibeConfig) : string :=
  default "undefined" (head (universe cfg)).

(** [typeof parsed?.symbol === 'string' && cfg.universe.includes(parsed.symbol)
     ? parsed.symbol : cfg.universe[0]] *)
Definition selectSymbol (cfg : VibeConfig) (parsed : Json) : string :=
  match jString (jget parsed "symbol") with
  | Some sym => if bool_decide (sym ∈ universe cfg) then sym else firstOfUniverse cfg
  | None => firstOfUniverse cfg
  end.

(** [['LONG','SHORT','FLAT'].includes(parsed?.action) ? parsed.action : 'FLAT'] *)
Definition selectAction (parsed : Json) : Action :=
  match jString (jget parsed "action") with
  | Some a =>
      if String.eqb a "LONG" then ActLONG
      else if String.eqb a "SHORT" then ActSHORT
      else ActFLAT
  | None => ActFLAT
  end.

(** [meta = { ...llm.meta }] and the four typed copies from [parsed]. *)
Definition buildMeta (llmMeta : Meta) (parsed : Json) : Meta :=
  {| m_provider := m_provider llmMeta;
     m_model := m_model llmMeta;
     m_thesis := match jString (jget parsed "thesis") with
                 | Some t => Some t | None => m_thesis llmMeta end;
     m_stopLoss := match jNumber (jget parsed "stop_loss_price") with
                   | Some x => Some x | None => m_stopLoss llmMeta end;
     m_takeProfit := match jNumber (jget parsed "take_profit_price") with
                     | Some x => Some x | None => m_takeProfit llmMeta end;
     m_minHoldMs := match jNumber (jget parsed "min_hold_minutes") with
                    | Some x => Some (Js.Math_max 0 (Js.Math_floor (x * 60 * 1000)))%float
                    | None => m_minHoldMs llmMeta end |}.

Section Oracle.

Variable w : World.

Definition callLLMDecider (env : Env) (cfg : VibeConfig) : M (Json * Meta) :=
  if negb (Js.truthyS (QWEN_API_KEY env)) then throw "LLM_API_KEY missing"
  else
    let model := if String.eqb (model cfg) "" then "qwen2.5-32b-instruct" else model cfg in
    let meta := {| m_provider := Some "qwen"; m_model := Some model; m_thesis := None;
                   m_stopLoss := None; m_takeProfit := None; m_minHoldMs := None |} in
    r ← perform (EOracle model) (w_llm w);
    if negb (llm_ok r) then throw ("llm_http_" +:+ pretty (llm_status r))
    else
      match llm_body r with
      | BodyNotJson => throw "SyntaxError: Unexpected token in JSON"
      | ContentMissing => mret (JObj [], meta)
      | ContentNotJson => mret (JObj [], meta)
      | ContentJson parsed => mret (parsed, meta)
      end.

(** [let llm = { parsed: {}, meta: {} }; try { llm = await callLLMDecider(...) }
     catch (e) { await appendLog(...) }] *)
Definition consultOracle (env : Env) (cfg : VibeConfig) : M (Json * Meta) :=
  tryCatch (callLLMDecider env cfg)
    (λ e, _ ← appendLog w (vibe_error ("LLM call failed: " +:+ e));
          mret (JObj [], emptyMeta)).

End Oracle.

(** ** Status narrator *)

Inductive LastOutput :=
| OutStatus (equityUsd : float) (summary : string)  (* the emitted statusLog *)
| OutStatusSkipped                                  (* { type: 'vibe_status', skipped: true } *)
| OutDecision (action : Action) (symbol : string) (sizeUsd : float).

Inductive StatusVerdict := Emit | ForceEmit | Suppress.

Definition recentWindow : Z := 3 * 60 * 1000.

Definition minStatusIntervalMs : Z := 5 * 60 * 1000.

(** [Number(last.at || 0)], [Number(last.equityUsd || 0)] and
    [Array.isArray(last.hashes) ? last.hashes : []] of
    [last = (await KV.get(lastKey)) || {}]. *)
Definition lastAtOf (last : option LastStatus) : Z :=
  match last with Some l => ls_at l | None => 0 end.

Definition lastEqOf (last : option LastStatus) : float :=
  match last with Some l => Js.or (ls_equityUsd l) 0 | None => 0%float end.

Definition hashesOf (last : option LastStatus) : list string :=
  match last with Some l => ls_hashes l | None => [] end.

(** [lastEq > 0 ? Math.abs((eq - lastEq) / lastEq) : 0] *)
Definition pctMove (eq lastEq : float) : float :=
  (if Js.gtb lastEq 0 then Js.Math_abs ((eq - lastEq) / lastEq) else 0)%float.

(** The branch taken by the "novelty-based rate limiting". *)
Definition statusVerdict (last : option LastStatus) (nowTs : Z) (eq : float)
    (noveltyHash : string) : StatusVerdict :=
  let lastAt := lastAtOf last in
  let isDuplicate := bool_decide (noveltyHash ∈ hashesOf last) in
  if isDuplicate && (nowTs - lastAt <? recentWindow)%Z
     && (pctMove eq (lastEqOf last) <? 0.003)%float
  then if (nowTs - lastAt >=? minStatusIntervalMs)%Z then ForceEmit else Suppress
  else Emit.

Section Narrator.

Variable w : World.

(** The rendered summary text: built from display strings
    ([toFixed], templates rotated by the minute), which are not
    modelled; the world supplies the text. *)
Definition renderSummary : M string := λ s,
  (Ok (w_summary w (st_step s)), stepped (st_kv s) (st_trace s) s).

(** [await sha256Hex(noveltyText)] *)
Definition noveltyHashOf : M string := λ s,
  (Ok (w_noveltyHash w (st_step s)), stepped (st_kv s) (st_trace s) s).

(** The three writes of an emission. *)
Definition emitStatus (events : list LogEntry) (nowTs : Z) (eq : float)
    (summary noveltyHash : string) (hashes : list string) : M LastOutput :=
  let statusLog := vibe_status eq summary in
  _ ← appendLog w statusLog;
  _ ← kvPut w K_events (events ++ [{| log_at := nowTs; log_body := statusLog |}]);
  let nextHashes := take 12 (noveltyHash :: hashes) in
  _ ← kvPut w K_last_status
        (Some {| ls_at := nowTs; ls_equityUsd := eq; ls_hashes := nextHashes |});
  mret (OutStatus eq summary).

(** "Novelty-based rate limiting" up to the end of the FLAT branch. *)
Definition rateLimitedStatus (events : list LogEntry) (eq : float) (summary : string)
  : M LastOutput :=
  last ← kvGet w K_last_status;
  nowTs ← dateNow w;
  noveltyHash ← noveltyHashOf;
  match statusVerdict last nowTs eq noveltyHash with
  | Suppress => mret OutStatusSkipped
  | ForceEmit | Emit => emitStatus events nowTs eq summary noveltyHash (hashesOf last)
  end.

(** The FLAT branch: [try { ... } catch {}] around the summary and the
    rate limiter; [lastOutput] stays [null] when anything throws. *)
Definition narrateFlat (env : Env) (events : list LogEntry) (equityUsd : float)
  : M (option LastOutput) :=
  tryCatch (
    open ← getOpenTrades w;
    posList ← objectEntries w open;
    _ ← forM_ posList (λ p,
          _ ← tickerPrice w env (fst p);
          match ot_minHoldMs (snd p) with
          | Some _ => _ ← dateNow w; mret tt
          | None => mret tt
          end);
    _ ← tryIgnore (_ ← kvGet w K_initial_equity; mret tt);
    _ ← dateNow w;
    summary ← renderSummary;
    out ← rateLimitedStatus events equityUsd summary;
    mret (Some out))
  (λ _, mret None).

End Narrator.

(** ** New-position orders *)

Section Orders.

Variable w : World.

Local Open Scope float_scope.

Definition isEntry (a : Action) : bool :=
  match a with ActLONG | ActSHORT => true | ActFLAT => false end.

(** [!rt.lastOrderAt || now - rt.lastOrderAt > 3 * 60 * 1000] *)
Definition coolOk (rt : VibeRuntime) (now : Z) : bool :=
  match lastOrderAt rt with
  | Some t => (t =? 0)%Z || (3 * 60 * 1000 <? now - t)%Z
  | None => true
  end.

(** The loop over [closedTrades.slice(-10)]. *)
Definition recentLosses (now : Z) (closedTrades : list ClosedTrade) : nat * float :=
  fold_left
    (λ acc t,
       if (now - ct_closedAt t <? 30 * 60 * 1000)%Z && (ct_pnlUsd t <? 0)
       then (S (fst acc), snd acc + ct_pnlUsd t) else acc)
    (drop (length closedTrades - 10) closedTrades) (O, 0).

Definition sideOfAction (a : Action) : Side :=
  match a with ActSHORT => SHORT | _ => LONG end.

(** The synthetic close of the position a new fill replaces. *)
Definition closedByFlip (sym : string) (existing : OpenTrade) (price : float) (now : Z)
    (meta : Meta) : ClosedTrade :=
  {| ct_symbol := sym;
     ct_side := ot_side existing;
     ct_qty := ot_qty existing;
     ct_entryPrice := ot_entryPrice existing;
     ct_exitPrice := price;
     ct_notionalEntry := ot_notionalEntry existing;
     ct_notionalExit := Js.Math_abs (ot_qty existing * price);
     ct_openedAt := ot_openedAt existing;
     ct_closedAt := now;
     ct_holdingMs := Z.max 0 (now - ot_openedAt existing);
     ct_pnlUsd := unrealizedPnl existing price;
     ct_provider := m_provider meta;
     ct_model := m_model meta;
     ct_thesis := ot_thesis existing |}.

Definition openedByFill (sym : string) (a : Action) (qty price : float) (now : Z)
    (meta : Meta) : OpenTrade :=
  {| ot_symbol := sym;
     ot_side := sideOfAction a;
     ot_qty := qty;
     ot_entryPrice := price;
     ot_notionalEntry := Js.Math_abs (qty * price);
     ot_openedAt := now;
     ot_provider := m_provider meta;
     ot_model := m_model meta;
     ot_stopLoss := m_stopLoss meta;
     ot_takeProfit := m_takeProfit meta;
     ot_minHoldMs := m_minHoldMs meta;
     ot_thesis := m_thesis meta |}.

(** "Trades UI tracking: close opposite, then open new snapshot". *)
Definition trackFill (sym : string) (a : Action) (qty price : float) (now : Z)
    (meta : Meta) : M unit :=
  tryIgnore (
    open ← getOpenTrades w;
    _ ← match open !! sym with
        | Some existing => appendClosedTrade w (closedByFlip sym existing price now meta)
        | None => mret tt
        end;
    setOpenTrades w (<[sym := openedByFill sym a qty price now meta]> open)).

(** [try { const info = ...; qty = ... } catch {}] *)
Definition orderQuantity (env : Env) (sym : string) (notional price : float) : M float :=
  let qty := rawQuantity notional price in
  tryCatch (info ← getExchangeInfo w env;
            mret (lotQuantity qty price (stepSizeForSymbol info sym)))
           (λ _, mret qty).

(** "Execute live order if allowed and balances exist". *)
Definition executeOrder (env : Env) (selectedAction : Action) (selectedSymbol : string)
    (sizeUsd : float) (meta : Meta) : M unit :=
  tryCatch (
    if isEntry selectedAction && Js.truthyS (ASTER_API_SECRET env) then
      let notional := sizeUsd in
      now ← dateNow w;
      rt ← getRt;
      _ ← getOpenTrades w;
      losses ← tryCatch (closedTrades ← kvGet w K_trades; mret (recentLosses now closedTrades))
                        (λ _, mret (O, 0));
      let shouldSkip := negb (coolOk rt now)
                        || (bool_decide (4 ≤ fst losses)%nat && (snd losses <? -150)) in
      if negb shouldSkip && Js.geb notional 10 then
        price ← tickerPrice w env selectedSymbol;
        if Js.gtb price 0 then
          qty ← orderQuantity env selectedSymbol notional price;
          let params := {| op_symbol := selectedSymbol;
                           op_side := match selectedAction with ActLONG => BUY | _ => SELL end;
                           op_quantity := qty; op_reduceOnly := false |} in
          r ← asterFapiSignedPost w env params;
          _ ← appendLog w (vibe_order (or_status r) (or_ok r) params notional
                            (Thesis (m_thesis meta)));
          if or_ok r then
            _ ← setRt {| lastTickAt := lastTickAt rt; lastError := lastError rt;
                         lastProvider := lastProvider rt; lastModel := lastModel rt;
                         lastOrderAt := Some now; lastSignal := Some selectedAction |};
            trackFill selectedSymbol selectedAction qty price now meta
          else mret tt
        else mret tt
      else mret tt
    else mret tt)
  (λ e, appendLog w (vibe_order_error e)).

End Orders.

(** ** Equity store *)

(** The UTC civil date of a day number counted from 1970-01-01: what
    [getUTCFullYear], [getUTCMonth() + 1] and [getUTCDate] return. *)
Definition civilFromDays (days : Z) : Z * Z * Z :=
  let z := (days + 719468)%Z in
  let era := (z / 146097)%Z in
  let doe := (z - era * 146097)%Z in
  let yoe := ((doe - doe / 1460 + doe / 36524 - doe / 146096) / 365)%Z in
  let doy := (doe - (365 * yoe + yoe / 4 - yoe / 100))%Z in
  let mp := ((5 * doy + 2) / 153)%Z in
  let d := (doy - (153 * mp + 2) / 5 + 1)%Z in
  let m := (if mp <? 10 then mp + 3 else mp - 9)%Z in
  let y := (yoe + era * 400 + (if m <=? 2 then 1 else 0))%Z in
  (y, m, d).

(** [String(n).padStart(2, '0')] *)
Definition pad2 (n : Z) : string :=
  if (0 <=? n)%Z && (n <? 10)%Z then "0" +:+ pretty n else pretty n.

Definition dayKey (ts : Z) : string :=
  let '(yyyy, mm, dd) := civilFromDays (ts / 86400000) in
  "/vibe_equity_" +:+ pretty yyyy +:+ "-" +:+ pad2 mm +:+ "-" +:+ pad2 dd +:+ ".json".

(** [10080 * 4]: "~28 days @1m". *)
Definition largeCap : nat := Z.to_nat (10080 * 4).

(** ** The tick *)

Record TickCtx := {
  cx_cfg : VibeConfig;
  cx_events : list LogEntry;
  cx_availableBalance : float;
  cx_equityUsd : float;
  cx_sampledEquity : float
}.

Inductive TickResult :=
| TickSkipped                                        (* { skipped: 'stopped' } *)
| TickOk (meta : Meta) (lastOutput : option LastOutput)
| TickError (error : string).                        (* { ok: false, error } *)

Section Tick.

Variable w : World.

Local Open Scope float_scope.

(** "Pull account available balance for equity sampling":
    [(availableBalance, equityUsd, sampledEquity)], all [0] when the
    call throws. *)
Definition accountSnapshot (env : Env) : M (float * float * float) :=
  tryCatch (
    acct ← asterFapiGetAccount w env;
    let availableBalance := from_option acct_availableBalance 0 acct in
    let wallet := from_option acct_wallet 0 acct in
    let unrl := from_option acct_unrealized 0 acct in
    let equityUsd := if Js.isFinite (wallet + unrl) then wallet + unrl
                     else availableBalance in
    mret (availableBalance, equityUsd, equityUsd))
  (λ _, mret (0, 0, 0)).

(** From the three reads at the top to the account snapshot; [None] is
    the early [return { skipped: 'stopped' }]. *)
Definition tickPrelude (env : Env) (ignoreStatus : bool) : M (option TickCtx) :=
  cfg ← kvGet w K_config;
  let cfg := default DEFAULT_VIBE_CONFIG cfg in
  rt ← kvGet w K_runtime;
  _ ← setRt (default emptyRuntime rt);
  events ← kvGet w K_events;
  if negb (isRunning cfg) && negb ignoreStatus then mret None
  else
    snap ← accountSnapshot env;
    mret (Some {| cx_cfg := cfg; cx_events := events;
                  cx_availableBalance := fst (fst snap);
                  cx_equityUsd := snd (fst snap);
                  cx_sampledEquity := snd snap |}).

(** "Store baseline initial equity once" *)
Definition storeInitialEquity (equityUsd : float) : M unit :=
  tryIgnore (
    init ← kvGet w K_initial_equity;
    match init with
    | None =>
        if Js.gtb equityUsd 0 then
          ts ← dateNow w;
          kvPut w K_initial_equity (Some {| es_at := ts; es_equityUsd := equityUsd |})
        else mret tt
    | Some _ => mret tt
    end).

(** Prices, 24h stats and indicators: they only feed the [state] sent
    to the oracle, whose reply the world scripts.  The fetches that
    [Promise.all] starts together are taken one after the other; the
    first one that throws makes the whole block throw. *)
Definition marketSnapshot (env : Env) (cfg : VibeConfig) : M unit :=
  _ ← tryIgnore (_ ← forM_ (universe cfg) (λ sym, _ ← tickerPrice w env sym; mret tt);
                 stats24hr w env);
  tryIgnore (forM_ (universe cfg) (fetchKlines w env)).

(** Everything between the account snapshot and the main [try]. *)
Definition tickPreparation (env : Env) (ctx : TickCtx) : M unit :=
  _ ← storeInitialEquity (cx_equityUsd ctx);
  _ ← marketSnapshot env (cx_cfg ctx);
  enforceExits w env (cx_cfg ctx).

(** The non-FLAT branch of "Log decision or status". *)
Definition logDecision (events : list LogEntry) (a : Action) (sym : string)
    (size : float) : M (option LastOutput) :=
  let log := vibe_decision a sym size in
  _ ← appendLog w log;
  ts ← dateNow w;
  _ ← kvPut w K_events (events ++ [{| log_at := ts; log_body := log |}]);
  mret (Some (OutDecision a sym size)).

(** The body of the main [try]. *)
Definition tickBody (env : Env) (ctx : TickCtx) : M TickResult :=
  let cfg := cx_cfg ctx in
  llm ← consultOracle w env cfg;
  let parsed := fst llm in
  let meta := buildMeta (snd llm) parsed in
  _ ← appendLog w (vibe_prompt (m_provider meta) (m_model meta) (cx_equityUsd ctx));
  let selectedSymbol := selectSymbol cfg parsed in
  let selectedAction := selectAction parsed in
  _ ← appendLog w (vibe_llm_response selectedAction selectedSymbol);
  let size := sizeUsd cfg (cx_equityUsd ctx) (cx_availableBalance ctx) in
  lastOutput ←
    match selectedAction with
    | ActFLAT => narrateFlat w env (cx_events ctx) (cx_equityUsd ctx)
    | _ => logDecision (cx_events ctx) selectedAction selectedSymbol size
    end;
  _ ← executeOrder w env selectedAction selectedSymbol size meta;
  _ ← tryIgnore (kvPut w K_positions (Some []));
  rt ← getRt;
  ts ← dateNow w;
  _ ← kvPut w K_runtime
        (Some {| lastTickAt := Some ts; lastError := None;
                 lastProvider := m_provider meta; lastModel := m_model meta;
                 lastOrderAt := lastOrderAt rt; lastSignal := lastSignal rt |});
  mret (TickOk meta lastOutput).

(** The main [catch (e)]. *)
Definition tickFailed (err : string) : M TickResult :=
  _ ← appendLog w (vibe_error err);
  rt ← getRt;
  ts ← dateNow w;
  _ ← kvPut w K_runtime
        (Some {| lastTickAt := Some ts; lastError := Some err;
                 lastProvider := lastProvider rt; lastModel := lastModel rt;
                 lastOrderAt := lastOrderAt rt; lastSignal := lastSignal rt |});
  mret (TickError err).

(** [try { tickBody } catch (e) { tickFailed }] *)
Definition tickAttempt (env : Env) (ctx : TickCtx) : M TickResult :=
  tryCatch (tickBody env ctx) tickFailed.

(** The [finally] block: "Always sample equity if we have a positive
    reading". *)
Definition sampleEquity (sampledEquity : float) : M unit :=
  tryIgnore (
    if Js.truthy sampledEquity && Js.gtb sampledEquity 0 then
      nowTs ← dateNow w;
      equity ← kvGet w K_equity;
      let sample := {| es_at := nowTs; es_equityUsd := sampledEquity |} in
      _ ← kvPut w K_equity (pushBounded largeCap equity sample);
      let dk := dayKey nowTs in
      dayList ← kvGet w (K_equity_day dk);
      kvPut w (K_equity_day dk) (dayList ++ [sample])
    else mret tt).

Definition vibeTick (env : Env) (ignoreStatus : bool) : M TickResult :=
  ctx ← tickPrelude env ignoreStatus;
  match ctx with
  | None => mret TickSkipped
  | Some ctx =>
      _ ← tickPreparation env ctx;
      tryFinally (tickAttempt env ctx) (sampleEquity (cx_sampledEquity ctx))
  end.

End Tick.

(** ** Privileged handlers *)

(** The body of [POST /api/vibe/run] after its coercions: a field is
    [None] when the body does not override it. *)
Record RunOverrides := {
  ro_universe : option (list string);
  ro_maxRiskPerTradeUsd : option float;
  ro_maxDailyLossUsd : option float;
  ro_maxExposureUsd : option float;
  ro_leverageCap : option float;
  ro_isolated : bool;
  ro_model : option string;
  ro_maxLossPerTradeUsd : option float
}.

(** [req_adminKey] is [req.headers.get('x-admin-key')]. *)
Record Request := { req_adminKey : option string; req_run : RunOverrides }.

Record Response := {
  resp_status : Z;
  resp_ok : bool;
  resp_error : option string;
  resp_config : option VibeConfig
}.

(** [{ ok: false, error: 'forbidden' }] with status 403. *)
Definition forbidden : Response :=
  {| resp_status := 403; resp_ok := false; resp_error := Some "forbidden";
     resp_config := None |}.

Definition okConfig (cfg : VibeConfig) : Response :=
  {| resp_status := 200; resp_ok := true; resp_error := None; resp_config := Some cfg |}.

(** [const key = req.headers.get('x-admin-key') || '';
     if (!admin || key !== admin)] *)
Definition adminRejected (env : Env) (req : Request) : bool :=
  let admin := ADMIN_KEY env in
  let key := default "" (req_adminKey req) in
  negb (Js.truthyS admin) || negb (bool_decide (Some key = admin)).

(** The admin endpoints other than run and stop. *)
Inductive AdminOp :=
| BackfillEquity | EraseEquity | RestoreEquityFromLogs | ReconstructEquity
| ScanNearestAnchor | SetAnchor | OldOpenTrades | CloseOldOpenTrades
| CloseAllPositions | AppendClosedTrade | BackfillTradesIncome | BackfillTrades.

Section Handlers.

Variable w : World.

(** What an admin endpoint does once the guard has let the request
    through: equity and trade repair, outside the engine. *)
Variable repair : AdminOp → Env → Request → M Response.

Definition handleVibeRun (env : Env) (req : Request) : M Response :=
  if adminRejected env req then mret forbidden
  else
    let body := req_run req in
    cfg ← kvGet w K_config;
    let cfg := default DEFAULT_VIBE_CONFIG cfg in
    let next :=
      {| status := running;
         universe := match ro_universe body with
                     | Some (x :: u) => x :: u
                     | _ => universe cfg
                     end;
         maxRiskPerTradeUsd := default (maxRiskPerTradeUsd cfg) (ro_maxRiskPerTradeUsd body);
         maxDailyLossUsd := default (maxDailyLossUsd cfg) (ro_maxDailyLossUsd body);
         maxExposureUsd := default (maxExposureUsd cfg) (ro_maxExposureUsd body);
         leverageCap := default (leverageCap cfg) (ro_leverageCap body);
         marginMode := if ro_isolated body then isolated else cross;
         model := match ro_model body with
                  | Some m => if String.eqb m "" then model cfg else m
                  | None => model cfg
                  end;
         maxLossPerTradeUsd := Some (default (default nan (maxLossPerTradeUsd cfg))
                                             (ro_maxLossPerTradeUsd body)) |} in
    _ ← kvPut w K_config (Some next);
    _ ← appendLog w (vibe_status_run running);
    mret (okConfig next).

Definition handleVibeStop (env : Env) (req : Request) : M Response :=
  if adminRejected env req then mret forbidden
  else
    cfg ← kvGet w K_config;
    let cfg := default DEFAULT_VIBE_CONFIG cfg in
    let next :=
      {| status := stopped; universe := universe cfg;
         maxRiskPerTradeUsd := maxRiskPerTradeUsd cfg;
         maxDailyLossUsd := maxDailyLossUsd cfg;
         maxExposureUsd := maxExposureUsd cfg;
         leverageCap := leverageCap cfg; marginMode := marginMode cfg;
         model := model cfg; maxLossPerTradeUsd := maxLossPerTradeUsd cfg |} in
    _ ← kvPut w K_config (Some next);
    _ ← appendLog w (vibe_status_run stopped);
    mret (okConfig next).

(** Every other admin handler opens with the same guard. *)
Definition handleAdmin (op : AdminOp) (env : Env) (req : Request) : M Response :=
  if adminRejected env req then mret forbidden
  else repair op env req.

Definition handleVibeBackfillEquity := handleAdmin BackfillEquity.
Definition handleVibeEraseEquity := handleAdmin EraseEquity.
Definition handleVibeRestoreEquityFromLogs := handleAdmin RestoreEquityFromLogs.
Definition handleVibeReconstructEquity := handleAdmin ReconstructEquity.
Definition handleScanNearestAnchor := handleAdmin ScanNearestAnchor.
Definition handleSetAnchor := handleAdmin SetAnchor.
Definition handleVibeOldOpenTrades := handleAdmin OldOpenTrades.
Definition handleVibeCloseOldOpenTrades := handleAdmin CloseOldOpenTrades.
Definition handleVibeCloseAllPositions := handleAdmin CloseAllPositions.
Definition handleAppendClosedTrade := handleAdmin AppendClosedTrade.
Definition handleBackfillTradesIncome := handleAdmin BackfillTradesIncome.
Definition handleVibeBackfillTrades := handleAdmin BackfillTrades.

End Handlers.

(** * Specification-side definitions *)

(** The size formula as the specification words it. *)
Definition sizeUsd_spec (perTradeCap equity targetFraction : float) : float :=
  Js.Math_min perTradeCap (Js.Math_floor (equity * targetFraction)).

(** The quantization formula as the specification words it,
    max(1, floor(q / s)) * s, over exact rationals. *)
Definition quantize_exact (q s : Q) : Q :=
  (inject_Z (Z.max 1 (Qfloor (q / s))) * s)%Q.

(** A parsed reply carries "a valid action in {LONG, SHORT, FLAT}". *)
Definition validAction (parsed : Json) : bool :=
  match jString (jget parsed "action") with
  | Some a => bool_decide (a ∈ ["LONG"; "SHORT"; "FLAT"])
  | None => false
  end.

(** An oracle exchange that yields a plan: no thrown error, an HTTP
    success, a JSON content with a valid action. *)
Definition oracleReplyUsable (r : Result LlmHttp) : bool :=
  match r with
  | Ok h =>
      llm_ok h && match llm_body h with
                  | ContentJson parsed => validAction parsed
                  | _ => false
                  end
  | Throw _ => false
  end.

(** The store accepts every operation. *)
Definition kvReliable (w : World) : Prop := ∀ n, w_kvFails w n = false.

(** [Object.keys] lists each key of the object once. *)
Definition keysListed (w : World) : Prop := ∀ n keys, w_objectKeys w n keys ≡ₚ keys.

(** The store accepts every operation from step [n] on. *)
Definition kvReliableFrom (w : World) (n : nat) : Prop :=
  ∀ m, n ≤ m → w_kvFails w m = false.

(** Effects that are not a new-position order (unless [entries]). *)
Definition allowed (entries : bool) (e : Effect) : bool :=
  match e with
  | EOrder p => entries || op_reduceOnly p
  | _ => true
  end.

(** [s'] differs from [s] only at the keys in [W], and its trace extends
    that of [s] by allowed effects. *)
Definition footprint (W : Key → bool) (entries : bool) (s s' : State) : Prop :=
  (∀ k, W k = false → kvRead k (st_kv s') = kvRead k (st_kv s)) ∧
  (∃ tr, st_trace s' = st_trace s ++ tr ∧ forallb (allowed entries) tr = true).

Definition within {A} (W : Key → bool) (entries : bool) (m : M A) : Prop :=
  ∀ s, footprint W entries s (m s).2.

Definition isPoll (e : Effect) : bool :=
  match e with EGet path => String.eqb path "/fapi/v2/positionRisk" | _ => false end.

Definition isOrder (e : Effect) : bool :=
  match e with EOrder _ => true | _ => false end.

Definition fixedDelay (e : Effect) : bool :=
  match e with ESleep ms => (ms =? 500)%Z | _ => true end.

(** The keys the close loop may write. *)
Definition logsOnly (k : Key) : bool :=
  match k with K_logs => true | _ => false end.

(** The keys of the equity store. *)
Definition notEquity (k : Key) : bool :=
  match k with K_equity | K_equity_day _ => false | _ => true end.

Definition anyKey (k : Key) : bool := true.

(** ** Sample scenarios *)

Module Sample.

Definition env : Env :=
  {| ASTER_API_BASE := Some "https://fapi.example"; ASTER_API_KEY := Some "key";
     ASTER_API_SECRET := Some "secret"; ADMIN_KEY := Some "admin";
     QWEN_API_KEY := Some "qwen-key" |}.

(** LONG 2 @ 100 opened at t = 0 with stop 95, a take-profit that the
    price 94 also breaches, and a one-hour minimum hold. *)
Definition longBtc : OpenTrade :=
  {| ot_symbol := "BTCUSDT"; ot_side := LONG; ot_qty := 2; ot_entryPrice := 100;
     ot_notionalEntry := 200; ot_openedAt := 0;
     ot_provider := Some "qwen"; ot_model := Some "qwen2.5-32b-instruct";
     ot_stopLoss := Some 95%float; ot_takeProfit := Some 94%float;
     ot_minHoldMs := Some 3600000%float; ot_thesis := Some "breakout" |}.

Definition closedBtc : ClosedTrade :=
  {| ct_symbol := "BTCUSDT"; ct_side := LONG; ct_qty := 2; ct_entryPrice := 100;
     ct_exitPrice := 94; ct_notionalEntry := 200; ct_notionalExit := 188;
     ct_openedAt := 0; ct_closedAt := 1000; ct_holdingMs := 1000;
     ct_pnlUsd := -12; ct_provider := None; ct_model := None; ct_thesis := None |}.

(** The exchange quotes 94 and keeps reporting a position of 2 (its
    orders fill nothing); the account holds 1000; the oracle call
    throws; the store works. *)
Definition world : World :=
  {| w_now := λ n, (1000 + Z.of_nat n)%Z;
     w_kvFails := λ _, false;
     w_account := λ _, Ok (Some {| acct_availableBalance := 900;
                                   acct_wallet := 1000; acct_unrealized := 0 |});
     w_tickerPrice := λ _ _, Ok 94%float;
     w_stats24 := λ _, Ok tt;
     w_klines := λ _ _, Ok tt;
     w_exchangeInfo := λ _, Ok None;
     w_positionRisk := λ _, Ok [("BTCUSDT", 2%float)];
     w_order := λ _ _, Ok {| or_status := 200; or_ok := true; or_px := None |};
     w_llm := λ _, Throw "network timeout";
     w_summary := λ _, "No open positions";
     w_noveltyHash := λ _, "h0";
     w_objectKeys := λ _ keys, keys |}.

Definition store : Store :=
  kvWrite K_open_trades (<["BTCUSDT" := longBtc]> ∅) emptyStore.

Definition state : State :=
  {| st_kv := store; st_step := 0; st_trace := []; st_rt := emptyRuntime |}.

(** The same world with a store outage that hits the first two store
    operations of the main [try] and of its catch block. *)
Definition outage : World :=
  {| w_now := w_now world;
     w_kvFails := λ n, Nat.leb 102 n && Nat.leb n 103;
     w_account := w_account world;
     w_tickerPrice := w_tickerPrice world;
     w_stats24 := w_stats24 world;
     w_klines := w_klines world;
     w_exchangeInfo := w_exchangeInfo world;
     w_positionRisk := w_positionRisk world;
     w_order := w_order world;
     w_llm := w_llm world;
     w_summary := w_summary world;
     w_noveltyHash := w_noveltyHash world;
     w_objectKeys := w_objectKeys world |}.

(** The same world with a store that stops answering after the account
    snapshot of a tick that starts at step 0. *)
Definition blackout : World :=
  {| w_now := w_now world;
     w_kvFails := λ n, Nat.leb 5 n;
     w_account := w_account world;
     w_tickerPrice := w_tickerPrice world;
     w_stats24 := w_stats24 world;
     w_klines := w_klines world;
     w_exchangeInfo := w_exchangeInfo world;
     w_positionRisk := w_positionRisk world;
     w_order := w_order world;
     w_llm := w_llm world;
     w_summary := w_summary world;
     w_noveltyHash := w_noveltyHash world;
     w_objectKeys := w_objectKeys world |}.

(** What the prelude of a tick reads in these worlds. *)
Definition ctx : TickCtx :=
  {| cx_cfg := DEFAULT_VIBE_CONFIG; cx_events := []; cx_availableBalance := 900;
     cx_equityUsd := 1000; cx_sampledEquity := 1000 |}.

(** The oracle answers LONG on a symbol outside the universe. *)
Definition strayWorld : World :=
  {| w_now := w_now world;
     w_kvFails := w_kvFails world;
     w_account := w_account world;
     w_tickerPrice := w_tickerPrice world;
     w_stats24 := w_stats24 world;
     w_klines := w_klines world;
     w_exchangeInfo := w_exchangeInfo world;
     w_positionRisk := w_positionRisk world;
     w_order := w_order world;
     w_llm := λ _, Ok {| llm_ok := true; llm_status := 200;
                         llm_body := ContentJson (JObj [("action", JStr "LONG");
                                                        ("symbol", JStr "FOOUSDT")]) |};
     w_summary := w_summary world;
     w_noveltyHash := w_noveltyHash world;
     w_objectKeys := w_objectKeys world |}.

Definition emptyState : State :=
  {| st_kv := emptyStore; st_step := 0; st_trace := []; st_rt := emptyRuntime |}.

End Sample.

(** A trace costs at most [polls] position polls and [orders] orders, and
    every delay in it is the fixed 500 ms. *)
Definition budget (polls orders : nat) (tr : list Effect) : Prop :=
  length (List.filter isPoll tr) ≤ polls
  ∧ length (List.filter isOrder tr) ≤ orders
  ∧ forallb fixedDelay tr = true.

Definition costs {A} (polls orders : nat) (m : M A) : Prop :=
  ∀ s, ∃ tr, st_trace (m s).2 = st_trace s ++ tr ∧ budget polls orders tr.

(** The tick recorded no trade decision. *)
Definition noDecision (out : option LastOutput) : Prop :=
  match out with
  | Some (OutDecision _ _ _) => False
  | _ => True
  end.

(** Every normal result of [m] satisfies [Q]. *)
Definition post {A} (m : M A) (Q : A → Prop) : Prop :=
  ∀ s a s', m s = (Ok a, s') → Q a.

(** [m] always returns normally, with a result in [Q], and performs only
    allowed effects. *)
Definition yields {A} (entries : bool) (m : M A) (Q : A → Prop) : Prop :=
  ∀ s, ∃ a s', m s = (Ok a, s') ∧ Q a ∧ footprint anyKey entries s s'.

(** * Further parts of the worker *)

(** ** Tick entry points and public read handlers

    A key of the namespace is scoped by the origin of the URL it is
    resolved against ([new URL(key, url)]): the origin of the request for
    a handler, [https://api.naemu.com] for the scheduled tick.  All
    requests are taken to arrive at that one origin, so handlers and ticks
    share the store. *)

(** [list.slice(-n)]: the last [n] entries, all of them when there are
    fewer. *)
Definition lastN {A} (n : nat) (l : list A) : list A := drop (length l - n) l.

(** The answer of [GET /api/vibe/llm-test]: status 200 with
    [{ ok: true, meta, sample }], or status 500 with [{ ok: false, error }]. *)
Inductive LlmTestResponse :=
| LlmTestOk (meta : Meta) (sample : Json)
| LlmTestFailed (error : string).

Section EntryPoints.

Variable w : World.

(** [POST /api/vibe/tick]: [vibeTick(env, url)], status honoured. *)
Definition handleVibeTick (env : Env) : M TickResult := vibeTick w env false.

(** The cron trigger: [await vibeTick(env, url, true)]. *)
Definition scheduled (env : Env) : M unit :=
  _ ← vibeTick w env true;
  mret tt.

(** [GET /api/vibe/status]: [{ ok: true, config: cfg, runtime: rt }]. *)
Definition handleVibeStatus : M (VibeConfig * VibeRuntime) :=
  cfg ← kvGet w K_config;
  rt ← kvGet w K_runtime;
  mret (default DEFAULT_VIBE_CONFIG cfg, default emptyRuntime rt).

(** [GET /api/vibe/logs]: [{ logs: logs.slice(-200).reverse() }]. *)
Definition handleVibeLogs : M (list LogEntry) :=
  logs ← kvGet w K_logs;
  mret (rev (lastN 200 logs)).

(** [GET /api/vibe/llm-test]: one oracle call on a fixed sample state,
    the whole handler inside [try { ... } catch (e) { ... }]. *)
Definition handleVibeLlmTest (env : Env) : M LlmTestResponse :=
  tryCatch (
    cfg ← kvGet w K_config;
    llm ← callLLMDecider w env (default DEFAULT_VIBE_CONFIG cfg);
    mret (LlmTestOk (snd llm) (fst llm)))
  (λ e, mret (LlmTestFailed e)).

End EntryPoints.

(** ** Properties of runs *)

(** [m] changes the store only at the keys in [W] and performs only
    effects in [P]. *)
Definition confined {A} (W : Key → bool) (P : Effect → bool) (m : M A) : Prop :=
  ∀ s, (∀ k, W k = false → kvRead k (st_kv (m s).2) = kvRead k (st_kv s))
       ∧ ∃ tr, st_trace (m s).2 = st_trace s ++ tr ∧ forallb P tr = true.

Definition noEffect (e : Effect) : bool := false.

Definition notOrder (e : Effect) : bool := negb (isOrder e).

(** Every key but the baseline equity. *)
Definition notBaseline (k : Key) : bool :=
  match k with K_initial_equity => false | _ => true end.

(** A sample with a positive, finite equity reading: a number that the
    stored JSON text carries as it is. *)
Definition positiveSample (p : EquitySample) : Prop :=
  Js.gtb (es_equityUsd p) 0 = true ∧ Js.isFinite (es_equityUsd p) = true.

(** The exchange never reports a non-finite available balance. *)
Definition finiteBalances (w : World) : Prop :=
  ∀ n a, w_account w n = Ok (Some a) → Js.isFinite (acct_availableBalance a) = true.

(** [m] keeps the state property [Q], whether it returns or throws. *)
Definition preserves {A} (Q : State → Prop) (m : M A) : Prop :=
  ∀ s, Q s → Q (m s).2.

(** Every stored equity sample, rolling or daily, is positive and finite. *)
Definition positiveEquity (s : State) : Prop :=
  Forall positiveSample (kv_equity (st_kv s))
  ∧ ∀ dk, Forall positiveSample (kvRead (K_equity_day dk) (st_kv s)).

(** The numbers of a configuration are all finite: the ones that its JSON
    text carries ([JSON.stringify] writes [null] for the others). *)
Definition finiteConfig (cfg : VibeConfig) : bool :=
  Js.isFinite (maxRiskPerTradeUsd cfg) && Js.isFinite (maxDailyLossUsd cfg)
  && Js.isFinite (maxExposureUsd cfg) && Js.isFinite (leverageCap cfg)
  && from_option Js.isFinite true (maxLossPerTradeUsd cfg).

(** ** Further scenarios *)

Module Scenario.

(** LONG 50 @ 100 opened at t = 0: stop 95, target 105, one-hour minimum
    hold. *)
Definition longEth : OpenTrade :=
  {| ot_symbol := "ETHUSDT"; ot_side := LONG; ot_qty := 50; ot_entryPrice := 100;
     ot_notionalEntry := 5000; ot_openedAt := 0;
     ot_provider := Some "qwen"; ot_model := Some "qwen2.5-32b-instruct";
     ot_stopLoss := Some 95%float; ot_takeProfit := Some 105%float;
     ot_minHoldMs := Some 3600000%float; ot_thesis := Some "trend" |}.

Definition openEth : gmap string OpenTrade := <["ETHUSDT" := longEth]> ∅.

(** [Sample.world] with the exchange quoting [px] for every symbol. *)
Definition quoting (px : float) : World :=
  {| w_now := w_now Sample.world;
     w_kvFails := w_kvFails Sample.world;
     w_account := w_account Sample.world;
     w_tickerPrice := λ _ _, Ok px;
     w_stats24 := w_stats24 Sample.world;
     w_klines := w_klines Sample.world;
     w_exchangeInfo := w_exchangeInfo Sample.world;
     w_positionRisk := w_positionRisk Sample.world;
     w_order := w_order Sample.world;
     w_llm := w_llm Sample.world;
     w_summary := w_summary Sample.world;
     w_noveltyHash := w_noveltyHash Sample.world;
     w_objectKeys := w_objectKeys Sample.world |}.


(** No exchange configured. *)
Definition offline : Env :=
  {| ASTER_API_BASE := None; ASTER_API_KEY := None; ASTER_API_SECRET := None;
     ADMIN_KEY := Some "admin"; QWEN_API_KEY := None |}.

Definition stateWith (kv : Store) (rt : VibeRuntime) : State :=
  {| st_kv := kv; st_step := 0; st_trace := []; st_rt := rt |}.

End Scenario.

(** A request that carries the admin key of [Sample.env]; its body
    overrides the per-trade cap and leaves the universe and the model
    empty. *)
Definition authorized : Request :=
  {| req_adminKey := Some "admin";
     req_run := {| ro_universe := Some []; ro_maxRiskPerTradeUsd := Some 250%float;
                   ro_maxDailyLossUsd := None; ro_maxExposureUsd := None;
                   ro_leverageCap := None; ro_isolated := false;
                   ro_model := Some ""; ro_maxLossPerTradeUsd := None |} |}.

(** [Sample.world] with a clock that starts at [t0]. *)
Definition clockAt (t0 : Z) : World :=
  {| w_now := λ n, (t0 + Z.of_nat n)%Z;
     w_kvFails := w_kvFails Sample.world;
     w_account := w_account Sample.world;
     w_tickerPrice := w_tickerPrice Sample.world;
     w_stats24 := w_stats24 Sample.world;
     w_klines := w_klines Sample.world;
     w_exchangeInfo := w_exchangeInfo Sample.world;
     w_positionRisk := w_positionRisk Sample.world;
     w_order := w_order Sample.world;
     w_llm := w_llm Sample.world;
     w_summary := w_summary Sample.world;
     w_noveltyHash := w_noveltyHash Sample.world;
     w_objectKeys := w_objectKeys Sample.world |}.

(** An equity store charted from an anchor on 1970-01-03: one rolling
    entry before the anchor, one after it, and a shard of that day that
    holds another reading for the time of the second. *)
Definition charted : Store :=
  kvWrite K_chart_anchor (Some {| es_at := 172800005; es_equityUsd := 1000 |})
    (kvWrite K_equity [ {| es_at := 100; es_equityUsd := 900 |};
                        {| es_at := 172800010; es_equityUsd := 1001 |} ]
       (kvWrite (K_equity_day "/vibe_equity_1970-01-03.json")
          [ {| es_at := 172800010; es_equityUsd := 1001.5 |};
            {| es_at := 172800007; es_equityUsd := 1000.5 |} ]
          emptyStore)).

(** ** Signing helpers: the hex codec ([hexToBytes], [bytesToHex])

    A string is its sequence of UTF-16 code units; the codec is modelled
    on strings whose code units are below 256, one [ascii] per code unit.
    A [Uint8Array] is a [list byte]. *)

From Stdlib Require Import Ascii.
From Stdlib.Strings Require Byte.

Module Hex.

(** The white space and line terminators [parseInt] skips, among the code
    units below 256: TAB, LF, VT, FF, CR, SP and NBSP. *)
Definition isStrWhiteSpace (c : ascii) : bool :=
  bool_decide (N_of_ascii c ∈ [9; 10; 11; 12; 13; 32; 160]%N).

Fixpoint trimStart (s : string) : string :=
  match s with
  | String c r => if isStrWhiteSpace c then trimStart r else s
  | EmptyString => s
  end.

(** The value of a radix-16 digit, in either case. *)
Definition digitValue (c : ascii) : option N :=
  let n := N_of_ascii c in
  if (48 <=? n)%N && (n <=? 57)%N then Some (n - 48)%N
  else if (97 <=? n)%N && (n <=? 102)%N then Some (n - 87)%N
  else if (65 <=? n)%N && (n <=? 70)%N then Some (n - 55)%N
  else None.

(** The number denoted by the longest prefix of radix-16 digits; [None]
    when that prefix is empty. *)
Fixpoint digitsValue (acc : option N) (s : string) : option N :=
  match s with
  | String c r =>
      match digitValue c with
      | Some d => digitsValue (Some (16 * default 0%N acc + d)%N) r
      | None => acc
      end
  | EmptyString => acc
  end.

(** [parseInt(s, 16)]: leading white space, an optional sign, an optional
    [0x] or [0X], then the longest run of digits; [None] is NaN.  (The
    sign of a zero result is dropped: it does not survive the store into
    a [Uint8Array].) *)
Definition parseInt16 (s : string) : option Z :=
  let s := trimStart s in
  let '(negative, s) :=
    match s with
    | String "-" r => (true, r)
    | String "+" r => (false, r)
    | _ => (false, s)
    end in
  let s :=
    match s with
    | String "0" (String "x" r) => r
    | String "0" (String "X" r) => r
    | _ => s
    end in
  match digitsValue None s with
  | Some n => Some (if negative then (- Z.of_N n)%Z else Z.of_N n)
  | None => None
  end.

(** The store of a number into a [Uint8Array] element: NaN becomes 0,
    an integer is taken modulo 256. *)
Definition toUint8 (v : option Z) : Byte.byte :=
  match v with
  | Some z => default Byte.x00 (Byte.of_N (Z.to_N (z mod 256)))
  | None => Byte.x00
  end.

(** [h.slice(i * 2, i * 2 + 2)] for [i * 2 + 2 <= h.length]. *)
Definition pairAt (h : string) (i : nat) : string := String.substring (2 * i) 2 h.

(** The loop [for (let i = 0; i < out.length; i++) out[i] = parseInt(...)]
    with [out.length] the integer part of [h.length / 2]. *)
Definition decodePairs (h : string) : list Byte.byte :=
  (λ i, toUint8 (parseInt16 (pairAt h i))) <$> seq 0 (String.length h / 2).

Definition hexToBytes (hex : string) : list Byte.byte :=
  let h := match hex with
           | String "0" (String "x" r) => r
           | _ => hex
           end in
  decodePairs h.

(** The lower-case digit of a value below 16. *)
Definition digitChar (n : N) : ascii :=
  ascii_of_N (if (n <? 10)%N then n + 48 else n + 87)%N.

(** [b.toString(16)] for a byte: one or two lower-case digits. *)
Definition toString16 (b : Byte.byte) : string :=
  let n := Byte.to_N b in
  if (n <? 16)%N then String (digitChar n) EmptyString
  else String (digitChar (n / 16)) (String (digitChar (n mod 16)) EmptyString).

(** [s.padStart(2, '0')] *)
Definition padStart2 (s : string) : string :=
  match String.length s with
  | 0 => "00"
  | 1 => String "0" s
  | _ => s
  end.

Definition bytesToHex (bytes : list Byte.byte) : string :=
  "0x" +:+ String.concat "" ((λ b, padStart2 (toString16 b)) <$> bytes).

(** A string made of pairs of lower-case radix-16 digits (the output of
    [keccak_256] and of the [map ... join('')] idiom). *)
Definition isLowerDigit (c : ascii) : bool :=
  let n := N_of_ascii c in
  ((48 <=? n)%N && (n <=? 57)%N) || ((97 <=? n)%N && (n <=? 102)%N).

Definition lowerDigits : list ascii :=
  String.list_ascii_of_string "0123456789abcdef".

Fixpoint isLowerHexPairs (s : string) : bool :=
  match s with
  | EmptyString => true
  | String c1 (String c2 r) => isLowerDigit c1 && isLowerDigit c2 && isLowerHexPairs r
  | _ => false
  end.

End Hex.

(** ** Routing ([fetch]) *)

(** The handler a request is given to; the four routes whose handler is
    written inline in [fetch] have a constructor of their own. *)
Inductive Route :=
| RPreflight                (* 204 with the CORS headers *)
| RDebug
| REvents
| RAgentsGet
| RAgentsPost
| RMessage
| RVibeStatus
| RVibeRun
| RVibeStop
| RVibeTick
| RVibeLlmTest
| RVibeLogs
| RVibePositions
| RVibeBalances
| RVibeEquity               (* inline *)
| RVibeTrades               (* inline *)
| RVibeTradeStats           (* inline *)
| RVibeOpenTrades
| RVibePrices
| RAsterTest                (* inline *)
| RVibeTickers
| RAsterDebug               (* inline *)
| RAdmin (op : AdminOp)
| RInbox (agentId : string) (* inline *)
| RNotFound.                (* 404 'Not Found' *)

(** [s] without the prefix [p], when it starts with it. *)
Fixpoint stripPrefix (p s : string) : option string :=
  match p, s with
  | EmptyString, _ => Some s
  | String a p', String b s' => if Ascii.eqb a b then stripPrefix p' s' else None
  | String _ _, EmptyString => None
  end.

Definition stripSuffix (p s : string) : option string :=
  String.rev <$> stripPrefix (String.rev p) (String.rev s).

Fixpoint hasSlash (s : string) : bool :=
  match s with
  | String c r => Ascii.eqb c "/" || hasSlash r
  | EmptyString => false
  end.

(** [url.pathname.match(/^\/api\/agents\/([^/]+)\/inbox$/)]: the captured
    agent id. *)
Definition inboxMatch (pathname : string) : option string :=
  rest ← stripPrefix "/api/agents/" pathname;
  id ← stripSuffix "/inbox" rest;
  if negb (String.eqb id "") && negb (hasSlash id) then Some id else None.

(** The chain of [if (url.pathname === ... && req.method === ...) return ...]
    of [fetch], in source order. *)
Definition route (method pathname : string) : Route :=
  let on p := String.eqb pathname p in
  let GET := String.eqb method "GET" in
  let POST := String.eqb method "POST" in
  if String.eqb method "OPTIONS" then RPreflight
  else if on "/api/debug" then RDebug
  else if on "/api/events" || on "/api/feed" || on "/feed" then REvents
  else if on "/api/agents" && GET then RAgentsGet
  else if on "/api/agents" && POST then RAgentsPost
  else if on "/api/messages" && POST then RMessage
  else if on "/api/vibe/status" && GET then RVibeStatus
  else if on "/api/vibe/run" && POST then RVibeRun
  else if on "/api/vibe/stop" && POST then RVibeStop
  else if on "/api/vibe/tick" && POST then RVibeTick
  else if on "/api/vibe/llm-test" && GET then RVibeLlmTest
  else if on "/api/vibe/logs" && GET then RVibeLogs
  else if on "/api/vibe/positions" && GET then RVibePositions
  else if on "/api/vibe/balances" && GET then RVibeBalances
  else if on "/api/vibe/equity" && GET then RVibeEquity
  else if on "/api/vibe/anchor/scan-nearest" && POST then RAdmin ScanNearestAnchor
  else if on "/api/vibe/anchor/set" && POST then RAdmin SetAnchor
  else if on "/api/vibe/trades" && GET then RVibeTrades
  else if on "/api/vibe/trades/stats" && GET then RVibeTradeStats
  else if on "/api/vibe/backfill-trades" && POST then RAdmin BackfillTrades
  else if on "/api/vibe/open-trades" && GET then RVibeOpenTrades
  else if on "/api/vibe/prices" && GET then RVibePrices
  else if on "/api/vibe/aster-test" && GET then RAsterTest
  else if on "/api/vibe/old-open-trades" && GET then RAdmin OldOpenTrades
  else if on "/api/vibe/close-old-open-trades" && POST then RAdmin CloseOldOpenTrades
  else if on "/api/vibe/close-all-positions" && POST then RAdmin CloseAllPositions
  else if on "/api/vibe/trades/append-closed" && POST then RAdmin AppendClosedTrade
  else if on "/api/vibe/backfill-trades-income" && POST then RAdmin BackfillTradesIncome
  else if on "/api/vibe/tickers" && GET then RVibeTickers
  else if on "/api/vibe/aster-debug" && GET then RAsterDebug
  else match inboxMatch pathname with
       | Some agentId => if GET then RInbox agentId else RNotFound
       | None => RNotFound
       end.

(** The handlers that rewrite the stored equity series. *)
Definition rewritesEquity (op : AdminOp) : bool :=
  match op with
  | BackfillEquity | EraseEquity | RestoreEquityFromLogs | ReconstructEquity => true
  | _ => false
  end.

(** ** The equity endpoint ([GET /api/vibe/equity], inline in [fetch]) *)

(** [xs.sort((a, b) => a.at - b.at)]: the sort is stable, and a stable
    sort has one result; here by insertion, an entry going before the
    first later entry that is not earlier than it. *)
Fixpoint insertByAt (p : EquitySample) (l : list EquitySample) : list EquitySample :=
  match l with
  | [] => [p]
  | q :: l' => if (es_at p <=? es_at q)%Z then p :: l else q :: insertByAt p l'
  end.

Fixpoint sortByAt (l : list EquitySample) : list EquitySample :=
  match l with
  | [] => []
  | p :: l' => insertByAt p (sortByAt l')
  end.

(** [for (const p of union) if (!byAt.has(at)) byAt.set(at, p)] followed
    by [Array.from(byAt.values())]: the first entry of each [at], in the
    order of first occurrence. *)
Fixpoint firstByAt (seen : list Z) (l : list EquitySample) : list EquitySample :=
  match l with
  | [] => []
  | p :: l' =>
      if bool_decide (es_at p ∈ seen) then firstByAt seen l'
      else p :: firstByAt (es_at p :: seen) l'
  end.

Definition msPerDay : Z := 86400000.

(** The largest time value of a [Date]; [new Date(t)] beyond it is
    invalid and the loop over days does not run. *)
Definition maxTime : Z := 8640000000000000.

(** [Date.UTC(y, m, d)] of the UTC date of [ts] (for a date from 1970 on). *)
Definition dayStart (ts : Z) : Z := (ts / msPerDay * msPerDay)%Z.

(** The keys pushed by
    [for (let d = <midnight of the anchor day>; d <= end; d = new Date(d.getTime() + 86400000))]. *)
Definition shardKeys (anchorAt now : Z) : list string :=
  if (anchorAt <=? maxTime)%Z then
    (λ i, dayKey (dayStart anchorAt + i * msPerDay)%Z)
      <$> seqZ 0 ((now - dayStart anchorAt) / msPerDay + 1)
  else [].

(** [union]: the shards and the rolling buffer from the anchor on, with
    the anchor point appended when no entry carries its time. *)
Definition unionFromAnchor (anchorAt : Z) (anchorVal : float)
    (parts rolling : list EquitySample) : list EquitySample :=
  let union := List.filter (λ p, (anchorAt <=? es_at p)%Z) (parts ++ rolling) in
  if Js.gtb anchorVal 0 && negb (existsb (λ p, (es_at p =? anchorAt)%Z) union)
  then union ++ [{| es_at := anchorAt; es_equityUsd := anchorVal |}]
  else union.

Section EquityEndpoint.

Variable w : World.

(** The shards read one after the other, concatenated in key order
    (an empty shard adds nothing). *)
Definition readShards (keys : list string) : M (list EquitySample) :=
  foldM (λ acc k, arr ← kvGet w (K_equity_day k); mret (acc ++ arr)) [] keys.

Definition handleVibeEquity : M (list EquitySample) :=
  anchor ← kvGet w K_chart_anchor;
  let anchorAt := from_option es_at 0%Z anchor in
  let anchorVal := from_option (λ a, Js.or (es_equityUsd a) 0) 0%float anchor in
  rolling ← kvGet w K_equity;
  if (0 <? anchorAt)%Z then
    now ← dateNow w;
    parts ← readShards (shardKeys anchorAt now);
    mret (sortByAt (firstByAt [] (unionFromAnchor anchorAt anchorVal parts rolling)))
  else mret rolling.

End EquityEndpoint.

(** The UTC day number of a time. *)
Definition dayOf (ts : Z) : Z := (ts / msPerDay)%Z.

(** The times of a series are strictly increasing. *)
Fixpoint ascending (l : list EquitySample) : Prop :=
  match l with
  | [] => True
  | p :: l' => Forall (λ q, (es_at p < es_at q)%Z) l' ∧ ascending l'
  end.

(** ** The closed-trade ledger over a tick *)

Definition notLedger (k : Key) : bool :=
  match k with K_trades => false | _ => true end.

Definition anyEffect (_ : Effect) : bool := true.

(** The stored closed trades are [l0] followed by at most [n] appended
    trades, each append keeping the last 2000. *)
Definition grownBy (l0 : list ClosedTrade) (n : nat) (s : State) : Prop :=
  ∃ added, length added ≤ n ∧ kv_trades (st_kv s) = foldl (pushBounded 2000) l0 added.

(** [m] appends at most [n] closed trades, and touches the ledger in no
    other way, whether it returns or throws. *)
Definition appends {A} (n : nat) (m : M A) : Prop :=
  ∀ l0 k s, grownBy l0 k s → grownBy l0 (k + n) (m s).2.

(** One pass of the lifecycle loop on the local map [openMap]: when it
    returns a smaller map it has appended at most as many closed trades as
    entries went, and when it throws at most one, none if the map is
    empty. *)
Definition settles (openMap : gmap string OpenTrade) (m : M (gmap string OpenTrade)) : Prop :=
  ∀ l0 k s, grownBy l0 k s →
    match (m s).1 with
    | Ok openMap' => ∃ j, grownBy l0 (k + j) (m s).2 ∧ j + size openMap' ≤ size openMap
    | Throw _ => grownBy l0 (k + min 1 (size openMap)) (m s).2
    end.

(** Other keys than the closed trades and the open positions. *)
Definition notBooks (k : Key) : bool :=
  match k with K_trades | K_open_trades => false | _ => true end.

(** ** Agent registry ([/api/agents])

    The keys [/__agents.json] and [/__events.json] as the registry
    handlers use them.  A stored value is what [JSON.parse] makes of the
    text [JSON.stringify] wrote. *)

(** [Boolean(v)] for a JSON value or [undefined]. *)
Definition jTruthy (v : option Json) : bool :=
  match v with
  | None | Some JNull => false
  | Some (JBool b) => b
  | Some (JNum x) => Js.truthy x
  | Some (JStr s) => negb (String.eqb s "")
  | Some (JArr _) | Some (JObj _) => true
  end.

(** [v === text] *)
Definition jIsText (v : option Json) (text : string) : bool :=
  match v with Some (JStr s) => String.eqb s text | _ => false end.

(** [v || null] *)
Definition jOrNull (v : option Json) : Json :=
  if jTruthy v then default JNull v else JNull.

(** [JSON.parse(JSON.stringify(v))] for a parsed value [v]: a number that
    is not finite is written as [null], and negative zero as [0]. *)
Fixpoint jsonRoundTrip (j : Json) : Json :=
  match j with
  | JNum x => if Js.isFinite x then (if (x =? 0)%float then JNum 0 else JNum x) else JNull
  | JArr l => JArr (List.map jsonRoundTrip l)
  | JObj fields => JObj (List.map (λ p, let '(k, v) := p in (k, jsonRoundTrip v)) fields)
  | _ => j
  end.

(** [{ id: `agent_${stamp}`, owner, createdAt, webhookUrl, hmacSecret }] *)
Record Agent := {
  ag_stamp : Z;
  ag_owner : Json;
  ag_createdAt : Z;
  ag_webhookUrl : Json;
  ag_hmacSecret : Json
}.

(** An entry of [/__events.json]: one written by a tick, or
    [{ type: 'agent_created', at, owner, id: `agent_${stamp}` }]. *)
Inductive SiteEvent :=
| TickEvent (e : LogEntry)
| AgentCreated (ts : Z) (owner : Json) (stamp : Z).

Record Site := { site_agents : list Agent; site_events : list SiteEvent }.

Definition storedAgent (a : Agent) : Agent :=
  {| ag_stamp := ag_stamp a; ag_owner := jsonRoundTrip (ag_owner a);
     ag_createdAt := ag_createdAt a;
     ag_webhookUrl := jsonRoundTrip (ag_webhookUrl a);
     ag_hmacSecret := jsonRoundTrip (ag_hmacSecret a) |}.

Definition storedEvent (e : SiteEvent) : SiteEvent :=
  match e with
  | TickEvent e => TickEvent e
  | AgentCreated ts owner stamp => AgentCreated ts (jsonRoundTrip owner) stamp
  end.

Inductive AgentsReply :=
| WalletRequired              (* 400 { error: 'wallet_required' } *)
| AgentExists (a : Agent)     (* 409 { error: 'exists', agent } *)
| AgentCreatedReply (a : Agent).  (* 201 agent *)

(** A handler over the registry: the site and the number of effects
    performed so far go in and come out. *)
Definition RM (A : Type) : Type := Site * nat → Result A * (Site * nat).

Definition rret {A} (a : A) : RM A := λ sn, (Ok a, sn).

Definition rthrow {A} (e : string) : RM A := λ sn, (Throw e, sn).

Definition rbind {A B} (m : RM A) (k : A → RM B) : RM B := λ sn,
  match m sn with
  | (Ok a, sn') => k a sn'
  | (Throw e, sn') => (Throw e, sn')
  end.

Section Registry.

Variable w : World.

(** [String.prototype.toLowerCase] *)
Variable toLowerCase : string → string.

Local Notation "x ⇐ m ; k" := (rbind m (λ x, k))
  (at level 100, m at next level, right associativity, only parsing).

(** [Date.now()] *)
Definition rNow : RM Z := λ sn, (Ok (w_now w sn.2), (sn.1, S sn.2)).

(** [(await env.MEAP_KV.get(key, { type: 'json' })) || []] *)
Definition rGet {A} (read : Site → A) : RM A := λ sn,
  if w_kvFails w sn.2 then (Throw "KV get failed", (sn.1, S sn.2))
  else (Ok (read sn.1), (sn.1, S sn.2)).

(** [await env.MEAP_KV.put(key, JSON.stringify(value))] *)
Definition rPut (write : Site → Site) : RM unit := λ sn,
  if w_kvFails w sn.2 then (Throw "KV put failed", (sn.1, S sn.2))
  else (Ok tt, (write sn.1, S sn.2)).

Definition putAgents (l : list Agent) : RM unit :=
  rPut (λ s, {| site_agents := storedAgent <$> l; site_events := site_events s |}).

Definition putEvents (l : list SiteEvent) : RM unit :=
  rPut (λ s, {| site_agents := site_agents s; site_events := storedEvent <$> l |}).

(** [v?.toLowerCase?.()]: [undefined] on [undefined], [null] and
    whatever has no [toLowerCase] or a [null] one; the lower-cased text
    on a string; a TypeError on an object whose own [toLowerCase] is
    anything else. *)
Definition lowerOf (v : option Json) : Result (option string) :=
  match v with
  | Some (JStr s) => Ok (Some (toLowerCase s))
  | Some (JObj fields) =>
      match jget (JObj fields) "toLowerCase" with
      | None | Some JNull => Ok None
      | Some _ => Throw "TypeError: toLowerCase is not a function"
      end
  | _ => Ok None
  end.

(** [list.find((a) => a?.owner?.toLowerCase?.() === owner?.toLowerCase?.())] *)
Fixpoint findByOwner (list : list Agent) (owner : option Json) : Result (option Agent) :=
  match list with
  | [] => Ok None
  | a :: rest =>
      match lowerOf (Some (ag_owner a)) with
      | Throw e => Throw e
      | Ok l =>
          match lowerOf owner with
          | Throw e => Throw e
          | Ok r => if decide (l = r) then Ok (Some a) else findByOwner rest owner
          end
      end
  end.

(** [POST /api/agents]; [body] is what [req.json().catch(() => ({}))]
    gives. *)
Definition handleAgentsPost (body : Json) : RM AgentsReply :=
  let owner := jget body "owner" in
  if negb (jTruthy owner) || jIsText owner "0x0000"
  then rret WalletRequired
  else
    list ⇐ rGet site_agents;
    match findByOwner list owner with
    | Throw e => rthrow e
    | Ok (Some existing) => rret (AgentExists existing)
    | Ok None =>
        stamp ⇐ rNow;
        createdAt ⇐ rNow;
        let agent := {| ag_stamp := stamp; ag_owner := default JNull owner;
                        ag_createdAt := createdAt;
                        ag_webhookUrl := jOrNull (jget body "webhookUrl");
                        ag_hmacSecret := jOrNull (jget body "hmacSecret") |} in
        _ ⇐ putAgents (list ++ [agent]);
        events ⇐ rGet site_events;
        ts ⇐ rNow;
        _ ⇐ putEvents (events ++ [AgentCreated ts (default JNull owner) stamp]);
        rret (AgentCreatedReply agent)
    end.

(** [GET /api/agents]: [data.slice(-100).reverse()] *)
Definition handleAgentsGet : RM (list Agent) :=
  data ⇐ rGet site_agents;
  rret (rev (lastN 100 data)).

(** The wallet an agent is registered under, as [handleAgentsPost]
    compares it. *)
Definition walletKey (a : Agent) : Result (option string) :=
  lowerOf (Some (ag_owner a)).

End Registry.

(** [toLowerCase] on the letters A to Z. *)
Definition asciiLower (s : string) : string :=
  String.string_of_list_ascii
    (List.map (λ c, let n := Ascii.nat_of_ascii c in
                    if (65 <=? n)%nat && (n <=? 90)%nat then Ascii.ascii_of_nat (n + 32) else c)
              (String.list_ascii_of_string s)).

Definition oneAgent : Site :=
  {| site_agents := [{| ag_stamp := 5; ag_owner := JStr "0xAbC"; ag_createdAt := 6;
                        ag_webhookUrl := JNull; ag_hmacSecret := JNull |}];
     site_events := [AgentCreated 7 (JStr "0xAbC") 5] |}.

(** ** The outcome of a tick *)




(** [m] returns normally from every state. *)
Definition returns {A} (m : M A) : Prop := ∀ s, ∃ a s', m s = (Ok a, s').

(** ** Day keys *)

(** What [civilFromDays] makes of the day of the 400-year era: the year
    of the era (counted from March), the month and the day. *)
Definition civilOfEraDay (doe : Z) : Z * Z * Z :=
  let yoe := ((doe - doe / 1460 + doe / 36524 - doe / 146096) / 365)%Z in
  let doy := (doe - (365 * yoe + yoe / 4 - yoe / 100))%Z in
  let mp := ((5 * doy + 2) / 153)%Z in
  let d := (doy - (153 * mp + 2) / 5 + 1)%Z in
  let m := (if mp <? 10 then mp + 3 else mp - 9)%Z in
  (yoe, m, d).

(** The way back: the day of the era of a year of the era, a month and
    a day. *)
Definition eraDayOfCivil (c : Z * Z * Z) : Z :=
  let '(yoe, m, d) := c in
  let mp := (if m <=? 2 then m + 9 else m - 3)%Z in
  let doy := ((153 * mp + 2) / 5 + d - 1)%Z in
  (yoe * 365 + yoe / 4 - yoe / 100 + doy)%Z.

Definition eraDayChecked (doe : Z) : bool :=
  let '(yoe, m, d) := civilOfEraDay doe in
  (eraDayOfCivil (yoe, m, d) =? doe)%Z
  && (0 <=? yoe)%Z && (yoe <=? 399)%Z
  && (1 <=? m)%Z && (m <=? 12)%Z && (1 <=? d)%Z && (d <=? 31)%Z.

(** [pad2] gives two characters, different ones for different numbers. *)
Definition pad2Checked (a : Z) : bool :=
  (String.length (pad2 a) =? 2)%nat
  && forallb (λ b, implb (String.eqb (pad2 a) (pad2 b)) (a =? b)%Z) (seqZ 1 31).


(** [f] holds at the [n] integers from [z] on. *)
Fixpoint allFrom (f : Z → bool) (n : nat) (z : Z) : bool :=
  match n with
  | O => true
  | S n' => f z && allFrom f n' (z + 1)
  end.

(** ** Runs of the order path *)





(** ** Narrator scenarios *)


(** [Sample.world] five minutes and more after the last status, with an
    exchange that rejects every quote.  The store holds the open position
    of [Sample.store] and a last status of time 0 with the hash and the
    equity that the narrator would find again. *)
Module Stale.
Definition world : World :=
  {| w_now := λ n, (1000000 + Z.of_nat n)%Z;
     w_kvFails := w_kvFails Sample.world;
     w_account := w_account Sample.world;
     w_tickerPrice := λ _ _, Throw "HTTP 429";
     w_stats24 := w_stats24 Sample.world;
     w_klines := w_klines Sample.world;
     w_exchangeInfo := w_exchangeInfo Sample.world;
     w_positionRisk := w_positionRisk Sample.world;
     w_order := w_order Sample.world;
     w_llm := w_llm Sample.world;
     w_summary := w_summary Sample.world;
     w_noveltyHash := w_noveltyHash Sample.world;
     w_objectKeys := w_objectKeys Sample.world |}.

Definition store : Store :=
  kvWrite K_last_status
    (Some {| ls_at := 0; ls_equityUsd := 1000; ls_hashes := ["h0"] |}) Sample.store.

Definition state : State :=
  {| st_kv := store; st_step := 0; st_trace := []; st_rt := emptyRuntime |}.
End Stale.

(** ** Fills of a close *)






(** * Verification *)

(** ** Reasoning about the effect monad *)

Section MonadLaws.

Context {A B : Type}.

Lemma run_bind (m : M A) (k : A → M B) (s : State) :
  (m ≫= k) s = match m s with
               | (Ok a, s') => k a s'
               | (Throw e, s') => (Throw e, s')
               end.
Proof. reflexivity. Qed.

Lemma run_bind_ok (m : M A) (k : A → M B) (s s' : State) (a : A) :
  m s = (Ok a, s') → (m ≫= k) s = k a s'.
Proof. intros H. rewrite run_bind, H. reflexivity. Qed.

End MonadLaws.

Lemma kvRead_kvWrite_eq (k : Key) (v : valT k) (kv : Store) :
  kvRead k (kvWrite k v kv) = v.
Proof.
  revert v. destruct k; intros v; try reflexivity.
  simpl. rewrite lookup_insert_eq. reflexivity.
Qed.

Lemma kvRead_kvWrite_ne (k k' : Key) (v : valT k') (kv : Store) :
  k ≠ k' → kvRead k (kvWrite k' v kv) = kvRead k kv.
Proof.
  revert v. destruct k'; intros v Hne; destruct k; try reflexivity; try congruence.
  simpl. rewrite lookup_insert_ne; [reflexivity | congruence].
Qed.

(** *** Footprints *)

Lemma footprint_refl W entries s : footprint W entries s s.
Proof.
  split; [reflexivity |]. exists []. rewrite app_nil_r. split; reflexivity.
Qed.

Lemma footprint_trans W entries s1 s2 s3 :
  footprint W entries s1 s2 → footprint W entries s2 s3 → footprint W entries s1 s3.
Proof.
  intros [K1 (t1 & E1 & F1)] [K2 (t2 & E2 & F2)]. split.
  - intros k Hk. rewrite (K2 k Hk). apply K1, Hk.
  - exists (t1 ++ t2). rewrite E2, E1, <- app_assoc. split; [reflexivity |].
    rewrite forallb_app, F1, F2. reflexivity.
Qed.

Lemma footprint_step W entries s :
  footprint W entries s (stepped (st_kv s) (st_trace s) s).
Proof.
  split; [reflexivity |]. exists []. simpl. rewrite app_nil_r. split; reflexivity.
Qed.

Section Within.

Variable w : World.
Variable W : Key → bool.
Variable entries : bool.

Lemma within_ret {A} (a : A) : within W entries (mret a).
Proof. intros s. apply footprint_refl. Qed.

Lemma within_throw {A} (e : string) : within W entries (@throw A e).
Proof. intros s. apply footprint_refl. Qed.

Lemma within_bind {A B} (m : M A) (k : A → M B) :
  within W entries m → (∀ a, within W entries (k a)) → within W entries (m ≫= k).
Proof.
  intros Hm Hk s. rewrite run_bind. specialize (Hm s).
  destruct (m s) as [[a | e] s1]; simpl in *; [| exact Hm].
  eapply footprint_trans; [exact Hm | apply Hk].
Qed.

Lemma within_tryCatch {A} (m : M A) (h : string → M A) :
  within W entries m → (∀ e, within W entries (h e)) → within W entries (tryCatch m h).
Proof.
  intros Hm Hh s. unfold tryCatch. specialize (Hm s).
  destruct (m s) as [[a | e] s1]; simpl in *; [exact Hm |].
  eapply footprint_trans; [exact Hm | apply Hh].
Qed.

Lemma within_tryIgnore (m : M unit) :
  within W entries m → within W entries (tryIgnore m).
Proof. intros Hm. apply within_tryCatch; [exact Hm |]. intros e. apply within_ret. Qed.

Lemma within_tryFinally {A} (m : M A) (fin : M unit) :
  within W entries m → within W entries fin → within W entries (tryFinally m fin).
Proof.
  intros Hm Hf s. unfold tryFinally. specialize (Hm s).
  destruct (m s) as [r s1]. specialize (Hf s1).
  destruct (fin s1) as [[u | e] s2]; simpl in *; eapply footprint_trans; eassumption.
Qed.

Lemma within_forM_ {A} (l : list A) (f : A → M unit) :
  (∀ x, within W entries (f x)) → within W entries (forM_ l f).
Proof.
  intros Hf. induction l as [| x l IH]; simpl.
  - apply within_ret.
  - apply within_bind; [apply Hf | intros _; exact IH].
Qed.

Lemma within_foldM {A B} (f : B → A → M B) (l : list A) (b : B) :
  (∀ b x, within W entries (f b x)) → within W entries (foldM f b l).
Proof.
  intros Hf. revert b. induction l as [| x l IH]; intros b; simpl.
  - apply within_ret.
  - apply within_bind; [apply Hf | intros b'; apply IH].
Qed.

Lemma within_dateNow : within W entries (dateNow w).
Proof. intros s. apply footprint_step. Qed.

Lemma within_getRt : within W entries getRt.
Proof. intros s. apply footprint_refl. Qed.

Lemma within_setRt rt : within W entries (setRt rt).
Proof.
  intros s. split; [reflexivity |]. exists []. simpl. rewrite app_nil_r.
  split; reflexivity.
Qed.

Lemma within_kvGet k : within W entries (kvGet w k).
Proof.
  intros s. unfold kvGet. destruct (w_kvFails w (st_step s)); apply footprint_step.
Qed.

Lemma within_kvPut k v : W k = true → within W entries (kvPut w k v).
Proof.
  intros HW s. unfold kvPut. destruct (w_kvFails w (st_step s)); [apply footprint_step |].
  split; simpl.
  - intros k' Hk'. apply kvRead_kvWrite_ne. intros ->. congruence.
  - exists []. rewrite app_nil_r. split; reflexivity.
Qed.

Lemma within_perform {A} (e : Effect) (reply : nat → Result A) :
  allowed entries e = true → within W entries (perform e reply).
Proof.
  intros He s. split; [reflexivity |]. exists [e]. simpl. rewrite He.
  split; reflexivity.
Qed.

Lemma within_renderSummary : within W entries (renderSummary w).
Proof. intros s. apply footprint_step. Qed.

Lemma within_objectKeys {A} (map : gmap string A) : within W entries (objectKeys w map).
Proof. intros s. apply footprint_refl. Qed.

Lemma within_objectEntries {A} (map : gmap string A) :
  within W entries (objectEntries w map).
Proof.
  unfold objectEntries. apply within_bind; [apply within_objectKeys |].
  intros keys. apply within_ret.
Qed.

Lemma within_noveltyHashOf : within W entries (noveltyHashOf w).
Proof. intros s. apply footprint_step. Qed.

End Within.

Create HintDb within.

#[export] Hint Resolve within_ret within_throw within_dateNow within_getRt within_setRt
  within_kvGet within_renderSummary within_noveltyHashOf within_objectKeys
  within_objectEntries : within.

(** One structural step of a footprint proof. *)
Ltac within_step :=
  lazymatch goal with
  | |- within _ _ (mret _) => apply within_ret
  | |- within _ _ (throw _) => apply within_throw
  | |- within _ _ (mbind _ _) => apply within_bind; [| intros ?; cbv beta]
  | |- within _ _ (tryIgnore _) => apply within_tryIgnore
  | |- within _ _ (tryCatch _ _) => apply within_tryCatch; [| intros ?; cbv beta]
  | |- within _ _ (tryFinally _ _) => apply within_tryFinally
  | |- within _ _ (forM_ _ _) => apply within_forM_; intros ?; cbv beta
  | |- within _ _ (foldM _ _ _) => apply within_foldM; intros ? ?; cbv beta
  | |- within _ _ (kvGet ?w ?k) => exact (within_kvGet w _ _ k)
  | |- within _ _ (dateNow _) => apply within_dateNow
  | |- within _ _ (kvPut ?w ?k ?v) =>
      refine (within_kvPut w _ _ k v _); first [assumption | reflexivity]
  | |- within _ _ (perform _ _) =>
      apply within_perform; first [reflexivity | apply orb_true_r | assumption]
  | |- within _ _ (sleep _) => apply within_perform; reflexivity
  | |- within _ _ (match ?x with _ => _ end) => destruct x
  | |- within _ _ (let _ := _ in _) => cbv zeta
  end.

Ltac within_auto :=
  repeat first [ solve [eauto with within] | within_step ].

(** *** Footprints of the engine's operations *)

Section Footprints.

Variable w : World.
Variable W : Key → bool.
Variable entries : bool.

Lemma appendLog_within entry : W K_logs = true → within W entries (appendLog w entry).
Proof. intros HW. unfold appendLog. within_auto. Qed.

Lemma getOpenTrades_within : within W entries (getOpenTrades w).
Proof. unfold getOpenTrades. within_auto. Qed.

Lemma setOpenTrades_within map :
  W K_open_trades = true → within W entries (setOpenTrades w map).
Proof. intros HW. unfold setOpenTrades. within_auto. Qed.

Lemma appendClosedTrade_within trade :
  W K_trades = true → within W entries (appendClosedTrade w trade).
Proof. intros HW. unfold appendClosedTrade. within_auto. Qed.

Lemma asterFapiGetAccount_within env : within W entries (asterFapiGetAccount w env).
Proof. unfold asterFapiGetAccount. within_auto. Qed.

Lemma tickerPrice_within env sym : within W entries (tickerPrice w env sym).
Proof. unfold tickerPrice. within_auto. Qed.

Lemma stats24hr_within env : within W entries (stats24hr w env).
Proof. unfold stats24hr. within_auto. Qed.

Lemma fetchKlines_within env sym : within W entries (fetchKlines w env sym).
Proof. unfold fetchKlines. within_auto. Qed.

Lemma getExchangeInfo_within env : within W entries (getExchangeInfo w env).
Proof. unfold getExchangeInfo. within_auto. Qed.

Lemma livePosition_within env sym : within W entries (livePosition w env sym).
Proof. unfold livePosition, fetchPos. within_auto. Qed.

Lemma asterFapiSignedPost_within env params :
  allowed entries (EOrder params) = true →
  within W entries (asterFapiSignedPost w env params).
Proof. intros He. unfold asterFapiSignedPost. within_auto. Qed.

Hint Resolve appendLog_within getOpenTrades_within setOpenTrades_within
  appendClosedTrade_within asterFapiGetAccount_within tickerPrice_within
  stats24hr_within fetchKlines_within getExchangeInfo_within livePosition_within
  asterFapiSignedPost_within orb_true_r : within.

Lemma closeLoop_within env sym price reason stepSz fuel acc :
  W K_logs = true →
  within W entries (closeLoop w env sym price reason stepSz fuel acc).
Proof.
  intros HW. revert acc. induction fuel as [| fuel IH]; intros acc; simpl.
  - within_auto.
  - within_auto; apply IH.
Qed.

Lemma preloadStep_within env sym : within W entries (preloadStep w env sym).
Proof. unfold preloadStep. within_auto. Qed.

Lemma finalCheck_within env sym : within W entries (finalCheck w env sym).
Proof. unfold finalCheck. within_auto. Qed.

Lemma settleClose_within sym t now acc finalAmt openMap :
  W K_trades = true → W K_open_trades = true →
  within W entries (settleClose w sym t now acc finalAmt openMap).
Proof. intros H1 H2. unfold settleClose. within_auto. Qed.

Hint Resolve closeLoop_within preloadStep_within finalCheck_within
  settleClose_within : within.

Lemma closeToFlat_within env sym t now price reason openMap :
  W K_logs = true → W K_trades = true → W K_open_trades = true →
  within W entries (closeToFlat w env sym t now price reason openMap).
Proof. intros H1 H2 H3. unfold closeToFlat. within_auto. Qed.

Hint Resolve closeToFlat_within : within.

Lemma enforceExit_within env cfg openMap sym :
  W K_logs = true → W K_trades = true → W K_open_trades = true →
  within W entries (enforceExit w env cfg openMap sym).
Proof. intros H1 H2 H3. unfold enforceExit. within_auto. Qed.

Hint Resolve enforceExit_within : within.

Lemma enforceExits_within env cfg :
  W K_logs = true → W K_trades = true → W K_open_trades = true →
  within W entries (enforceExits w env cfg).
Proof. intros H1 H2 H3. unfold enforceExits. within_auto. Qed.

Lemma callLLMDecider_within env cfg : within W entries (callLLMDecider w env cfg).
Proof. unfold callLLMDecider. within_auto. Qed.

Hint Resolve callLLMDecider_within : within.

Lemma consultOracle_within env cfg :
  W K_logs = true → within W entries (consultOracle w env cfg).
Proof. intros H1. unfold consultOracle. within_auto. Qed.

Lemma emitStatus_within events nowTs eq summary h hashes :
  W K_logs = true → W K_events = true → W K_last_status = true →
  within W entries (emitStatus w events nowTs eq summary h hashes).
Proof. intros H1 H2 H3. unfold emitStatus. within_auto. Qed.

Hint Resolve emitStatus_within : within.

Lemma rateLimitedStatus_within events eq summary :
  W K_logs = true → W K_events = true → W K_last_status = true →
  within W entries (rateLimitedStatus w events eq summary).
Proof. intros H1 H2 H3. unfold rateLimitedStatus. within_auto. Qed.

Hint Resolve rateLimitedStatus_within : within.

Lemma narrateFlat_within env events equityUsd :
  W K_logs = true → W K_events = true → W K_last_status = true →
  within W entries (narrateFlat w env events equityUsd).
Proof. intros H1 H2 H3. unfold narrateFlat. within_auto. Qed.

Lemma trackFill_within sym a qty price now meta :
  W K_trades = true → W K_open_trades = true →
  within W entries (trackFill w sym a qty price now meta).
Proof. intros H1 H2. unfold trackFill. within_auto. Qed.

Lemma orderQuantity_within env sym notional price :
  within W entries (orderQuantity w env sym notional price).
Proof. unfold orderQuantity. within_auto. Qed.

Hint Resolve trackFill_within orderQuantity_within : within.

Lemma executeOrder_within env a sym size meta :
  W K_logs = true → W K_trades = true → W K_open_trades = true →
  isEntry a && Js.truthyS (ASTER_API_SECRET env) = true → entries = true →
  within W entries (executeOrder w env a sym size meta).
Proof.
  intros H1 H2 H3 Ha He. unfold executeOrder. rewrite Ha.
  assert (Hall : ∀ p, allowed entries (EOrder p) = true)
    by (intros p; rewrite He; reflexivity).
  within_auto.
Qed.

Lemma executeOrder_flat_within env a sym size meta :
  W K_logs = true →
  isEntry a && Js.truthyS (ASTER_API_SECRET env) = false →
  within W entries (executeOrder w env a sym size meta).
Proof. intros H1 Ha. unfold executeOrder. rewrite Ha. within_auto. Qed.

Lemma accountSnapshot_within env : within W entries (accountSnapshot w env).
Proof. unfold accountSnapshot. within_auto. Qed.

Hint Resolve accountSnapshot_within : within.

Lemma tickPrelude_within env ignoreStatus :
  within W entries (tickPrelude w env ignoreStatus).
Proof. unfold tickPrelude. within_auto. Qed.

Lemma storeInitialEquity_within equityUsd :
  W K_initial_equity = true → within W entries (storeInitialEquity w equityUsd).
Proof. intros H1. unfold storeInitialEquity. within_auto. Qed.

Lemma marketSnapshot_within env cfg : within W entries (marketSnapshot w env cfg).
Proof. unfold marketSnapshot. within_auto. Qed.

Lemma logDecision_within events a sym size :
  W K_logs = true → W K_events = true →
  within W entries (logDecision w events a sym size).
Proof. intros H1 H2. unfold logDecision. within_auto. Qed.

Lemma tickFailed_within err :
  W K_logs = true → W K_runtime = true → within W entries (tickFailed w err).
Proof. intros H1 H2. unfold tickFailed. within_auto. Qed.

Lemma sampleEquity_within sampledEquity :
  W K_equity = true → (∀ dk, W (K_equity_day dk) = true) →
  within W entries (sampleEquity w sampledEquity).
Proof. intros H1 H2. unfold sampleEquity. within_auto.
  refine (within_kvPut w _ _ (K_equity_day _) _ _). apply H2.
Qed.

End Footprints.

(** ** Stop-loss precedence *)

Lemma exitDecision_stopLoss cfg t now price :
  stopLossBreached t price = true → exitDecision cfg t now price = Some StopLossHit.
Proof. intros H. unfold exitDecision. rewrite H. reflexivity. Qed.

(** C1.  For an open position whose price was read and is usable, a
    stop-loss breach (LONG: price <= stop; SHORT: price >= stop) makes
    the exit decision "Stop-loss hit" and the loop iteration run the
    close path for that symbol, whatever the minimum hold, the
    take-profit level and the configuration: the stop-loss check comes
    first. *)
Theorem stop_loss_precedence (w : World) (env : Env) (cfg : VibeConfig)
    (openMap : gmap string OpenTrade) (sym : string) (t : OpenTrade) (sl : float)
    (s s1 s2 : State) (now : Z) (price : float) :
  openMap !! sym = Some t →
  dateNow w s = (Ok now, s1) →
  tickerPrice w env sym s1 = (Ok price, s2) →
  priceUsable price = true →
  ot_stopLoss t = Some sl →
  (ot_side t = LONG ∧ (price <=? sl)%float = true)
  ∨ (ot_side t = SHORT ∧ (sl <=? price)%float = true) →
  exitDecision cfg t now price = Some StopLossHit
  ∧ enforceExit w env cfg openMap sym s
    = closeToFlat w env sym t now price StopLossHit openMap s2.
Proof.
  intros Ht Hnow Hprice Husable Hsl Hbreach.
  assert (Hb : stopLossBreached t price = true).
  { unfold stopLossBreached. rewrite Hsl.
    destruct Hbreach as [[-> H] | [-> H]]; exact H. }
  split; [apply exitDecision_stopLoss, Hb |].
  unfold enforceExit. rewrite Ht.
  rewrite (run_bind_ok _ _ _ _ _ Hnow). rewrite (run_bind_ok _ _ _ _ _ Hprice).
  rewrite Husable. simpl. rewrite (exitDecision_stopLoss _ _ _ _ Hb). reflexivity.
Qed.

Lemma stop_loss_precedence_witness :
  let w := Sample.world in
  let openMap := kv_open_trades Sample.store in
  let s1 := (dateNow w Sample.state).2 in
  let s2 := (tickerPrice w Sample.env "BTCUSDT" s1).2 in
  openMap !! "BTCUSDT" = Some Sample.longBtc
  ∧ dateNow w Sample.state = (Ok 1000%Z, s1)
  ∧ tickerPrice w Sample.env "BTCUSDT" s1 = (Ok 94%float, s2)
  ∧ priceUsable 94 = true
  ∧ ot_stopLoss Sample.longBtc = Some 95%float
  ∧ (ot_side Sample.longBtc = LONG ∧ (94 <=? 95)%float = true)
  ∧ minHoldOk Sample.longBtc 1000 = false
  ∧ takeProfitBreached Sample.longBtc 94 = true
  ∧ exitDecision DEFAULT_VIBE_CONFIG Sample.longBtc 1000 94 = Some StopLossHit
  ∧ enforceExit w Sample.env DEFAULT_VIBE_CONFIG openMap "BTCUSDT" Sample.state
    = closeToFlat w Sample.env "BTCUSDT" Sample.longBtc 1000 94 StopLossHit openMap s2.
Proof.
  intros w openMap s1 s2.
  assert (H1 : openMap !! "BTCUSDT" = Some Sample.longBtc) by reflexivity.
  assert (H2 : dateNow w Sample.state = (Ok 1000%Z, s1)) by reflexivity.
  assert (H3 : tickerPrice w Sample.env "BTCUSDT" s1 = (Ok 94%float, s2)) by reflexivity.
  assert (H4 : priceUsable 94 = true) by reflexivity.
  assert (H5 : ot_stopLoss Sample.longBtc = Some 95%float) by reflexivity.
  assert (H6 : ot_side Sample.longBtc = LONG ∧ (94 <=? 95)%float = true)
    by (split; reflexivity).
  split; [exact H1 |]. split; [exact H2 |]. split; [exact H3 |]. split; [exact H4 |].
  split; [exact H5 |]. split; [exact H6 |]. split; [reflexivity |]. split; [reflexivity |].
  exact (stop_loss_precedence w Sample.env DEFAULT_VIBE_CONFIG openMap "BTCUSDT"
           Sample.longBtc 95 Sample.state s1 s2 1000 94 H1 H2 H3 H4 H5 (or_introl H6)).
Defined.

(** ** Size clamp *)

Lemma Math_max_zero_l (x : float) :
  (0 <? x)%float = true ∨ x = 0%float → Js.Math_max 0 x = x.
Proof.
  intros [H | ->]; [| reflexivity]. unfold Js.Math_max. rewrite H. reflexivity.
Qed.

(** C5, as the specification words it, fails: with a negative equity the
    code clamps the target to 0 where the formula keeps it negative. *)
Lemma size_formula_counterexample :
  sizeUsd DEFAULT_VIBE_CONFIG (-20) 0 ≠ sizeUsd_spec 1500 (-20) 0.5.
Proof. vm_compute. intros H. discriminate H. Qed.

(** C5, amended.  The order size is
    min(perTradeCap, max(0, floor(equity * 0.5))), where equity is
    [equityUsd], or [availableBalance] when [equityUsd] is 0 or NaN; it is
    the specification's min(perTradeCap, floor(equity * 0.5)) whenever
    that floor is +0 or positive; and equity 1000 with cap 1500 gives 500. *)
Theorem size_clamp (cfg : VibeConfig) (equityUsd availableBalance : float) :
  let equity := Js.or equityUsd availableBalance in
  let target := Js.Math_floor (equity * 0.5)%float in
  sizeUsd cfg equityUsd availableBalance
  = Js.Math_min (maxRiskPerTradeUsd cfg) (Js.Math_max 0 target)
  ∧ ((0 <? target)%float = true ∨ target = 0%float →
     sizeUsd cfg equityUsd availableBalance
     = sizeUsd_spec (maxRiskPerTradeUsd cfg) equity 0.5)
  ∧ sizeUsd DEFAULT_VIBE_CONFIG 1000 0 = 500%float.
Proof.
  intros equity target. split; [reflexivity |]. split; [| reflexivity].
  intros H. unfold sizeUsd, sizeUsd_spec, targetRisk. fold equity. fold target.
  rewrite (Math_max_zero_l _ H). reflexivity.
Qed.

Lemma size_clamp_witness :
  let equity := Js.or 1000 0 in
  let target := Js.Math_floor (equity * 0.5)%float in
  ((0 <? target)%float = true ∨ target = 0%float)
  ∧ sizeUsd DEFAULT_VIBE_CONFIG 1000 0 = Js.Math_min 1500 (Js.Math_max 0 target)
  ∧ sizeUsd DEFAULT_VIBE_CONFIG 1000 0 = sizeUsd_spec 1500 equity 0.5
  ∧ sizeUsd DEFAULT_VIBE_CONFIG 1000 0 = 500%float.
Proof.
  intros equity target.
  assert (H : (0 <? target)%float = true ∨ target = 0%float) by (left; reflexivity).
  destruct (size_clamp DEFAULT_VIBE_CONFIG 1000 0) as (A & B & C).
  split; [exact H |]. split; [exact A |]. split; [exact (B H) | exact C].
Defined.

(** ** Quantization *)

(** In exact arithmetic the formula is idempotent. *)
Lemma quantize_exact_idempotent (q s : Q) :
  (0 < s)%Q → (quantize_exact (quantize_exact q s) s == quantize_exact q s)%Q.
Proof.
  intros Hs. unfold quantize_exact.
  set (n := Z.max 1 (Qfloor (q / s))).
  assert (Hn : (inject_Z n * s / s == inject_Z n)%Q).
  { apply Qdiv_mult_l. intros H. rewrite H in Hs. apply (Qlt_irrefl 0), Hs. }
  rewrite (Qfloor_comp _ _ Hn), Qfloor_Z.
  replace (Z.max 1 n) with n by (unfold n; lia). reflexivity.
Qed.

(** C7.  The code's quantization evaluated at a position of 0.59 with a
    lot step of 0.01: the quotient [0.59 / 0.01] is 58.999999999999993,
    so the quantity is 0.58, and quantizing 0.58 again gives
    0.5700000000000001: not idempotent, and not a decimal multiple of
    the step. *)
Theorem quantize_not_idempotent :
  (0.59 / 0.01 = 58.999999999999993)%float
  ∧ quantize 0.59 0.01 = 0.58%float
  ∧ quantize (quantize 0.59 0.01) 0.01 = 0.5700000000000001%float
  ∧ quantize (quantize 0.59 0.01) 0.01 ≠ quantize 0.59 0.01.
Proof.
  repeat split; try (vm_compute; reflexivity).
  vm_compute. intros H. discriminate H.
Qed.

(** ** Bounded closed-trade history *)

Lemma pushBounded_drop {A} (cap : nat) (l : list A) (x : A) :
  pushBounded cap l x = drop (length (l ++ [x]) - cap) (l ++ [x]).
Proof.
  unfold pushBounded. case_decide; [reflexivity |].
  replace (length (l ++ [x]) - cap) with 0 by lia. reflexivity.
Qed.

Lemma pushBounded_window {A} (cap : nat) (l : list A) (x : A) :
  pushBounded cap (drop (length l - cap) l) x
  = drop (length (l ++ [x]) - cap) (l ++ [x]).
Proof.
  rewrite pushBounded_drop.
  rewrite <- (drop_app_le l [x] (length l - cap)) by lia.
  rewrite drop_drop. f_equal.
  rewrite length_drop, !length_app. simpl. lia.
Qed.

Lemma foldl_pushBounded_window {A} (cap : nat) (ts l : list A) :
  foldl (pushBounded cap) (drop (length l - cap) l) ts
  = drop (length (l ++ ts) - cap) (l ++ ts).
Proof.
  revert l. induction ts as [| x ts IH]; intros l; simpl.
  - rewrite app_nil_r. reflexivity.
  - rewrite pushBounded_window, IH, <- app_assoc. reflexivity.
Qed.

Lemma foldl_pushBounded {A} (cap : nat) (ts l : list A) :
  ts ≠ [] →
  foldl (pushBounded cap) l ts = drop (length (l ++ ts) - cap) (l ++ ts).
Proof.
  destruct ts as [| x ts]; [congruence |]. intros _. simpl.
  rewrite pushBounded_drop, foldl_pushBounded_window, <- app_assoc. reflexivity.
Qed.

Lemma appendClosedTrade_run (w : World) (trade : ClosedTrade) (s : State) :
  kvReliable w →
  ∃ s', appendClosedTrade w trade s = (Ok tt, s')
        ∧ st_kv s' = kvWrite K_trades (pushBounded 2000 (kv_trades (st_kv s)) trade) (st_kv s).
Proof.
  intros Hkv. unfold appendClosedTrade. rewrite run_bind. unfold kvGet at 1.
  rewrite Hkv. unfold kvPut. simpl. rewrite Hkv. eexists. split; reflexivity.
Qed.

Lemma appendClosedTrades_run (w : World) (ts : list ClosedTrade) (s : State) :
  kvReliable w →
  ∃ s', forM_ ts (appendClosedTrade w) s = (Ok tt, s')
        ∧ kv_trades (st_kv s') = foldl (pushBounded 2000) (kv_trades (st_kv s)) ts.
Proof.
  intros Hkv. revert s. induction ts as [| t ts IH]; intros s; simpl.
  - exists s. split; reflexivity.
  - destruct (appendClosedTrade_run w t s Hkv) as (s1 & E1 & K1).
    destruct (IH s1) as (s2 & E2 & K2).
    exists s2. rewrite run_bind, E1. split; [exact E2 |].
    rewrite K2, K1. reflexivity.
Qed.

(** C8.  After any non-empty sequence of [appendClosedTrade] the stored
    list is the last 2000 entries of the old list followed by the appended
    trades: its length is at most 2000, what was dropped is a prefix (the
    oldest entries), and the survivors keep their order. *)
Theorem closed_trades_bounded_fifo (w : World) (ts : list ClosedTrade) (s : State) :
  kvReliable w →
  ts ≠ [] →
  let all := kv_trades (st_kv s) ++ ts in
  let kept := kv_trades (st_kv (forM_ ts (appendClosedTrade w) s).2) in
  (forM_ ts (appendClosedTrade w) s).1 = Ok tt
  ∧ kept = drop (length all - 2000) all
  ∧ length kept = min 2000 (length all)
  ∧ all = take (length all - 2000) all ++ kept.
Proof.
  intros Hkv Hts all kept.
  destruct (appendClosedTrades_run w ts s Hkv) as (s' & E & K).
  assert (Hkept : kept = drop (length all - 2000) all).
  { unfold kept. rewrite E. simpl. rewrite K. apply foldl_pushBounded, Hts. }
  split; [rewrite E; reflexivity |]. split; [exact Hkept |]. split.
  - rewrite Hkept, length_drop. lia.
  - rewrite Hkept, take_drop. reflexivity.
Qed.

Lemma closed_trades_bounded_fifo_witness :
  let ts := [Sample.closedBtc; Sample.closedBtc] in
  let all := kv_trades (st_kv Sample.state) ++ ts in
  let kept := kv_trades (st_kv (forM_ ts (appendClosedTrade Sample.world) Sample.state).2) in
  kvReliable Sample.world
  ∧ ts ≠ []
  ∧ (forM_ ts (appendClosedTrade Sample.world) Sample.state).1 = Ok tt
  ∧ kept = drop (length all - 2000) all
  ∧ length kept = min 2000 (length all)
  ∧ all = take (length all - 2000) all ++ kept.
Proof.
  intros ts all kept.
  assert (H1 : kvReliable Sample.world) by (intros n; reflexivity).
  assert (H2 : ts ≠ []) by (intros H; discriminate H).
  split; [exact H1 |]. split; [exact H2 |].
  exact (closed_trades_bounded_fifo Sample.world ts Sample.state H1 H2).
Defined.

(** ** Running store operations when the store is reliable *)

Section Reliable.

Variable w : World.
Hypothesis Hkv : kvReliable w.

Lemma kvGet_run k s :
  kvGet w k s = (Ok (kvRead k (st_kv s)), stepped (st_kv s) (st_trace s) s).
Proof. unfold kvGet. rewrite Hkv. reflexivity. Qed.

Lemma kvPut_run k v s :
  kvPut w k v s = (Ok tt, stepped (kvWrite k v (st_kv s)) (st_trace s) s).
Proof. unfold kvPut. rewrite Hkv. reflexivity. Qed.

Lemma appendLog_run entry s :
  ∃ s', appendLog w entry s = (Ok tt, s')
        ∧ st_kv s' = kvWrite K_logs
                       (pushBounded 500 (kv_logs (st_kv s))
                          {| log_at := w_now w (S (st_step s)); log_body := entry |})
                       (st_kv s)
        ∧ st_step s' = S (S (S (st_step s)))
        ∧ st_trace s' = st_trace s ∧ st_rt s' = st_rt s.
Proof.
  unfold appendLog. rewrite run_bind, kvGet_run. rewrite run_bind. unfold dateNow.
  rewrite kvPut_run. eexists. repeat split; reflexivity.
Qed.

End Reliable.

(** ** The admin guard *)

(** C10.  With [ADMIN_KEY] unset (or empty), run, stop and every other
    admin handler answer 403 "forbidden" whatever the [x-admin-key]
    header, and leave the whole state as it was: nothing is read from or
    written to the store, no clock is read and no external call is made. *)
Theorem admin_surface_fails_closed (w : World)
    (repair : AdminOp → Env → Request → M Response)
    (env : Env) (req : Request) (s : State) :
  Js.truthyS (ADMIN_KEY env) = false →
  handleVibeRun w env req s = (Ok forbidden, s)
  ∧ handleVibeStop w env req s = (Ok forbidden, s)
  ∧ handleVibeBackfillEquity repair env req s = (Ok forbidden, s)
  ∧ (∀ op, handleAdmin repair op env req s = (Ok forbidden, s))
  ∧ resp_status forbidden = 403%Z.
Proof.
  intros Hadmin.
  assert (Hrej : adminRejected env req = true).
  { unfold adminRejected. rewrite Hadmin. reflexivity. }
  unfold handleVibeBackfillEquity, handleVibeRun, handleVibeStop, handleAdmin.
  rewrite Hrej. repeat split; reflexivity.
Qed.

Lemma admin_surface_fails_closed_witness :
  let env := {| ASTER_API_BASE := None; ASTER_API_KEY := None; ASTER_API_SECRET := None;
                ADMIN_KEY := None; QWEN_API_KEY := None |} in
  let req := {| req_adminKey := Some "";
                req_run := {| ro_universe := None; ro_maxRiskPerTradeUsd := None;
                              ro_maxDailyLossUsd := None; ro_maxExposureUsd := None;
                              ro_leverageCap := None; ro_isolated := false;
                              ro_model := None; ro_maxLossPerTradeUsd := None |} |} in
  let repair := λ _ _ _, kvPut Sample.world K_equity [] ≫= λ _, mret (okConfig DEFAULT_VIBE_CONFIG) in
  Js.truthyS (ADMIN_KEY env) = false
  ∧ handleVibeRun Sample.world env req Sample.state = (Ok forbidden, Sample.state)
  ∧ handleVibeStop Sample.world env req Sample.state = (Ok forbidden, Sample.state)
  ∧ handleVibeBackfillEquity repair env req Sample.state = (Ok forbidden, Sample.state)
  ∧ (∀ op, handleAdmin repair op env req Sample.state = (Ok forbidden, Sample.state))
  ∧ resp_status forbidden = 403%Z.
Proof.
  intros env req repair.
  assert (H : Js.truthyS (ADMIN_KEY env) = false) by reflexivity.
  split; [exact H |].
  exact (admin_surface_fails_closed Sample.world repair env req Sample.state H).
Defined.

(** ** Status narrator *)

Lemma emitStatus_run (w : World) (Hkv : kvReliable w) events nowTs eq summary h hashes s :
  ∃ s', emitStatus w events nowTs eq summary h hashes s = (Ok (OutStatus eq summary), s')
        ∧ kv_last_status (st_kv s')
          = Some {| ls_at := nowTs; ls_equityUsd := eq; ls_hashes := take 12 (h :: hashes) |}.
Proof.
  unfold emitStatus.
  destruct (appendLog_run w Hkv (vibe_status eq summary) s) as (s1 & E1 & _).
  rewrite run_bind, E1. rewrite run_bind, (kvPut_run w Hkv).
  rewrite run_bind, (kvPut_run w Hkv). eexists. split; reflexivity.
Qed.




(** ** Close to flat *)

Lemma budget_nil p o : budget p o [].
Proof. repeat split; simpl; lia. Qed.

Lemma budget_app p1 o1 p2 o2 t1 t2 :
  budget p1 o1 t1 → budget p2 o2 t2 → budget (p1 + p2) (o1 + o2) (t1 ++ t2).
Proof.
  intros (P1 & O1 & F1) (P2 & O2 & F2). unfold budget.
  rewrite !List.filter_app, !length_app, forallb_app, F1, F2.
  repeat split; simpl; lia.
Qed.

Lemma budget_weaken p o p' o' tr : p ≤ p' → o ≤ o' → budget p o tr → budget p' o' tr.
Proof. intros Hp Ho (P & O & F). repeat split; [lia | lia | exact F]. Qed.

Section Costs.

Variable w : World.

Lemma costs_weaken {A} p o p' o' (m : M A) :
  p ≤ p' → o ≤ o' → costs p o m → costs p' o' m.
Proof.
  intros Hp Ho Hm s. destruct (Hm s) as (tr & E & B).
  exists tr. split; [exact E | eapply budget_weaken; eassumption].
Qed.

Lemma costs_ret {A} (a : A) : costs 0 0 (mret a).
Proof. intros s. exists []. simpl. rewrite app_nil_r. split; [reflexivity | apply budget_nil]. Qed.

Lemma costs_bind {A B} p1 o1 p2 o2 (m : M A) (k : A → M B) :
  costs p1 o1 m → (∀ a, costs p2 o2 (k a)) → costs (p1 + p2) (o1 + o2) (m ≫= k).
Proof.
  intros Hm Hk s. rewrite run_bind. destruct (Hm s) as (t1 & E1 & B1).
  destruct (m s) as [[a | e] s1]; simpl in *.
  - destruct (Hk a s1) as (t2 & E2 & B2). exists (t1 ++ t2).
    rewrite E2, E1, <- app_assoc. split; [reflexivity | apply budget_app; assumption].
  - exists t1. split; [exact E1 |]. eapply budget_weaken; [| | exact B1]; lia.
Qed.

Lemma costs_step {A} (r : State → Result A) :
  costs 0 0 (λ s, (r s, stepped (st_kv s) (st_trace s) s)).
Proof. intros s. exists []. simpl. rewrite app_nil_r. split; [reflexivity | apply budget_nil]. Qed.

Lemma costs_dateNow : costs 0 0 (dateNow w).
Proof. apply costs_step. Qed.

Lemma costs_kvGet k : costs 0 0 (kvGet w k).
Proof.
  intros s. exists []. unfold kvGet. rewrite app_nil_r.
  destruct (w_kvFails w (st_step s)); (split; [reflexivity | apply budget_nil]).
Qed.

Lemma costs_kvPut k v : costs 0 0 (kvPut w k v).
Proof.
  intros s. exists []. unfold kvPut. rewrite app_nil_r.
  destruct (w_kvFails w (st_step s)); (split; [reflexivity | apply budget_nil]).
Qed.

Lemma costs_appendLog entry : costs 0 0 (appendLog w entry).
Proof.
  unfold appendLog. apply (costs_bind 0 0 0 0); [exact (costs_kvGet K_logs) |].
  intros logs. apply (costs_bind 0 0 0 0); [apply costs_dateNow |]. intros ts.
  exact (costs_kvPut K_logs _).
Qed.

Lemma costs_livePosition env sym : costs 1 0 (livePosition w env sym).
Proof.
  unfold livePosition, fetchPos. destruct (canPoll env).
  - apply (costs_bind 0 0 1 0); [apply costs_dateNow |]. intros _.
    apply (costs_bind 1 0 0 0); [| intros l; apply costs_ret].
    intros s. eexists. split; [reflexivity |]. repeat split; simpl; lia.
  - eapply costs_weaken; [| | apply costs_ret]; lia.
Qed.

Lemma costs_asterFapiSignedPost env params : costs 0 1 (asterFapiSignedPost w env params).
Proof.
  unfold asterFapiSignedPost. destruct (negb (hasCredentials env)).
  - eapply costs_weaken; [| | apply costs_ret]; lia.
  - apply (costs_bind 0 0 0 1); [apply costs_dateNow |]. intros _.
    intros s. eexists. split; [reflexivity |]. repeat split; simpl; lia.
Qed.

Lemma costs_sleep_500 : costs 0 0 (sleep 500).
Proof. intros s. eexists. split; [reflexivity |]. repeat split; simpl; lia. Qed.

Lemma costs_closeLoop env sym price reason stepSz fuel acc :
  costs fuel fuel (closeLoop w env sym price reason stepSz fuel acc).
Proof.
  revert acc. induction fuel as [| fuel IH]; intros acc; simpl.
  - apply costs_ret.
  - apply (costs_bind 1 0 fuel (S fuel)); [apply costs_livePosition |].
    assert (Hret : ∀ a : CloseAcc, costs fuel (S fuel) (mret a)).
    { intros a. eapply costs_weaken; [| | apply costs_ret]; lia. }
    intros [amt |]; [| apply Hret].
    destruct (Js.Math_abs amt <=? 0)%float; [apply Hret |].
    destruct (negb _); [apply Hret |].
    apply (costs_bind 0 1 fuel fuel); [apply costs_asterFapiSignedPost |]. intros res.
    apply (costs_bind 0 0 fuel fuel); [apply costs_appendLog |]. intros _.
    apply (costs_bind 0 0 fuel fuel); [apply costs_sleep_500 |]. intros _.
    apply IH.
Qed.

End Costs.

(** C2.  In the close-to-flat path the loop polls the exchange position
    at most 8 times, sends at most 8 orders, all reduce-only, and every
    delay is the fixed 500 ms; the final check is one more read.  If that
    final check reports a nonzero quantity, the path returns the local
    open map as it was, no ClosedTrade is appended and the stored
    open-position map is unchanged. *)
Theorem close_not_flat_keeps_ledger (w : World) (env : Env) (sym : string)
    (t : OpenTrade) (now : Z) (price : float) (reason : CloseReason)
    (openMap : gmap string OpenTrade) (s s1 s2 s3 : State) (stepSz finalAmt : float)
    (acc : CloseAcc) :
  preloadStep w env sym s = (Ok stepSz, s1) →
  closeLoop w env sym price reason stepSz maxCloseAttempts
    {| totalQtyClosed := 0; sumNotionalExit := 0; lastExitPrice := price |} s1
  = (Ok acc, s2) →
  finalCheck w env sym s2 = (Ok finalAmt, s3) →
  (Js.Math_abs finalAmt <=? 0)%float = false →
  closeToFlat w env sym t now price reason openMap s = (Ok openMap, s3)
  ∧ kv_trades (st_kv s3) = kv_trades (st_kv s)
  ∧ kv_open_trades (st_kv s3) = kv_open_trades (st_kv s)
  ∧ ∃ tr, st_trace s2 = st_trace s1 ++ tr
          ∧ length (List.filter isPoll tr) ≤ 8
          ∧ length (List.filter isOrder tr) ≤ 8
          ∧ forallb fixedDelay tr = true
          ∧ forallb (allowed false) tr = true.
Proof.
  set (acc0 := {| totalQtyClosed := 0%float; sumNotionalExit := 0%float;
                  lastExitPrice := price |}).
  intros Hpre Hloop Hfin Hamt.
  pose proof (preloadStep_within w logsOnly false env sym s) as [F1 _].
  pose proof (closeLoop_within w logsOnly false env sym price reason stepSz
                maxCloseAttempts acc0 eq_refl s1) as [F2 (tr' & E' & A)].
  pose proof (finalCheck_within w logsOnly false env sym s2) as [F3 _].
  rewrite Hpre in F1. rewrite Hloop in F2, E'. rewrite Hfin in F3. simpl in F1, F2, F3, E'.
  split; [| split; [| split]].
  - unfold closeToFlat. rewrite (run_bind_ok _ _ _ _ _ Hpre).
    fold acc0. rewrite (run_bind_ok _ _ _ _ _ Hloop). rewrite (run_bind_ok _ _ _ _ _ Hfin).
    unfold settleClose. rewrite Hamt. reflexivity.
  - exact (eq_trans (F3 K_trades eq_refl)
             (eq_trans (F2 K_trades eq_refl) (F1 K_trades eq_refl))).
  - exact (eq_trans (F3 K_open_trades eq_refl)
             (eq_trans (F2 K_open_trades eq_refl) (F1 K_open_trades eq_refl))).
  - destruct (costs_closeLoop w env sym price reason stepSz maxCloseAttempts acc0 s1)
      as (tr & E & P & O & D).
    rewrite Hloop in E. simpl in E.
    assert (tr' = tr) by (eapply app_inv_head; rewrite <- E, <- E'; reflexivity).
    subst tr'. exists tr. repeat split; assumption.
Qed.

Lemma close_not_flat_keeps_ledger_witness :
  let w := Sample.world in
  let openMap := kv_open_trades Sample.store in
  let acc0 := {| totalQtyClosed := 0; sumNotionalExit := 0; lastExitPrice := 94 |} in
  let acc := {| totalQtyClosed := 16; sumNotionalExit := 1504; lastExitPrice := 94 |} in
  let s := Sample.state in
  let s1 := (preloadStep w Sample.env "BTCUSDT" s).2 in
  let s2 := (closeLoop w Sample.env "BTCUSDT" 94 StopLossHit 0.0001
               maxCloseAttempts acc0 s1).2 in
  let s3 := (finalCheck w Sample.env "BTCUSDT" s2).2 in
  preloadStep w Sample.env "BTCUSDT" s = (Ok 0.0001%float, s1)
  ∧ closeLoop w Sample.env "BTCUSDT" 94 StopLossHit 0.0001 maxCloseAttempts acc0 s1
    = (Ok acc, s2)
  ∧ finalCheck w Sample.env "BTCUSDT" s2 = (Ok 2%float, s3)
  ∧ (Js.Math_abs 2 <=? 0)%float = false
  ∧ closeToFlat w Sample.env "BTCUSDT" Sample.longBtc 1000 94 StopLossHit openMap s
    = (Ok openMap, s3)
  ∧ kv_trades (st_kv s3) = kv_trades (st_kv s)
  ∧ kv_open_trades (st_kv s3) = kv_open_trades (st_kv s)
  ∧ ∃ tr, st_trace s2 = st_trace s1 ++ tr
          ∧ length (List.filter isPoll tr) ≤ 8
          ∧ length (List.filter isOrder tr) ≤ 8
          ∧ forallb fixedDelay tr = true
          ∧ forallb (allowed false) tr = true.
Proof.
  intros w openMap acc0 acc s s1 s2 s3.
  assert (H1 : preloadStep w Sample.env "BTCUSDT" s = (Ok 0.0001%float, s1))
    by (vm_compute; reflexivity).
  assert (H2 : closeLoop w Sample.env "BTCUSDT" 94 StopLossHit 0.0001
                 maxCloseAttempts acc0 s1 = (Ok acc, s2))
    by (vm_compute; reflexivity).
  assert (H3 : finalCheck w Sample.env "BTCUSDT" s2 = (Ok 2%float, s3))
    by (vm_compute; reflexivity).
  assert (H4 : (Js.Math_abs 2 <=? 0)%float = false) by reflexivity.
  split; [exact H1 |]. split; [exact H2 |]. split; [exact H3 |]. split; [exact H4 |].
  exact (close_not_flat_keeps_ledger w Sample.env "BTCUSDT" Sample.longBtc 1000 94
           StopLossHit openMap s s1 s2 s3 0.0001 2 acc H1 H2 H3 H4).
Defined.

(** ** Equity sampling *)

Lemma tryIgnore_ok (m : M unit) (s : State) : ∃ s', tryIgnore m s = (Ok tt, s').
Proof.
  unfold tryIgnore, tryCatch. destruct (m s) as [[[] | e] s1]; eexists; reflexivity.
Qed.

Lemma tickPreparation_ok (w : World) (env : Env) (ctx : TickCtx) (s : State) :
  ∃ s', tickPreparation w env ctx s = (Ok tt, s').
Proof.
  unfold tickPreparation, storeInitialEquity, marketSnapshot, enforceExits.
  rewrite run_bind. destruct (tryIgnore_ok (
    init ← kvGet w K_initial_equity;
    match init with
    | None =>
        if Js.gtb (cx_equityUsd ctx) 0 then
          ts ← dateNow w;
          kvPut w K_initial_equity (Some {| es_at := ts; es_equityUsd := cx_equityUsd ctx |})
        else mret tt
    | Some _ => mret tt
    end) s) as (s1 & ->).
  rewrite !run_bind.
  destruct (tryIgnore_ok (
    _ ← forM_ (universe (cx_cfg ctx)) (λ sym, _ ← tickerPrice w env sym; mret tt);
    stats24hr w env) s1) as (s2 & ->).
  destruct (tryIgnore_ok (forM_ (universe (cx_cfg ctx)) (fetchKlines w env)) s2)
    as (s3 & ->).
  apply tryIgnore_ok.
Qed.

Section TickFootprint.

Variable w : World.
Variable W : Key → bool.
Hypothesis HW : ∀ k, notEquity k = true → W k = true.

Local Hint Resolve appendLog_within consultOracle_within narrateFlat_within
  logDecision_within tickFailed_within storeInitialEquity_within
  marketSnapshot_within enforceExits_within : within.

Local Hint Extern 1 (W _ = true) => (apply HW; reflexivity) : within.

Lemma executeOrder_any_within env a sym size meta :
  within W true (executeOrder w env a sym size meta).
Proof.
  destruct (isEntry a && Js.truthyS (ASTER_API_SECRET env)) eqn:Ha.
  - apply executeOrder_within; first [apply HW; reflexivity | assumption | reflexivity].
  - apply executeOrder_flat_within; first [apply HW; reflexivity | assumption].
Qed.

Local Hint Resolve executeOrder_any_within : within.

Lemma tickPreparation_within entries env ctx :
  within W entries (tickPreparation w env ctx).
Proof. unfold tickPreparation. within_auto. Qed.

Lemma tickBody_within env ctx : within W true (tickBody w env ctx).
Proof.
  unfold tickBody. within_auto;
    try (refine (within_kvPut w _ _ _ _ _); apply HW; reflexivity).
Qed.

Lemma tickAttempt_within env ctx : within W true (tickAttempt w env ctx).
Proof.
  unfold tickAttempt. apply within_tryCatch; [apply tickBody_within |].
  intros e. apply tickFailed_within; apply HW; reflexivity.
Qed.

End TickFootprint.

Lemma sampleEquity_run (w : World) (x : float) (s : State) :
  kvReliableFrom w (st_step s) →
  Js.gtb x 0 = true →
  let nowTs := w_now w (st_step s) in
  let sample := {| es_at := nowTs; es_equityUsd := x |} in
  ∃ s', sampleEquity w x s = (Ok tt, s')
        ∧ kv_equity (st_kv s') = pushBounded largeCap (kv_equity (st_kv s)) sample
        ∧ kvRead (K_equity_day (dayKey nowTs)) (st_kv s')
          = kvRead (K_equity_day (dayKey nowTs)) (st_kv s) ++ [sample].
Proof.
  intros Hkv Hpos nowTs sample.
  assert (Ht : Js.truthy x = true).
  { unfold Js.truthy. unfold Js.gtb in Hpos. rewrite Hpos. apply orb_true_r. }
  unfold sampleEquity, tryIgnore, tryCatch. rewrite Ht, Hpos.
  change (true && true) with true. cbv iota.
  rewrite run_bind. unfold dateNow at 1. cbv iota beta.
  rewrite run_bind. unfold kvGet at 1. simpl st_step.
  rewrite (Hkv (S (st_step s))) by lia.
  cbv iota beta. rewrite run_bind. unfold kvPut at 1. simpl st_step.
  rewrite (Hkv (S (S (st_step s)))) by lia.
  cbv iota beta. rewrite run_bind. unfold kvGet at 1. simpl st_step.
  rewrite (Hkv (S (S (S (st_step s))))) by lia.
  cbv iota beta. unfold kvPut. simpl st_step.
  rewrite (Hkv (S (S (S (S (st_step s)))))) by lia.
  eexists. split; [reflexivity |]. split; [reflexivity |].
  simpl. rewrite lookup_insert_eq. reflexivity.
Qed.

(** ** The untrusted oracle *)

Section Yields.

Variable w : World.
Variable entries : bool.

Lemma yields_ret {A} (a : A) (Q : A → Prop) : Q a → yields entries (mret a) Q.
Proof.
  intros HQ s. exists a, s. split; [reflexivity |]. split; [exact HQ |].
  apply footprint_refl.
Qed.

Lemma yields_bind {A B} (m : M A) (k : A → M B) (Q : A → Prop) (R : B → Prop) :
  yields entries m Q → (∀ a, Q a → yields entries (k a) R) →
  yields entries (m ≫= k) R.
Proof.
  intros Hm Hk s. destruct (Hm s) as (a & s1 & E1 & HQ & F1).
  destruct (Hk a HQ s1) as (b & s2 & E2 & HR & F2).
  exists b, s2. rewrite run_bind, E1. split; [exact E2 |]. split; [exact HR |].
  eapply footprint_trans; eassumption.
Qed.

Lemma yields_weaken {A} (m : M A) (Q R : A → Prop) :
  (∀ a, Q a → R a) → yields entries m Q → yields entries m R.
Proof.
  intros HQR Hm s. destruct (Hm s) as (a & s' & E & HQ & F).
  exists a, s'. split; [exact E |]. split; [apply HQR, HQ | exact F].
Qed.

(** [try { m } catch { <a value> }] always returns. *)
Lemma yields_tryCatch_ret {A} (m : M A) (a0 : A) (Q : A → Prop) :
  post m Q → Q a0 → within anyKey entries (tryCatch m (λ _, mret a0)) →
  yields entries (tryCatch m (λ _, mret a0)) Q.
Proof.
  intros Hpost H0 Hwithin s. specialize (Hwithin s). unfold tryCatch in *.
  destruct (m s) as [[a | e] s1] eqn:E; simpl in Hwithin.
  - exists a, s1. split; [reflexivity |]. split; [exact (Hpost s a s1 E) | exact Hwithin].
  - exists a0, s1. split; [reflexivity |]. split; [exact H0 | exact Hwithin].
Qed.

Lemma yields_tryIgnore (m : M unit) :
  within anyKey entries (tryIgnore m) → yields entries (tryIgnore m) (λ _, True).
Proof.
  intros Hwithin. apply yields_tryCatch_ret; [| exact I | exact Hwithin].
  intros s a s' _. exact I.
Qed.

Lemma yields_dateNow : yields entries (dateNow w) (λ _, True).
Proof.
  intros s. eexists _, _. split; [reflexivity |]. split; [exact I |].
  apply footprint_step.
Qed.

Lemma yields_getRt : yields entries getRt (λ _, True).
Proof.
  intros s. eexists _, _. split; [reflexivity |]. split; [exact I |].
  apply footprint_refl.
Qed.

Hypothesis Hkv : kvReliable w.

Lemma yields_kvGet k : yields entries (kvGet w k) (λ _, True).
Proof.
  intros s. eexists _, _. split; [apply (kvGet_run w Hkv) |]. split; [exact I |].
  apply footprint_step.
Qed.

Lemma yields_kvPut k v : yields entries (kvPut w k v) (λ _, True).
Proof.
  intros s. eexists _, _. split; [apply (kvPut_run w Hkv) |]. split; [exact I |].
  pose proof (within_kvPut w anyKey entries k v eq_refl s) as F.
  rewrite (kvPut_run w Hkv) in F. exact F.
Qed.

Lemma yields_appendLog entry : yields entries (appendLog w entry) (λ _, True).
Proof.
  intros s. destruct (appendLog_run w Hkv entry s) as (s' & E & _).
  exists tt, s'. split; [exact E |]. split; [exact I |].
  pose proof (appendLog_within w anyKey entries entry eq_refl s) as F.
  rewrite E in F. exact F.
Qed.

End Yields.

Lemma post_ret {A} (a : A) (Q : A → Prop) : Q a → post (mret a) Q.
Proof. intros HQ s a' s' E. inversion E. subst. exact HQ. Qed.

Lemma post_bind {A B} (m : M A) (k : A → M B) (R : B → Prop) :
  (∀ a, post (k a) R) → post (m ≫= k) R.
Proof.
  intros Hk s b s' E. rewrite run_bind in E.
  destruct (m s) as [[a | e] s1]; [exact (Hk a s1 b s' E) | discriminate E].
Qed.

Lemma selectAction_invalid (parsed : Json) :
  validAction parsed = false → selectAction parsed = ActFLAT.
Proof.
  unfold validAction, selectAction.
  destruct (jString (jget parsed "action")) as [a |]; [| reflexivity].
  intros H. apply bool_decide_eq_false in H.
  destruct (String.eqb a "LONG") eqn:E1.
  { apply String.eqb_eq in E1. subst a. exfalso. apply H. set_solver. }
  destruct (String.eqb a "SHORT") eqn:E2.
  { apply String.eqb_eq in E2. subst a. exfalso. apply H. set_solver. }
  reflexivity.
Qed.

Lemma selectSymbol_in_universe (cfg : VibeConfig) (parsed : Json) :
  universe cfg ≠ [] → selectSymbol cfg parsed ∈ universe cfg.
Proof.
  intros Hne.
  assert (Hfirst : firstOfUniverse cfg ∈ universe cfg).
  { unfold firstOfUniverse. destruct (universe cfg) as [| x u]; [congruence |].
    simpl. set_solver. }
  unfold selectSymbol. destruct (jString (jget parsed "symbol")) as [sym |]; [| exact Hfirst].
  case_bool_decide; assumption.
Qed.

Lemma rateLimitedStatus_post (w : World) events eq summary :
  post (rateLimitedStatus w events eq summary) (λ out, noDecision (Some out)).
Proof.
  unfold rateLimitedStatus. apply post_bind. intros last. apply post_bind. intros nowTs.
  apply post_bind. intros h.
  assert (He : post (emitStatus w events nowTs eq summary h (hashesOf last))
                 (λ out, noDecision (Some out))).
  { unfold emitStatus. apply post_bind. intros _. apply post_bind. intros _.
    apply post_bind. intros _. apply post_ret. exact I. }
  destruct (statusVerdict last nowTs eq h); [exact He | exact He |].
  apply post_ret. exact I.
Qed.

Lemma narrateFlat_yields (w : World) (entries : bool) env events equityUsd :
  yields entries (narrateFlat w env events equityUsd) noDecision.
Proof.
  unfold narrateFlat. apply yields_tryCatch_ret; [| exact I |].
  - apply post_bind. intros open. apply post_bind. intros posList.
    apply post_bind. intros _. apply post_bind. intros _.
    apply post_bind. intros _. apply post_bind. intros summary.
    intros s a s' E. rewrite run_bind in E.
    destruct (rateLimitedStatus w events equityUsd summary s) as [[out | e] s1] eqn:E1;
      [| discriminate E].
    inversion E. subst. exact (rateLimitedStatus_post _ _ _ _ _ _ _ E1).
  - exact (narrateFlat_within w anyKey entries env events equityUsd eq_refl eq_refl eq_refl).
Qed.

Lemma yields_setRt (entries : bool) rt : yields entries (setRt rt) (λ _, True).
Proof.
  intros s. eexists _, _. split; [reflexivity |]. split; [exact I |].
  apply (within_setRt anyKey entries rt s).
Qed.

Lemma yields_tryCatch_ok {A} (entries : bool) (m : M A) (h : string → M A) (Q : A → Prop) :
  yields entries m Q → yields entries (tryCatch m h) Q.
Proof.
  intros Hm s. destruct (Hm s) as (a & s' & E & HQ & F).
  exists a, s'. unfold tryCatch. rewrite E. split; [reflexivity |]. split; assumption.
Qed.

Lemma yields_tryFinally {A} (entries : bool) (m : M A) (fin : M unit) (Q : A → Prop) :
  yields entries m Q → yields entries fin (λ _, True) →
  yields entries (tryFinally m fin) Q.
Proof.
  intros Hm Hf s. destruct (Hm s) as (a & s1 & E1 & HQ & F1).
  destruct (Hf s1) as (u & s2 & E2 & _ & F2).
  exists a, s2. unfold tryFinally. rewrite E1, E2.
  split; [reflexivity |]. split; [exact HQ |]. eapply footprint_trans; eassumption.
Qed.

Section Degraded.

Variable w : World.
Hypothesis Hkv : kvReliable w.
Hypothesis Hllm : ∀ n, oracleReplyUsable (w_llm w n) = false.

Lemma callLLMDecider_post env cfg :
  post (callLLMDecider w env cfg) (λ llm, selectAction llm.1 = ActFLAT).
Proof.
  intros s a s' E. unfold callLLMDecider in E.
  destruct (negb (Js.truthyS (QWEN_API_KEY env))); [discriminate E |].
  rewrite run_bind in E. unfold perform in E. cbv iota beta in E.
  pose proof (Hllm (st_step s)) as Hu.
  destruct (w_llm w (st_step s)) as [h | e]; [| discriminate E].
  simpl in Hu. destruct (llm_ok h); simpl in E, Hu; [| discriminate E].
  destruct (llm_body h) as [| | | parsed]; try discriminate E.
  - inversion E. reflexivity.
  - inversion E. reflexivity.
  - inversion E. simpl. apply selectAction_invalid, Hu.
Qed.

Lemma consultOracle_yields env cfg :
  yields false (consultOracle w env cfg) (λ llm, selectAction llm.1 = ActFLAT).
Proof.
  intros s. unfold consultOracle, tryCatch.
  pose proof (callLLMDecider_within w anyKey false env cfg s) as F1.
  destruct (callLLMDecider w env cfg s) as [[llm | e] s1] eqn:E; simpl in F1.
  - exists llm, s1. split; [reflexivity |].
    split; [exact (callLLMDecider_post env cfg s llm s1 E) | exact F1].
  - destruct (yields_appendLog w false Hkv (vibe_error ("LLM call failed: " +:+ e)) s1)
      as ([] & s2 & E2 & _ & F2).
    exists (JObj [], emptyMeta), s2. rewrite run_bind, E2.
    split; [reflexivity |]. split; [reflexivity |].
    eapply footprint_trans; eassumption.
Qed.

Lemma accountSnapshot_yields env : yields false (accountSnapshot w env) (λ _, True).
Proof.
  unfold accountSnapshot. apply yields_tryCatch_ret; [| exact I |].
  - intros s a s' _. exact I.
  - exact (accountSnapshot_within w anyKey false env).
Qed.

Lemma tickPrelude_yields env ignoreStatus :
  yields false (tickPrelude w env ignoreStatus) (λ _, True).
Proof.
  unfold tickPrelude.
  eapply yields_bind; [exact (yields_kvGet w false Hkv K_config) |]. intros cfg _.
  cbv zeta.
  eapply yields_bind; [exact (yields_kvGet w false Hkv K_runtime) |]. intros rt _.
  eapply yields_bind; [apply yields_setRt |]. intros _ _.
  eapply yields_bind; [exact (yields_kvGet w false Hkv K_events) |]. intros events _.
  destruct (negb (isRunning (default DEFAULT_VIBE_CONFIG cfg)) && negb ignoreStatus).
  - apply yields_ret. exact I.
  - eapply yields_bind; [apply accountSnapshot_yields |]. intros snap _.
    apply yields_ret. exact I.
Qed.

Lemma tickPreparation_yields env ctx :
  yields false (tickPreparation w env ctx) (λ _, True).
Proof.
  unfold tickPreparation.
  eapply yields_bind.
  { apply yields_tryIgnore.
    exact (storeInitialEquity_within w anyKey false (cx_equityUsd ctx) eq_refl). }
  intros _ _. eapply yields_bind.
  { unfold marketSnapshot. eapply yields_bind.
    - apply yields_tryIgnore. apply within_tryIgnore.
      apply within_bind; [| intros _; apply stats24hr_within].
      apply within_forM_. intros sym.
      apply within_bind; [apply tickerPrice_within | intros _; apply within_ret].
    - intros _ _. apply yields_tryIgnore. apply within_tryIgnore.
      apply within_forM_. intros sym. apply fetchKlines_within. }
  intros _ _. unfold enforceExits. apply yields_tryIgnore.
  exact (enforceExits_within w anyKey false env (cx_cfg ctx) eq_refl eq_refl eq_refl).
Qed.

End Degraded.

Section DegradedTick.

Variable w : World.
Hypothesis Hkv : kvReliable w.
Hypothesis Hllm : ∀ n, oracleReplyUsable (w_llm w n) = false.

Lemma executeOrder_flat_yields env sym size meta :
  yields false (executeOrder w env ActFLAT sym size meta) (λ _, True).
Proof.
  intros s. exists tt, s. split; [reflexivity |]. split; [exact I |].
  apply footprint_refl.
Qed.

Lemma tickBody_yields env ctx :
  yields false (tickBody w env ctx)
    (λ res, ∃ meta out, res = TickOk meta out ∧ noDecision out).
Proof.
  unfold tickBody. cbv zeta.
  eapply yields_bind; [exact (consultOracle_yields w Hkv Hllm env (cx_cfg ctx)) |].
  intros llm Hflat. cbv beta. rewrite Hflat.
  eapply yields_bind; [apply (yields_appendLog w false Hkv) |]. intros _ _.
  eapply yields_bind; [apply (yields_appendLog w false Hkv) |]. intros _ _.
  eapply yields_bind; [apply narrateFlat_yields |]. intros out Hout.
  eapply yields_bind; [apply executeOrder_flat_yields |]. intros _ _.
  eapply yields_bind.
  { apply yields_tryIgnore. apply within_tryIgnore.
    exact (within_kvPut w anyKey false K_positions (Some []) eq_refl). }
  intros _ _.
  eapply yields_bind; [apply yields_getRt |]. intros rt _.
  eapply yields_bind; [apply yields_dateNow |]. intros ts _.
  eapply yields_bind; [exact (yields_kvPut w false Hkv K_runtime _) |]. intros _ _.
  apply yields_ret. eexists _, _. split; [reflexivity | exact Hout].
Qed.

Lemma vibeTick_yields env ignoreStatus :
  yields false (vibeTick w env ignoreStatus)
    (λ res, res = TickSkipped ∨ ∃ meta out, res = TickOk meta out ∧ noDecision out).
Proof.
  unfold vibeTick.
  eapply yields_bind; [exact (tickPrelude_yields w Hkv env ignoreStatus) |].
  intros [ctx |] _; [| apply yields_ret; left; reflexivity].
  eapply yields_bind; [apply tickPreparation_yields |]. intros _ _.
  apply yields_tryFinally.
  - unfold tickAttempt. apply yields_tryCatch_ok.
    eapply yields_weaken; [| apply tickBody_yields]. intros res H. right. exact H.
  - apply yields_tryIgnore.
    exact (sampleEquity_within w anyKey false (cx_sampledEquity ctx) eq_refl
             (λ _, eq_refl)).
Qed.

End DegradedTick.

(** C4, as stated, fails for an out-of-universe symbol: the oracle answers
    LONG on "FOOUSDT", which is not in the universe; the tick keeps the
    action, falls back to the first symbol of the universe and submits a
    new-position BUY order on BTCUSDT. *)
Lemma stray_symbol_counterexample :
  let r := vibeTick Sample.strayWorld Sample.env false Sample.emptyState in
  bool_decide ("FOOUSDT" ∈ universe DEFAULT_VIBE_CONFIG) = false
  ∧ r.1 = Ok (TickOk {| m_provider := Some "qwen"; m_model := Some "qwen2.5-32b-instruct";
                        m_thesis := None; m_stopLoss := None; m_takeProfit := None;
                        m_minHoldMs := None |}
                (Some (OutDecision ActLONG "BTCUSDT" 500)))
  ∧ List.filter (λ e, negb (allowed false e)) (st_trace r.2)
    = [EOrder {| op_symbol := "BTCUSDT"; op_side := BUY;
                 op_quantity := 5.3191000000000006; op_reduceOnly := false |}].
Proof. repeat split; vm_compute; reflexivity. Qed.

(** * Further properties of the worker *)

(** ** Confinement: which keys a run writes and which effects it performs *)

Lemma confined_here W P (s s' : State) :
  st_kv s' = st_kv s → st_trace s' = st_trace s →
  (∀ k, W k = false → kvRead k (st_kv s') = kvRead k (st_kv s))
  ∧ ∃ tr, st_trace s' = st_trace s ++ tr ∧ forallb P tr = true.
Proof.
  intros -> ->. split; [reflexivity |]. exists []. rewrite app_nil_r.
  split; reflexivity.
Qed.

Lemma confined_then W P (s1 s2 s3 : State) :
  ((∀ k, W k = false → kvRead k (st_kv s2) = kvRead k (st_kv s1))
   ∧ ∃ tr, st_trace s2 = st_trace s1 ++ tr ∧ forallb P tr = true) →
  ((∀ k, W k = false → kvRead k (st_kv s3) = kvRead k (st_kv s2))
   ∧ ∃ tr, st_trace s3 = st_trace s2 ++ tr ∧ forallb P tr = true) →
  (∀ k, W k = false → kvRead k (st_kv s3) = kvRead k (st_kv s1))
  ∧ ∃ tr, st_trace s3 = st_trace s1 ++ tr ∧ forallb P tr = true.
Proof.
  intros [K1 (t1 & E1 & F1)] [K2 (t2 & E2 & F2)]. split.
  - intros k Hk. rewrite (K2 k Hk). apply K1, Hk.
  - exists (t1 ++ t2). rewrite E2, E1, <- app_assoc. split; [reflexivity |].
    rewrite forallb_app, F1, F2. reflexivity.
Qed.

Section Confined.

Variable w : World.
Variable W : Key → bool.
Variable P : Effect → bool.

Lemma confined_ret {A} (a : A) : confined W P (mret a).
Proof. intros s. apply confined_here; reflexivity. Qed.

Lemma confined_throw {A} (e : string) : confined W P (@throw A e).
Proof. intros s. apply confined_here; reflexivity. Qed.

Lemma confined_bind {A B} (m : M A) (k : A → M B) :
  confined W P m → (∀ a, confined W P (k a)) → confined W P (m ≫= k).
Proof.
  intros Hm Hk s. rewrite run_bind. specialize (Hm s).
  destruct (m s) as [[a | e] s1]; simpl in *; [| exact Hm].
  eapply confined_then; [exact Hm | apply Hk].
Qed.

Lemma confined_tryCatch {A} (m : M A) (h : string → M A) :
  confined W P m → (∀ e, confined W P (h e)) → confined W P (tryCatch m h).
Proof.
  intros Hm Hh s. unfold tryCatch. specialize (Hm s).
  destruct (m s) as [[a | e] s1]; simpl in *; [exact Hm |].
  eapply confined_then; [exact Hm | apply Hh].
Qed.

Lemma confined_tryIgnore (m : M unit) : confined W P m → confined W P (tryIgnore m).
Proof. intros Hm. apply confined_tryCatch; [exact Hm |]. intros e. apply confined_ret. Qed.

Lemma confined_tryFinally {A} (m : M A) (fin : M unit) :
  confined W P m → confined W P fin → confined W P (tryFinally m fin).
Proof.
  intros Hm Hf s. unfold tryFinally. specialize (Hm s).
  destruct (m s) as [r s1]. specialize (Hf s1).
  destruct (fin s1) as [[u | e] s2]; simpl in *; eapply confined_then; eassumption.
Qed.

Lemma confined_forM_ {A} (l : list A) (f : A → M unit) :
  (∀ x, confined W P (f x)) → confined W P (forM_ l f).
Proof.
  intros Hf. induction l as [| x l IH]; simpl.
  - apply confined_ret.
  - apply confined_bind; [apply Hf | intros _; exact IH].
Qed.

Lemma confined_foldM {A B} (f : B → A → M B) (l : list A) (b : B) :
  (∀ b x, confined W P (f b x)) → confined W P (foldM f b l).
Proof.
  intros Hf. revert b. induction l as [| x l IH]; intros b; simpl.
  - apply confined_ret.
  - apply confined_bind; [apply Hf | intros b'; apply IH].
Qed.

Lemma confined_dateNow : confined W P (dateNow w).
Proof. intros s. apply confined_here; reflexivity. Qed.

Lemma confined_getRt : confined W P getRt.
Proof. intros s. apply confined_here; reflexivity. Qed.

Lemma confined_setRt rt : confined W P (setRt rt).
Proof. intros s. apply confined_here; reflexivity. Qed.

Lemma confined_kvGet k : confined W P (kvGet w k).
Proof.
  intros s. unfold kvGet.
  destruct (w_kvFails w (st_step s)); apply confined_here; reflexivity.
Qed.

Lemma confined_kvPut k v : W k = true → confined W P (kvPut w k v).
Proof.
  intros HW s. unfold kvPut.
  destruct (w_kvFails w (st_step s)); [apply confined_here; reflexivity |].
  split; simpl.
  - intros k' Hk'. apply kvRead_kvWrite_ne. intros ->. congruence.
  - exists []. rewrite app_nil_r. split; reflexivity.
Qed.

Lemma confined_perform {A} (e : Effect) (reply : nat → Result A) :
  P e = true → confined W P (perform e reply).
Proof.
  intros He s. split; [reflexivity |]. exists [e]. simpl. rewrite He.
  split; reflexivity.
Qed.

Lemma confined_renderSummary : confined W P (renderSummary w).
Proof. intros s. apply confined_here; reflexivity. Qed.

Lemma confined_noveltyHashOf : confined W P (noveltyHashOf w).
Proof. intros s. apply confined_here; reflexivity. Qed.

Lemma confined_objectKeys {A} (map : gmap string A) : confined W P (objectKeys w map).
Proof. intros s. apply confined_here; reflexivity. Qed.

Lemma confined_objectEntries {A} (map : gmap string A) :
  confined W P (objectEntries w map).
Proof.
  unfold objectEntries. apply confined_bind; [apply confined_objectKeys |].
  intros keys. apply confined_ret.
Qed.

End Confined.

(** A run confined to no key and no effect leaves every key and the
    trace as they were. *)
Lemma confined_nothing {A} (W : Key → bool) (m : M A) (s : State) :
  confined W noEffect m → st_trace (m s).2 = st_trace s.
Proof.
  intros Hm. destruct (Hm s) as [K (tr & E & F)].
  assert (tr = []) as -> by (destruct tr; [reflexivity | discriminate F]).
  rewrite app_nil_r in E. exact E.
Qed.

Create HintDb confined.

#[export] Hint Resolve confined_ret confined_throw confined_dateNow confined_getRt
  confined_setRt confined_kvGet confined_renderSummary confined_noveltyHashOf
  confined_objectKeys confined_objectEntries : confined.

(** One structural step of a confinement proof. *)
Ltac confined_step :=
  lazymatch goal with
  | |- confined _ _ (mret _) => apply confined_ret
  | |- confined _ _ (throw _) => apply confined_throw
  | |- confined _ _ (mbind _ _) => apply confined_bind; [| intros ?; cbv beta]
  | |- confined _ _ (tryIgnore _) => apply confined_tryIgnore
  | |- confined _ _ (tryCatch _ _) => apply confined_tryCatch; [| intros ?; cbv beta]
  | |- confined _ _ (tryFinally _ _) => apply confined_tryFinally
  | |- confined _ _ (forM_ _ _) => apply confined_forM_; intros ?; cbv beta
  | |- confined _ _ (foldM _ _ _) => apply confined_foldM; intros ? ?; cbv beta
  | |- confined _ _ (kvGet ?w ?k) => exact (confined_kvGet w _ _ k)
  | |- confined _ _ (dateNow _) => apply confined_dateNow
  | |- confined _ _ (kvPut ?w ?k ?v) =>
      refine (confined_kvPut w _ _ k v _); first [assumption | reflexivity]
  | |- confined _ _ (perform _ _) =>
      apply confined_perform; first [assumption | reflexivity]
  | |- confined _ _ (sleep _) => apply confined_perform; first [assumption | reflexivity]
  | |- confined _ _ (match ?x with _ => _ end) => destruct x
  | |- confined _ _ (let _ := _ in _) => cbv zeta
  end.

Ltac confined_auto :=
  repeat first [ solve [eauto with confined] | confined_step ].


(** ** Exit priorities of the lifecycle pass *)

(** X1.  While the minimum hold of a position has not elapsed, a breached
    take-profit does not close it: with no stop-loss breach and no hard
    dollar-loss breach the exit decision is "none" and the loop iteration
    leaves the position as it is, whatever the take-profit level. *)
Theorem take_profit_waits_for_min_hold (w : World) (env : Env) (cfg : VibeConfig)
    (openMap : gmap string OpenTrade) (sym : string) (t : OpenTrade)
    (s s1 s2 : State) (now : Z) (price : float) :
  openMap !! sym = Some t →
  dateNow w s = (Ok now, s1) →
  tickerPrice w env sym s1 = (Ok price, s2) →
  minHoldOk t now = false →
  stopLossBreached t price = false →
  maxLossBreached cfg t price = false →
  exitDecision cfg t now price = None
  ∧ enforceExit w env cfg openMap sym s = (Ok openMap, s2).
Proof.
  intros Ht Hnow Hprice Hhold Hsl Hml.
  assert (Hd : exitDecision cfg t now price = None).
  { unfold exitDecision. rewrite Hsl, Hhold, Hml. reflexivity. }
  split; [exact Hd |].
  unfold enforceExit. rewrite Ht.
  rewrite (run_bind_ok _ _ _ _ _ Hnow). rewrite (run_bind_ok _ _ _ _ _ Hprice).
  destruct (priceUsable price); simpl; [rewrite Hd |]; reflexivity.
Qed.

Lemma take_profit_waits_for_min_hold_witness :
  let w := Scenario.quoting 106 in
  let s := Sample.state in
  let s1 := (dateNow w s).2 in
  let s2 := (tickerPrice w Sample.env "ETHUSDT" s1).2 in
  Scenario.openEth !! "ETHUSDT" = Some Scenario.longEth
  ∧ dateNow w s = (Ok 1000%Z, s1)
  ∧ tickerPrice w Sample.env "ETHUSDT" s1 = (Ok 106%float, s2)
  ∧ minHoldOk Scenario.longEth 1000 = false
  ∧ stopLossBreached Scenario.longEth 106 = false
  ∧ maxLossBreached DEFAULT_VIBE_CONFIG Scenario.longEth 106 = false
  ∧ takeProfitBreached Scenario.longEth 106 = true
  ∧ exitDecision DEFAULT_VIBE_CONFIG Scenario.longEth 1000 106 = None
  ∧ enforceExit w Sample.env DEFAULT_VIBE_CONFIG Scenario.openEth "ETHUSDT" s
    = (Ok Scenario.openEth, s2).
Proof.
  intros w s s1 s2.
  assert (H1 : Scenario.openEth !! "ETHUSDT" = Some Scenario.longEth) by reflexivity.
  assert (H2 : dateNow w s = (Ok 1000%Z, s1)) by reflexivity.
  assert (H3 : tickerPrice w Sample.env "ETHUSDT" s1 = (Ok 106%float, s2)) by reflexivity.
  assert (H4 : minHoldOk Scenario.longEth 1000 = false) by reflexivity.
  assert (H5 : stopLossBreached Scenario.longEth 106 = false) by reflexivity.
  assert (H6 : maxLossBreached DEFAULT_VIBE_CONFIG Scenario.longEth 106 = false)
    by reflexivity.
  split; [exact H1 |]. split; [exact H2 |]. split; [exact H3 |]. split; [exact H4 |].
  split; [exact H5 |]. split; [exact H6 |]. split; [reflexivity |].
  exact (take_profit_waits_for_min_hold w Sample.env DEFAULT_VIBE_CONFIG Scenario.openEth
           "ETHUSDT" Scenario.longEth s s1 s2 1000 106 H1 H2 H3 H4 H5 H6).
Defined.

(** X2.  The hard dollar-loss cap does not wait for the minimum hold: with
    a positive cap, a usable price, no stop-loss breach and no take-profit
    breach, an unrealized loss at or below -|cap| makes the exit decision
    "Max loss -|cap| hit" and the loop iteration run the close path,
    whether or not the minimum hold has elapsed. *)
Theorem max_loss_ignores_min_hold (w : World) (env : Env) (cfg : VibeConfig)
    (openMap : gmap string OpenTrade) (sym : string) (t : OpenTrade) (cap : float)
    (s s1 s2 : State) (now : Z) (price : float) :
  openMap !! sym = Some t →
  dateNow w s = (Ok now, s1) →
  tickerPrice w env sym s1 = (Ok price, s2) →
  priceUsable price = true →
  stopLossBreached t price = false →
  takeProfitBreached t price = false →
  maxLossPerTradeUsd cfg = Some cap →
  Js.gtb cap 0 = true →
  Js.isFinite (unrealizedPnl t price) = true →
  (unrealizedPnl t price <=? - Js.Math_abs cap)%float = true →
  let reason := MaxLossHit (- Js.Math_abs cap) in
  exitDecision cfg t now price = Some reason
  ∧ enforceExit w env cfg openMap sym s
    = closeToFlat w env sym t now price reason openMap s2.
Proof.
  intros Ht Hnow Hprice Husable Hsl Htp Hcap Hpos Hfin Hloss reason.
  assert (Hd : exitDecision cfg t now price = Some reason).
  { unfold exitDecision, maxLossBreached. rewrite Hsl, Htp, andb_false_r, Hcap, Hpos.
    cbv zeta. rewrite Hfin, Hloss. reflexivity. }
  split; [exact Hd |].
  unfold enforceExit. rewrite Ht.
  rewrite (run_bind_ok _ _ _ _ _ Hnow). rewrite (run_bind_ok _ _ _ _ _ Hprice).
  rewrite Husable. simpl. rewrite Hd. reflexivity.
Qed.

Lemma max_loss_ignores_min_hold_witness :
  let w := Scenario.quoting 95.5 in
  let s := Sample.state in
  let s1 := (dateNow w s).2 in
  let s2 := (tickerPrice w Sample.env "ETHUSDT" s1).2 in
  let reason := MaxLossHit (-200) in
  Scenario.openEth !! "ETHUSDT" = Some Scenario.longEth
  ∧ dateNow w s = (Ok 1000%Z, s1)
  ∧ tickerPrice w Sample.env "ETHUSDT" s1 = (Ok 95.5%float, s2)
  ∧ priceUsable 95.5 = true
  ∧ stopLossBreached Scenario.longEth 95.5 = false
  ∧ takeProfitBreached Scenario.longEth 95.5 = false
  ∧ maxLossPerTradeUsd DEFAULT_VIBE_CONFIG = Some 200%float
  ∧ Js.gtb 200 0 = true
  ∧ unrealizedPnl Scenario.longEth 95.5 = (-225)%float
  ∧ minHoldOk Scenario.longEth 1000 = false
  ∧ exitDecision DEFAULT_VIBE_CONFIG Scenario.longEth 1000 95.5 = Some reason
  ∧ enforceExit w Sample.env DEFAULT_VIBE_CONFIG Scenario.openEth "ETHUSDT" s
    = closeToFlat w Sample.env "ETHUSDT" Scenario.longEth 1000 95.5 reason
        Scenario.openEth s2.
Proof.
  intros w s s1 s2 reason.
  assert (H1 : Scenario.openEth !! "ETHUSDT" = Some Scenario.longEth) by reflexivity.
  assert (H2 : dateNow w s = (Ok 1000%Z, s1)) by reflexivity.
  assert (H3 : tickerPrice w Sample.env "ETHUSDT" s1 = (Ok 95.5%float, s2)) by reflexivity.
  assert (H4 : priceUsable 95.5 = true) by reflexivity.
  assert (H5 : stopLossBreached Scenario.longEth 95.5 = false) by reflexivity.
  assert (H6 : takeProfitBreached Scenario.longEth 95.5 = false) by reflexivity.
  assert (H7 : maxLossPerTradeUsd DEFAULT_VIBE_CONFIG = Some 200%float) by reflexivity.
  assert (H8 : Js.gtb 200 0 = true) by reflexivity.
  assert (H9 : Js.isFinite (unrealizedPnl Scenario.longEth 95.5) = true) by reflexivity.
  assert (H10 : (unrealizedPnl Scenario.longEth 95.5 <=? - Js.Math_abs 200)%float = true)
    by reflexivity.
  split; [exact H1 |]. split; [exact H2 |]. split; [exact H3 |]. split; [exact H4 |].
  split; [exact H5 |]. split; [exact H6 |]. split; [exact H7 |]. split; [exact H8 |].
  split; [reflexivity |]. split; [reflexivity |].
  exact (max_loss_ignores_min_hold w Sample.env DEFAULT_VIBE_CONFIG Scenario.openEth
           "ETHUSDT" Scenario.longEth 200 s s1 s2 1000 95.5 H1 H2 H3 H4 H5 H6 H7 H8 H9 H10).
Defined.


(** ** A lifecycle pass without usable quotes *)

Lemma tickerPrice_quiet (w : World) (env : Env) (sym : string) (s : State) :
  st_kv (tickerPrice w env sym s).2 = st_kv s
  ∧ List.filter isOrder (st_trace (tickerPrice w env sym s).2)
    = List.filter isOrder (st_trace s).
Proof.
  unfold tickerPrice. destruct (String.eqb (apiBase env) ""); simpl.
  - split; reflexivity.
  - split; [reflexivity |]. rewrite List.filter_app. simpl. apply app_nil_r.
Qed.

Lemma enforceExit_no_quote (w : World) (env : Env) (cfg : VibeConfig)
    (openMap : gmap string OpenTrade) (sym : string) (s : State) :
  (∀ sym s0 p s1, tickerPrice w env sym s0 = (Ok p, s1) → priceUsable p = false) →
  ∃ res s', enforceExit w env cfg openMap sym s = (res, s')
    ∧ (res = Ok openMap ∨ ∃ e, res = Throw e)
    ∧ st_kv s' = st_kv s
    ∧ List.filter isOrder (st_trace s') = List.filter isOrder (st_trace s).
Proof.
  intros Hq. unfold enforceExit.
  destruct (openMap !! sym) as [t |].
  2: { eexists _, _. split; [reflexivity |]. split; [right; eexists; reflexivity |].
       split; reflexivity. }
  rewrite run_bind. unfold dateNow at 1. cbv beta iota. rewrite run_bind.
  pose proof (tickerPrice_quiet w env sym (stepped (st_kv s) (st_trace s) s)) as [K T].
  destruct (tickerPrice w env sym (stepped (st_kv s) (st_trace s) s))
    as [[p | e] s1] eqn:E; simpl in K, T.
  - rewrite (Hq _ _ _ _ E). simpl. eexists _, _. split; [reflexivity |].
    split; [left; reflexivity |]. split; assumption.
  - eexists _, _. split; [reflexivity |]. split; [right; eexists; reflexivity |].
    split; assumption.
Qed.

Lemma enforceExit_loop_no_quote (w : World) (env : Env) (cfg : VibeConfig)
    (openMap : gmap string OpenTrade) (l : list string) (s : State) :
  (∀ sym s0 p s1, tickerPrice w env sym s0 = (Ok p, s1) → priceUsable p = false) →
  ∃ res s', foldM (enforceExit w env cfg) openMap l s = (res, s')
    ∧ st_kv s' = st_kv s
    ∧ List.filter isOrder (st_trace s') = List.filter isOrder (st_trace s).
Proof.
  intros Hq. revert s. induction l as [| sym l IH]; intros s; simpl.
  - eexists _, _. split; [reflexivity |]. split; reflexivity.
  - rewrite run_bind.
    destruct (enforceExit_no_quote w env cfg openMap sym s Hq) as (res & s1 & E & R & K & T).
    rewrite E. destruct R as [-> | [e ->]].
    + destruct (IH s1) as (res' & s2 & E' & K' & T'). exists res', s2.
      split; [exact E' |]. split; [rewrite K' | rewrite T']; assumption.
    + eexists _, _. split; [reflexivity |]. split; assumption.
Qed.

Lemma enforceExits_no_quote (w : World) (env : Env) (cfg : VibeConfig) (s : State) :
  (∀ sym s0 p s1, tickerPrice w env sym s0 = (Ok p, s1) → priceUsable p = false) →
  ∃ s', enforceExits w env cfg s = (Ok tt, s')
    ∧ st_kv s' = st_kv s
    ∧ List.filter isOrder (st_trace s') = List.filter isOrder (st_trace s).
Proof.
  intros Hq. unfold enforceExits, tryIgnore, tryCatch, getOpenTrades.
  rewrite !run_bind. unfold kvGet at 1.
  destruct (w_kvFails w (st_step s)).
  { eexists. split; [reflexivity |]. split; reflexivity. }
  cbv beta iota. rewrite run_bind. unfold objectKeys at 1. cbv beta iota.
  rewrite run_bind.
  match goal with
  | |- context [foldM (enforceExit w env cfg) ?m ?l ?st] =>
      destruct (enforceExit_loop_no_quote w env cfg m l st Hq) as (res & s1 & E & K & T)
  end.
  rewrite E. destruct res as [m | e]; simpl; eexists;
    (split; [reflexivity |]); split; assumption.
Qed.

(** X3.  A lifecycle pass that gets no usable quote (the price reads 0,
    NaN or an infinity for every symbol, as it does when no exchange base
    URL is configured) closes nothing: it returns normally, leaves the
    store as it was and sends no order. *)
Theorem no_quote_no_exit (w : World) (env : Env) (cfg : VibeConfig) (s : State) :
  (∀ sym s0 p s1, tickerPrice w env sym s0 = (Ok p, s1) → priceUsable p = false) →
  let r := enforceExits w env cfg s in
  r.1 = Ok tt
  ∧ st_kv r.2 = st_kv s
  ∧ List.filter isOrder (st_trace r.2) = List.filter isOrder (st_trace s).
Proof.
  intros Hq r. subst r.
  destruct (enforceExits_no_quote w env cfg s Hq) as (s' & -> & K & T).
  split; [reflexivity |]. split; assumption.
Qed.

Lemma no_quote_no_exit_witness :
  let r := enforceExits Sample.world Scenario.offline DEFAULT_VIBE_CONFIG Sample.state in
  (∀ sym s0 p s1, tickerPrice Sample.world Scenario.offline sym s0 = (Ok p, s1) →
                  priceUsable p = false)
  ∧ kv_open_trades (st_kv Sample.state) !! "BTCUSDT" = Some Sample.longBtc
  ∧ r.1 = Ok tt
  ∧ st_kv r.2 = st_kv Sample.state
  ∧ List.filter isOrder (st_trace r.2) = List.filter isOrder (st_trace Sample.state).
Proof.
  intros r.
  assert (H : ∀ sym s0 p s1, tickerPrice Sample.world Scenario.offline sym s0 = (Ok p, s1) →
                             priceUsable p = false).
  { intros sym s0 p s1 E. inversion E. reflexivity. }
  split; [exact H |]. split; [reflexivity |].
  exact (no_quote_no_exit Sample.world Scenario.offline DEFAULT_VIBE_CONFIG Sample.state H).
Defined.

(** ** Exchange rules of a symbol *)

(** X4.  Whatever the exchange-info reply, [stepSizeForSymbol] returns a
    finite, positive lot step (0.0001 when the reply has no usable
    LOT_SIZE step for the symbol), and a minimum notional only when it is
    finite and positive; in particular a division by the step never
    divides by zero. *)
Theorem step_size_is_positive (info : ExchangeInfo) (sym : string) :
  (0 <? step (stepSizeForSymbol info sym))%float = true
  ∧ Js.isFinite (step (stepSizeForSymbol info sym)) = true
  ∧ (∀ mn, minNotional (stepSizeForSymbol info sym) = Some mn →
           (0 <? mn)%float = true ∧ Js.isFinite mn = true)
  ∧ stepSizeForSymbol None sym = {| step := 0.0001; minNotional := None |}.
Proof.
  unfold stepSizeForSymbol. cbv zeta. simpl step. simpl minNotional.
  split; [| split; [| split]].
  - match goal with |- context [if ?c then _ else _] => destruct c eqn:E end.
    + apply andb_true_iff in E as [_ E]. exact E.
    + reflexivity.
  - match goal with |- context [if ?c then _ else _] => destruct c eqn:E end.
    + apply andb_true_iff in E as [E _]. exact E.
    + reflexivity.
  - intros mn.
    match goal with |- context [if ?c then _ else _] => destruct c eqn:E end;
      [| discriminate].
    intros H. inversion H. subst mn. apply andb_true_iff in E as [E1 E2].
    split; assumption.
  - reflexivity.
Qed.


(** ** Gates of the order path *)

Lemma appendLog_confined (w : World) (W : Key → bool) (P : Effect → bool) entry :
  W K_logs = true → confined W P (appendLog w entry).
Proof. intros HW. unfold appendLog. confined_auto. Qed.

Lemma appendLog_quiet (w : World) entry (s : State) :
  st_trace (appendLog w entry s).2 = st_trace s
  ∧ ∀ k, logsOnly k = false → kvRead k (st_kv (appendLog w entry s).2) = kvRead k (st_kv s).
Proof.
  pose proof (appendLog_confined w logsOnly noEffect entry eq_refl) as H.
  split; [exact (confined_nothing logsOnly _ s H) | exact (proj1 (H s))].
Qed.

(** The order path when the gate [!shouldSkip && notional >= 10] is
    closed: no effect, and no write but to the logs. *)
Lemma executeOrder_gated (w : World) (env : Env) (a : Action) (sym : string)
    (size : float) (meta : Meta) (s : State) :
  let now := w_now w (st_step s) in
  (∀ losses : nat * float,
     (w_kvFails w (S (S (st_step s))) = true → losses = (O, 0%float)) →
     (w_kvFails w (S (S (st_step s))) = false →
      losses = recentLosses now (kv_trades (st_kv s))) →
     negb (negb (coolOk (st_rt s) now)
           || (bool_decide (4 ≤ fst losses)%nat && (snd losses <? -150)%float))
     && Js.geb size 10 = false) →
  ∃ res s', executeOrder w env a sym size meta s = (res, s')
    ∧ st_trace s' = st_trace s
    ∧ ∀ k, logsOnly k = false → kvRead k (st_kv s') = kvRead k (st_kv s).
Proof.
  intros now Hgate. unfold executeOrder, tryCatch at 1.
  destruct (isEntry a && Js.truthyS (ASTER_API_SECRET env)).
  2: { eexists _, _. split; [reflexivity |]. split; reflexivity. }
  rewrite run_bind. unfold dateNow at 1. cbv beta iota.
  rewrite run_bind. unfold getRt at 1. cbv beta iota.
  rewrite run_bind. unfold getOpenTrades, kvGet at 1. simpl st_step.
  destruct (w_kvFails w (S (st_step s))).
  { cbv beta iota.
    pose proof (appendLog_quiet w (vibe_order_error "KV get failed")
                  (stepped (st_kv (stepped (st_kv s) (st_trace s) s))
                     (st_trace (stepped (st_kv s) (st_trace s) s))
                     (stepped (st_kv s) (st_trace s) s))) as [T K].
    destruct (appendLog _ _ _) as [res s']. eexists _, _. split; [reflexivity |].
    split; [exact T | exact K]. }
  cbv beta iota. rewrite run_bind. unfold tryCatch at 1. rewrite run_bind.
  unfold kvGet at 1. simpl st_step. simpl st_rt.
  destruct (w_kvFails w (S (S (st_step s)))) eqn:Ef; cbv beta iota.
  - unfold mret at 1, M_ret at 1. cbv beta iota.
    change (st_rt (stepped (st_kv s) (st_trace s) s)) with (st_rt s). fold now.
    rewrite (Hgate (O, 0%float)); [| reflexivity | discriminate].
    eexists _, _. split; [reflexivity |]. split; reflexivity.
  - unfold mret at 1, M_ret at 1. cbv beta iota.
    change (st_rt (stepped (st_kv s) (st_trace s) s)) with (st_rt s).
    change (kvRead K_trades (st_kv (stepped (st_kv (stepped (st_kv s) (st_trace s) s))
              (st_trace (stepped (st_kv s) (st_trace s) s))
              (stepped (st_kv s) (st_trace s) s)))) with (kv_trades (st_kv s)).
    fold now.
    rewrite (Hgate (recentLosses now (kv_trades (st_kv s)))); [| discriminate | reflexivity].
    eexists _, _. split; [reflexivity |]. split; reflexivity.
Qed.

(** X6.  Cooldown: when the runtime records an order placed at most three
    minutes before the order path reads the clock, the order path sends
    nothing to the exchange (no price request, no order) and leaves the
    open and the closed trades as they are, whatever the action, the size
    and the state of the store. *)
Theorem cooldown_blocks_entry (w : World) (env : Env) (a : Action) (sym : string)
    (size : float) (meta : Meta) (s : State) (t : Z) :
  lastOrderAt (st_rt s) = Some t →
  t ≠ 0%Z →
  (w_now w (st_step s) - t ≤ 3 * 60 * 1000)%Z →
  let r := executeOrder w env a sym size meta s in
  st_trace r.2 = st_trace s
  ∧ kv_open_trades (st_kv r.2) = kv_open_trades (st_kv s)
  ∧ kv_trades (st_kv r.2) = kv_trades (st_kv s).
Proof.
  intros Hlast Ht Hnow r.
  assert (Hcool : coolOk (st_rt s) (w_now w (st_step s)) = false).
  { unfold coolOk. rewrite Hlast. apply orb_false_iff. split.
    - apply Z.eqb_neq, Ht.
    - apply Z.ltb_ge, Hnow. }
  destruct (executeOrder_gated w env a sym size meta s) as (res & s' & E & T & K).
  { intros losses _ _. rewrite Hcool. reflexivity. }
  subst r. rewrite E. cbn [snd]. split; [exact T |].
  split; [exact (K K_open_trades eq_refl) | exact (K K_trades eq_refl)].
Qed.

Lemma cooldown_blocks_entry_witness :
  let rt := {| lastTickAt := Some 900%Z; lastError := None; lastProvider := None;
               lastModel := None; lastOrderAt := Some 900%Z; lastSignal := Some ActLONG |} in
  let s := Scenario.stateWith Sample.store rt in
  let r := executeOrder Sample.world Sample.env ActSHORT "BTCUSDT" 500 emptyMeta s in
  lastOrderAt (st_rt s) = Some 900%Z
  ∧ 900%Z ≠ 0%Z
  ∧ (w_now Sample.world (st_step s) - 900 ≤ 3 * 60 * 1000)%Z
  ∧ st_trace r.2 = st_trace s
  ∧ kv_open_trades (st_kv r.2) = kv_open_trades (st_kv s)
  ∧ kv_trades (st_kv r.2) = kv_trades (st_kv s).
Proof.
  intros rt s r.
  assert (H1 : lastOrderAt (st_rt s) = Some 900%Z) by reflexivity.
  assert (H2 : 900%Z ≠ 0%Z) by lia.
  assert (H3 : (w_now Sample.world (st_step s) - 900 ≤ 3 * 60 * 1000)%Z)
    by (vm_compute; discriminate).
  split; [exact H1 |]. split; [exact H2 |]. split; [exact H3 |].
  exact (cooldown_blocks_entry Sample.world Sample.env ActSHORT "BTCUSDT" 500 emptyMeta
           s 900 H1 H2 H3).
Defined.

(** X7.  Minimum size: when the clamped size is not at least 10 (USD),
    which includes a NaN size, the order path sends nothing to the
    exchange and leaves the open and the closed trades as they are. *)
Theorem small_size_blocks_entry (w : World) (env : Env) (a : Action) (sym : string)
    (size : float) (meta : Meta) (s : State) :
  Js.geb size 10 = false →
  let r := executeOrder w env a sym size meta s in
  st_trace r.2 = st_trace s
  ∧ kv_open_trades (st_kv r.2) = kv_open_trades (st_kv s)
  ∧ kv_trades (st_kv r.2) = kv_trades (st_kv s).
Proof.
  intros Hsize r.
  destruct (executeOrder_gated w env a sym size meta s) as (res & s' & E & T & K).
  { intros losses _ _. rewrite Hsize. apply andb_false_r. }
  subst r. rewrite E. cbn [snd]. split; [exact T |].
  split; [exact (K K_open_trades eq_refl) | exact (K K_trades eq_refl)].
Qed.

Lemma small_size_blocks_entry_witness :
  let r := executeOrder Sample.world Sample.env ActLONG "BTCUSDT" 9 emptyMeta Sample.state in
  Js.geb 9 10 = false
  ∧ Js.geb nan 10 = false
  ∧ st_trace r.2 = st_trace Sample.state
  ∧ kv_open_trades (st_kv r.2) = kv_open_trades (st_kv Sample.state)
  ∧ kv_trades (st_kv r.2) = kv_trades (st_kv Sample.state).
Proof.
  intros r.
  assert (H : Js.geb 9 10 = false) by reflexivity.
  split; [exact H |]. split; [reflexivity |].
  exact (small_size_blocks_entry Sample.world Sample.env ActLONG "BTCUSDT" 9 emptyMeta
           Sample.state H).
Defined.

(** X8.  Loss streak: when, among the last ten closed trades, at least
    four closed with a loss less than thirty minutes before the order path
    reads the clock and their losses total below -150, and the store
    answers the read of the closed trades, the order path sends nothing to
    the exchange and leaves the open and the closed trades as they are. *)
Theorem loss_streak_blocks_entry (w : World) (env : Env) (a : Action) (sym : string)
    (size : float) (meta : Meta) (s : State) (n : nat) (total : float) :
  kvReliable w →
  recentLosses (w_now w (st_step s)) (kv_trades (st_kv s)) = (n, total) →
  4 ≤ n →
  (total <? -150)%float = true →
  let r := executeOrder w env a sym size meta s in
  st_trace r.2 = st_trace s
  ∧ kv_open_trades (st_kv r.2) = kv_open_trades (st_kv s)
  ∧ kv_trades (st_kv r.2) = kv_trades (st_kv s).
Proof.
  intros Hkv Hloss Hn Htot r.
  destruct (executeOrder_gated w env a sym size meta s) as (res & s' & E & T & K).
  { intros losses H1 H2. rewrite (H2 (Hkv _)), Hloss. simpl fst. simpl snd.
    rewrite Htot, bool_decide_eq_true_2 by exact Hn. rewrite orb_true_r. reflexivity. }
  subst r. rewrite E. cbn [snd]. split; [exact T |].
  split; [exact (K K_open_trades eq_refl) | exact (K K_trades eq_refl)].
Qed.

Lemma loss_streak_blocks_entry_witness :
  let lost := {| ct_symbol := "BTCUSDT"; ct_side := LONG; ct_qty := 2; ct_entryPrice := 100;
                 ct_exitPrice := 80; ct_notionalEntry := 200; ct_notionalExit := 160;
                 ct_openedAt := 0; ct_closedAt := 900; ct_holdingMs := 900;
                 ct_pnlUsd := -40; ct_provider := None; ct_model := None;
                 ct_thesis := None |} in
  let s := Scenario.stateWith (kvWrite K_trades [lost; lost; lost; lost] emptyStore)
             emptyRuntime in
  let r := executeOrder Sample.world Sample.env ActLONG "BTCUSDT" 500 emptyMeta s in
  kvReliable Sample.world
  ∧ recentLosses (w_now Sample.world (st_step s)) (kv_trades (st_kv s)) = (4, (-160)%float)
  ∧ 4 ≤ 4
  ∧ (-160 <? -150)%float = true
  ∧ st_trace r.2 = st_trace s
  ∧ kv_open_trades (st_kv r.2) = kv_open_trades (st_kv s)
  ∧ kv_trades (st_kv r.2) = kv_trades (st_kv s).
Proof.
  intros lost s r.
  assert (H1 : kvReliable Sample.world) by (intros n; reflexivity).
  assert (H2 : recentLosses (w_now Sample.world (st_step s)) (kv_trades (st_kv s))
               = (4, (-160)%float)) by reflexivity.
  assert (H3 : 4 ≤ 4) by lia.
  assert (H4 : (-160 <? -150)%float = true) by reflexivity.
  split; [exact H1 |]. split; [exact H2 |]. split; [exact H3 |]. split; [exact H4 |].
  exact (loss_streak_blocks_entry Sample.world Sample.env ActLONG "BTCUSDT" 500 emptyMeta
           s 4 (-160) H1 H2 H3 H4).
Defined.


(** ** Invariants of a whole tick *)

Section Preserves.

Context {A B : Type}.
Variable Q : State → Prop.

Lemma preserves_ret (a : A) : preserves Q (mret a).
Proof. intros s H. exact H. Qed.

Lemma preserves_bind (m : M A) (k : A → M B) :
  preserves Q m → (∀ a, preserves Q (k a)) → preserves Q (m ≫= k).
Proof.
  intros Hm Hk s H. rewrite run_bind. specialize (Hm s H).
  destruct (m s) as [[a | e] s1]; simpl in *; [apply Hk, Hm | exact Hm].
Qed.

Lemma preserves_tryCatch (m : M A) (h : string → M A) :
  preserves Q m → (∀ e, preserves Q (h e)) → preserves Q (tryCatch m h).
Proof.
  intros Hm Hh s H. unfold tryCatch. specialize (Hm s H).
  destruct (m s) as [[a | e] s1]; simpl in *; [exact Hm | apply Hh, Hm].
Qed.

Lemma preserves_tryFinally (m : M A) (fin : M unit) :
  preserves Q m → preserves Q fin → preserves Q (tryFinally m fin).
Proof.
  intros Hm Hf s H. unfold tryFinally. specialize (Hm s H).
  destruct (m s) as [r s1]. specialize (Hf s1 Hm).
  destruct (fin s1) as [[u | e] s2]; exact Hf.
Qed.

End Preserves.

(** A run that does not write the keys a property reads keeps it. *)
Lemma within_preserves {A} (W : Key → bool) (entries : bool) (Q : State → Prop) (m : M A) :
  (∀ s s', (∀ k, W k = false → kvRead k (st_kv s') = kvRead k (st_kv s)) → Q s → Q s') →
  within W entries m → preserves Q m.
Proof. intros HQ Hm s H. exact (HQ s _ (proj1 (Hm s)) H). Qed.

Section BaselineFootprint.

Variable w : World.

Local Hint Resolve appendLog_within consultOracle_within narrateFlat_within
  logDecision_within tickFailed_within marketSnapshot_within enforceExits_within
  executeOrder_within executeOrder_flat_within sampleEquity_within : within.

Local Hint Extern 1 (notBaseline _ = true) => reflexivity : within.

Lemma executeOrder_notBaseline env a sym size meta :
  within notBaseline true (executeOrder w env a sym size meta).
Proof.
  destruct (isEntry a && Js.truthyS (ASTER_API_SECRET env)) eqn:Ha.
  - apply executeOrder_within; first [assumption | reflexivity].
  - apply executeOrder_flat_within; first [assumption | reflexivity].
Qed.

Local Hint Resolve executeOrder_notBaseline : within.

Lemma tickAttempt_notBaseline env ctx : within notBaseline true (tickAttempt w env ctx).
Proof.
  unfold tickAttempt. apply within_tryCatch.
  - unfold tickBody. within_auto.
  - intros e. apply tickFailed_within; reflexivity.
Qed.

Lemma afterBaseline_notBaseline env ctx :
  within notBaseline true
    (_ ← marketSnapshot w env (cx_cfg ctx); enforceExits w env (cx_cfg ctx)).
Proof. within_auto. Qed.

Lemma sampleEquity_notBaseline x : within notBaseline true (sampleEquity w x).
Proof. apply sampleEquity_within; [reflexivity | intros dk; reflexivity]. Qed.

End BaselineFootprint.

Lemma storeInitialEquity_keeps (w : World) (x : float) (e0 : EquitySample) :
  preserves (λ s, kv_initial_equity (st_kv s) = Some e0) (storeInitialEquity w x).
Proof.
  intros s H. unfold storeInitialEquity, tryIgnore, tryCatch. rewrite run_bind.
  unfold kvGet at 1. destruct (w_kvFails w (st_step s)); [exact H |].
  cbv beta iota.
  change (kvRead K_initial_equity (st_kv s)) with (kv_initial_equity (st_kv s)).
  rewrite H. exact H.
Qed.

(** X9.  "Store baseline initial equity once": a tick never replaces or
    removes a baseline that is already stored, whatever the world does
    (exchange replies, oracle reply, store outages) and however the tick
    ends. *)
Theorem baseline_equity_stored_once (w : World) (env : Env) (ignoreStatus : bool)
    (s : State) (e0 : EquitySample) :
  kv_initial_equity (st_kv s) = Some e0 →
  kv_initial_equity (st_kv (vibeTick w env ignoreStatus s).2) = Some e0.
Proof.
  set (Q := λ s : State, kv_initial_equity (st_kv s) = Some e0).
  assert (HW : ∀ {A} entries (m : M A), within notBaseline entries m → preserves Q m).
  { intros A entries m. apply within_preserves. intros s0 s' K H.
    unfold Q in *. rewrite <- H. exact (K K_initial_equity eq_refl). }
  revert s. change (preserves Q (vibeTick w env ignoreStatus)).
  unfold vibeTick. apply preserves_bind.
  { apply (HW _ true). apply tickPrelude_within. }
  intros [ctx |]; [| apply preserves_ret].
  apply preserves_bind.
  { unfold tickPreparation. apply preserves_bind; [apply storeInitialEquity_keeps |].
    intros _. apply (HW _ true). apply afterBaseline_notBaseline. }
  intros _. apply preserves_tryFinally.
  - apply (HW _ true), tickAttempt_notBaseline.
  - apply (HW _ true), sampleEquity_notBaseline.
Qed.

Lemma baseline_equity_stored_once_witness :
  let e0 := {| es_at := 5; es_equityUsd := 800 |} in
  let s := Scenario.stateWith (kvWrite K_initial_equity (Some e0) Sample.store)
             emptyRuntime in
  kv_initial_equity (st_kv s) = Some e0
  ∧ (accountSnapshot Sample.world Sample.env s).1 = Ok (900, 1000, 1000)%float
  ∧ kv_initial_equity (st_kv (vibeTick Sample.world Sample.env false s).2) = Some e0.
Proof.
  intros e0 s.
  assert (H : kv_initial_equity (st_kv s) = Some e0) by reflexivity.
  split; [exact H |]. split; [reflexivity |].
  exact (baseline_equity_stored_once Sample.world Sample.env false s e0 H).
Defined.


(** ** The run status and the two kinds of tick *)

Lemma tickPrelude_stopped (w : World) (env : Env) (s : State) (cfg : VibeConfig) :
  kv_config (st_kv s) = Some cfg →
  status cfg = stopped →
  ∃ res s', tickPrelude w env false s = (res, s')
    ∧ (res = Ok None ∨ ∃ e, res = Throw e)
    ∧ (kvReliable w → res = Ok None)
    ∧ st_kv s' = st_kv s ∧ st_trace s' = st_trace s.
Proof.
  intros Hcfg Hst. unfold tickPrelude. rewrite run_bind. unfold kvGet at 1.
  destruct (w_kvFails w (st_step s)) eqn:F1.
  { eexists _, _. split; [reflexivity |]. split; [right; eexists; reflexivity |].
    split; [| split; reflexivity]. intros Hkv. rewrite Hkv in F1. discriminate F1. }
  cbv beta iota zeta. rewrite run_bind. unfold kvGet at 1. simpl st_step.
  destruct (w_kvFails w (S (st_step s))) eqn:F2.
  { eexists _, _. split; [reflexivity |]. split; [right; eexists; reflexivity |].
    split; [| split; reflexivity]. intros Hkv. rewrite Hkv in F2. discriminate F2. }
  cbv beta iota. rewrite run_bind. unfold setRt at 1. cbv beta iota.
  rewrite run_bind. unfold kvGet at 1. simpl st_step.
  destruct (w_kvFails w (S (S (st_step s)))) eqn:F3.
  { eexists _, _. split; [reflexivity |]. split; [right; eexists; reflexivity |].
    split; [| split; reflexivity]. intros Hkv. rewrite Hkv in F3. discriminate F3. }
  cbv beta iota.
  change (kvRead K_config (st_kv s)) with (kv_config (st_kv s)). rewrite Hcfg.
  unfold isRunning.
  change (default DEFAULT_VIBE_CONFIG (Some cfg)) with cfg. rewrite Hst. cbn [negb andb].
  eexists _, _. split; [reflexivity |]. split; [left; reflexivity |].
  split; [reflexivity |]. split; reflexivity.
Qed.

Lemma handleVibeTick_stopped (w : World) (env : Env) (s : State) (cfg : VibeConfig) :
  kv_config (st_kv s) = Some cfg →
  status cfg = stopped →
  ∃ res s', handleVibeTick w env s = (res, s')
            ∧ (res = Ok TickSkipped ∨ ∃ e, res = Throw e)
            ∧ (kvReliable w → res = Ok TickSkipped)
            ∧ st_kv s' = st_kv s
            ∧ st_trace s' = st_trace s.
Proof.
  intros Hcfg Hst.
  destruct (tickPrelude_stopped w env s cfg Hcfg Hst) as (res & s' & E & R & Rk & K & T).
  exists (match res with Ok _ => Ok TickSkipped | Throw e => Throw e end), s'.
  split; [| split; [| split; [| split; assumption]]].
  - unfold handleVibeTick, vibeTick. rewrite run_bind, E.
    destruct R as [-> | [e ->]]; reflexivity.
  - destruct R as [-> | [e ->]]; [left; reflexivity | right; eexists; reflexivity].
  - intros Hkv. rewrite (Rk Hkv). reflexivity.
Qed.

(** X11.  While the stored configuration says "stopped", a tick requested
    over HTTP ([POST /api/vibe/tick]) is skipped: it answers
    [{ skipped: 'stopped' }] (or throws, when a store read fails), writes
    nothing to the store and calls neither the exchange nor the oracle. *)
Theorem stopped_engine_skips_manual_tick (w : World) (env : Env) (s : State)
    (cfg : VibeConfig) :
  kv_config (st_kv s) = Some cfg →
  status cfg = stopped →
  let r := handleVibeTick w env s in
  (r.1 = Ok TickSkipped ∨ ∃ e, r.1 = Throw e)
  ∧ (kvReliable w → r.1 = Ok TickSkipped)
  ∧ st_kv r.2 = st_kv s
  ∧ st_trace r.2 = st_trace s.
Proof.
  intros Hcfg Hst r.
  destruct (handleVibeTick_stopped w env s cfg Hcfg Hst) as (res & s' & E & R & Rk & K & T).
  subst r. rewrite E. cbn [fst snd].
  split; [exact R |]. split; [exact Rk |]. split; [exact K | exact T].
Qed.

Lemma stopped_engine_skips_manual_tick_witness :
  let cfg := {| status := stopped; universe := ["BTCUSDT"]; maxRiskPerTradeUsd := 1500;
                maxDailyLossUsd := 2000; maxExposureUsd := 10000; leverageCap := 5;
                marginMode := cross; model := "qwen2.5-32b-instruct";
                maxLossPerTradeUsd := Some 200%float |} in
  let s := Scenario.stateWith (kvWrite K_config (Some cfg) Sample.store) emptyRuntime in
  let r := handleVibeTick Sample.world Sample.env s in
  kv_config (st_kv s) = Some cfg
  ∧ status cfg = stopped
  ∧ (r.1 = Ok TickSkipped ∨ ∃ e, r.1 = Throw e)
  ∧ (kvReliable Sample.world → r.1 = Ok TickSkipped)
  ∧ st_kv r.2 = st_kv s
  ∧ st_trace r.2 = st_trace s.
Proof.
  intros cfg s r.
  assert (H1 : kv_config (st_kv s) = Some cfg) by reflexivity.
  assert (H2 : status cfg = stopped) by reflexivity.
  split; [exact H1 |]. split; [exact H2 |].
  exact (stopped_engine_skips_manual_tick Sample.world Sample.env s cfg H1 H2).
Defined.

Lemma tickPrelude_ignoring (w : World) (env : Env) :
  post (tickPrelude w env true) (λ ctx, ctx ≠ None).
Proof.
  unfold tickPrelude. apply post_bind. intros cfg. cbv zeta.
  apply post_bind. intros rt. apply post_bind. intros _. apply post_bind. intros events.
  rewrite andb_false_r. apply post_bind. intros snap. apply post_ret. discriminate.
Qed.

Lemma tickAttempt_not_skipped (w : World) (env : Env) (ctx : TickCtx) :
  post (tickAttempt w env ctx) (λ res, res ≠ TickSkipped).
Proof.
  intros s res s' E. unfold tickAttempt, tryCatch in E.
  destruct (tickBody w env ctx s) as [[res0 | e] s1] eqn:E1.
  - inversion E. subst res0 s1. revert E1. clear E.
    generalize s res s'. change (post (tickBody w env ctx) (λ res, res ≠ TickSkipped)).
    unfold tickBody. cbv zeta. repeat (apply post_bind; intros ?).
    apply post_ret. discriminate.
  - revert E. generalize s1 res s'.
    change (post (tickFailed w e) (λ res, res ≠ TickSkipped)).
    unfold tickFailed. repeat (apply post_bind; intros ?). apply post_ret. discriminate.
Qed.

(** X12.  The scheduled tick does not honour the run status: the cron
    trigger calls [vibeTick] with [ignoreStatus = true], and such a tick is
    never answered [{ skipped: 'stopped' }], whatever the stored
    configuration says; stopping the engine halts HTTP-requested ticks
    only. *)
Theorem scheduled_tick_ignores_status (w : World) (env : Env) (s : State) :
  (scheduled w env s).2 = (vibeTick w env true s).2
  ∧ (vibeTick w env true s).1 ≠ Ok TickSkipped.
Proof.
  split.
  - unfold scheduled. rewrite run_bind.
    destruct (vibeTick w env true s) as [[res | e] s']; reflexivity.
  - unfold vibeTick. rewrite run_bind.
    destruct (tickPrelude w env true s) as [[ctx | e] s1] eqn:E1; [| discriminate].
    pose proof (tickPrelude_ignoring w env s ctx s1 E1) as Hctx.
    destruct ctx as [ctx |]; [| congruence].
    rewrite run_bind. destruct (tickPreparation_ok w env ctx s1) as (s2 & ->).
    unfold tryFinally.
    destruct (tickAttempt w env ctx s2) as [[res | e] s3] eqn:E3.
    + pose proof (tickAttempt_not_skipped w env ctx s2 res s3 E3) as Hres.
      destruct (sampleEquity w (cx_sampledEquity ctx) s3) as [[u | e] s4]; simpl;
        [congruence | discriminate].
    + destruct (sampleEquity w (cx_sampledEquity ctx) s3) as [[u | e'] s4]; simpl;
        discriminate.
Qed.


(** ** Run, stop and status *)

Section RunStop.

Variable w : World.
Hypothesis Hkv : kvReliable w.

Lemma handleVibeStop_run env req s :
  adminRejected env req = false →
  let cfg := default DEFAULT_VIBE_CONFIG (kv_config (st_kv s)) in
  let next :=
    {| status := stopped; universe := universe cfg;
       maxRiskPerTradeUsd := maxRiskPerTradeUsd cfg;
       maxDailyLossUsd := maxDailyLossUsd cfg;
       maxExposureUsd := maxExposureUsd cfg;
       leverageCap := leverageCap cfg; marginMode := marginMode cfg;
       model := model cfg; maxLossPerTradeUsd := maxLossPerTradeUsd cfg |} in
  ∃ s', handleVibeStop w env req s = (Ok (okConfig next), s')
    ∧ kv_config (st_kv s') = Some next
    ∧ kv_logs (st_kv s')
      = pushBounded 500 (kv_logs (st_kv s))
          {| log_at := w_now w (3 + st_step s); log_body := vibe_status_run stopped |}
    ∧ (∀ k, k ≠ K_config → k ≠ K_logs → kvRead k (st_kv s') = kvRead k (st_kv s))
    ∧ st_trace s' = st_trace s.
Proof.
  intros Hauth cfg next. unfold handleVibeStop. rewrite Hauth.
  rewrite run_bind, (kvGet_run w Hkv). cbv zeta.
  rewrite run_bind, (kvPut_run w Hkv).
  rewrite run_bind.
  match goal with
  | |- context [appendLog w ?e ?st] =>
      destruct (appendLog_run w Hkv e st) as (s' & E & K & _ & T & _)
  end.
  rewrite E.
  exists s'. split; [reflexivity |]. rewrite K, T.
  split; [reflexivity |]. split; [reflexivity |]. split; [| reflexivity].
  intros k H1 H2. etransitivity; [apply kvRead_kvWrite_ne; exact H2 |].
  exact (kvRead_kvWrite_ne k K_config _ (st_kv s) H1).
Qed.

Lemma handleVibeRun_run env req s :
  adminRejected env req = false →
  let cfg := default DEFAULT_VIBE_CONFIG (kv_config (st_kv s)) in
  let body := req_run req in
  let next :=
    {| status := running;
       universe := match ro_universe body with
                   | Some (x :: u) => x :: u
                   | _ => universe cfg
                   end;
       maxRiskPerTradeUsd := default (maxRiskPerTradeUsd cfg) (ro_maxRiskPerTradeUsd body);
       maxDailyLossUsd := default (maxDailyLossUsd cfg) (ro_maxDailyLossUsd body);
       maxExposureUsd := default (maxExposureUsd cfg) (ro_maxExposureUsd body);
       leverageCap := default (leverageCap cfg) (ro_leverageCap body);
       marginMode := if ro_isolated body then isolated else cross;
       model := match ro_model body with
                | Some m => if String.eqb m "" then model cfg else m
                | None => model cfg
                end;
       maxLossPerTradeUsd := Some (default (default nan (maxLossPerTradeUsd cfg))
                                           (ro_maxLossPerTradeUsd body)) |} in
  ∃ s', handleVibeRun w env req s = (Ok (okConfig next), s')
    ∧ kv_config (st_kv s') = Some next
    ∧ kv_logs (st_kv s')
      = pushBounded 500 (kv_logs (st_kv s))
          {| log_at := w_now w (3 + st_step s); log_body := vibe_status_run running |}
    ∧ (∀ k, k ≠ K_config → k ≠ K_logs → kvRead k (st_kv s') = kvRead k (st_kv s))
    ∧ st_trace s' = st_trace s.
Proof.
  intros Hauth cfg body next. unfold handleVibeRun. rewrite Hauth.
  rewrite run_bind, (kvGet_run w Hkv). cbv zeta.
  rewrite run_bind, (kvPut_run w Hkv).
  rewrite run_bind.
  match goal with
  | |- context [appendLog w ?e ?st] =>
      destruct (appendLog_run w Hkv e st) as (s' & E & K & _ & T & _)
  end.
  rewrite E.
  exists s'. split; [reflexivity |]. rewrite K, T.
  split; [reflexivity |]. split; [reflexivity |]. split; [| reflexivity].
  intros k H1 H2. etransitivity; [apply kvRead_kvWrite_ne; exact H2 |].
  exact (kvRead_kvWrite_ne k K_config _ (st_kv s) H1).
Qed.

Lemma handleVibeStatus_run s :
  ∃ s', handleVibeStatus w s
        = (Ok (default DEFAULT_VIBE_CONFIG (kv_config (st_kv s)),
               default emptyRuntime (kv_runtime (st_kv s))), s')
    ∧ st_kv s' = st_kv s ∧ st_trace s' = st_trace s.
Proof.
  unfold handleVibeStatus. rewrite run_bind, (kvGet_run w Hkv).
  rewrite run_bind, (kvGet_run w Hkv). eexists. split; [reflexivity |].
  split; reflexivity.
Qed.

End RunStop.

(** X13.  Stop, then tick.  An authorized [POST /api/vibe/stop] (store
    reliable) stores the current configuration with status "stopped" and
    every other field -- universe, the four limits, margin mode, model,
    per-trade loss cap -- as it was, appends the status change to the
    logs, writes no other key, and answers with that configuration; an
    HTTP-requested tick that follows is skipped, writes nothing and calls
    neither the exchange nor the oracle. *)
Theorem stop_halts_manual_ticks (w : World) (env : Env) (req : Request) (s : State) :
  kvReliable w →
  adminRejected env req = false →
  let cfg := default DEFAULT_VIBE_CONFIG (kv_config (st_kv s)) in
  let next :=
    {| status := stopped;
       universe := universe cfg;
       maxRiskPerTradeUsd := maxRiskPerTradeUsd cfg;
       maxDailyLossUsd := maxDailyLossUsd cfg;
       maxExposureUsd := maxExposureUsd cfg;
       leverageCap := leverageCap cfg;
       marginMode := marginMode cfg;
       model := model cfg;
       maxLossPerTradeUsd := maxLossPerTradeUsd cfg |} in
  let r1 := handleVibeStop w env req s in
  let r2 := handleVibeTick w env r1.2 in
  r1.1 = Ok (okConfig next)
  ∧ kv_config (st_kv r1.2) = Some next
  ∧ kv_logs (st_kv r1.2)
    = pushBounded 500 (kv_logs (st_kv s))
        {| log_at := w_now w (3 + st_step s); log_body := vibe_status_run stopped |}
  ∧ (∀ k, k ≠ K_config → k ≠ K_logs → kvRead k (st_kv r1.2) = kvRead k (st_kv s))
  ∧ r2.1 = Ok TickSkipped
  ∧ st_kv r2.2 = st_kv r1.2
  ∧ st_trace r2.2 = st_trace s.
Proof.
  intros Hkv Hauth cfg next r1 r2.
  destruct (handleVibeStop_run w Hkv env req s Hauth) as (s1 & E1 & K1 & L1 & O1 & T1).
  assert (Hr1 : r1 = (Ok (okConfig next), s1)) by exact E1.
  subst r2. rewrite Hr1. cbn [fst snd].
  destruct (handleVibeTick_stopped w env s1 _ K1 eq_refl)
    as (res & s2 & -> & _ & R & K2 & T2).
  cbn [fst snd].
  split; [reflexivity |]. split; [exact K1 |]. split; [exact L1 |]. split; [exact O1 |].
  split; [exact (R Hkv) |]. split; [exact K2 |].
  rewrite T2. exact T1.
Qed.

Lemma stop_halts_manual_ticks_witness :
  let w := Sample.world in
  let s := Sample.state in
  let next :=
    {| status := stopped;
       universe := universe DEFAULT_VIBE_CONFIG;
       maxRiskPerTradeUsd := 1500;
       maxDailyLossUsd := 2000;
       maxExposureUsd := 10000;
       leverageCap := 5;
       marginMode := cross;
       model := "qwen2.5-32b-instruct";
       maxLossPerTradeUsd := Some 200%float |} in
  let r1 := handleVibeStop w Sample.env authorized s in
  let r2 := handleVibeTick w Sample.env r1.2 in
  kvReliable w
  ∧ adminRejected Sample.env authorized = false
  ∧ r1.1 = Ok (okConfig next)
  ∧ kv_config (st_kv r1.2) = Some next
  ∧ kv_logs (st_kv r1.2) = [{| log_at := 1003; log_body := vibe_status_run stopped |}]
  ∧ (∀ k, k ≠ K_config → k ≠ K_logs → kvRead k (st_kv r1.2) = kvRead k (st_kv s))
  ∧ r2.1 = Ok TickSkipped
  ∧ st_kv r2.2 = st_kv r1.2
  ∧ st_trace r2.2 = st_trace s.
Proof.
  intros w s next r1 r2.
  assert (H1 : kvReliable w) by (intros n; reflexivity).
  assert (H2 : adminRejected Sample.env authorized = false) by reflexivity.
  split; [exact H1 |]. split; [exact H2 |].
  exact (stop_halts_manual_ticks w Sample.env authorized s H1 H2).
Defined.

(** X14.  Run, then status.  An authorized [POST /api/vibe/run] whose
    resulting configuration holds finite numbers only (store reliable)
    stores a configuration with status "running" in which a missing or
    empty universe and a missing or empty model keep the stored values,
    each of the five numeric fields -- per-trade risk, daily loss,
    exposure, leverage cap, per-trade loss cap -- is the given number or,
    when none is given, the stored one, and the margin mode is "isolated"
    only when the body says so (it is reset to "cross" otherwise); it
    appends the status change to the logs, writes no other key, and
    answers with that configuration; [GET /api/vibe/status] then reports
    exactly that configuration, with the runtime untouched. *)
Theorem run_then_status_reports_config (w : World) (env : Env) (req : Request)
    (s : State) :
  kvReliable w →
  adminRejected env req = false →
  let cfg := default DEFAULT_VIBE_CONFIG (kv_config (st_kv s)) in
  let body := req_run req in
  let given := λ (stored : float) (number : option float),
    match number with Some x => x | None => stored end in
  let next :=
    {| status := running;
       universe := match ro_universe body with
                   | None | Some [] => universe cfg
                   | Some (x :: u) => x :: u
                   end;
       maxRiskPerTradeUsd := given (maxRiskPerTradeUsd cfg) (ro_maxRiskPerTradeUsd body);
       maxDailyLossUsd := given (maxDailyLossUsd cfg) (ro_maxDailyLossUsd body);
       maxExposureUsd := given (maxExposureUsd cfg) (ro_maxExposureUsd body);
       leverageCap := given (leverageCap cfg) (ro_leverageCap body);
       marginMode := if ro_isolated body then isolated else cross;
       model := match ro_model body with
                | None | Some "" => model cfg
                | Some m => m
                end;
       maxLossPerTradeUsd :=
         Some (given (match maxLossPerTradeUsd cfg with Some x => x | None => nan end)
                 (ro_maxLossPerTradeUsd body)) |} in
  finiteConfig next = true →
  let r1 := handleVibeRun w env req s in
  let r2 := handleVibeStatus w r1.2 in
  r1.1 = Ok (okConfig next)
  ∧ kv_config (st_kv r1.2) = Some next
  ∧ kv_logs (st_kv r1.2)
    = pushBounded 500 (kv_logs (st_kv s))
        {| log_at := w_now w (3 + st_step s); log_body := vibe_status_run running |}
  ∧ (∀ k, k ≠ K_config → k ≠ K_logs → kvRead k (st_kv r1.2) = kvRead k (st_kv s))
  ∧ r2.1 = Ok (next, default emptyRuntime (kv_runtime (st_kv s)))
  ∧ st_kv r2.2 = st_kv r1.2.
Proof.
  intros Hkv Hauth cfg body given next _ r1 r2.
  destruct (handleVibeRun_run w Hkv env req s Hauth) as (s1 & E1 & K1 & L1 & O1 & T1).
  assert (Hn : next = {| status := running;
       universe := match ro_universe body with
                   | Some (x :: u) => x :: u
                   | _ => universe cfg
                   end;
       maxRiskPerTradeUsd := default (maxRiskPerTradeUsd cfg) (ro_maxRiskPerTradeUsd body);
       maxDailyLossUsd := default (maxDailyLossUsd cfg) (ro_maxDailyLossUsd body);
       maxExposureUsd := default (maxExposureUsd cfg) (ro_maxExposureUsd body);
       leverageCap := default (leverageCap cfg) (ro_leverageCap body);
       marginMode := if ro_isolated body then isolated else cross;
       model := match ro_model body with
                | Some m => if String.eqb m "" then model cfg else m
                | None => model cfg
                end;
       maxLossPerTradeUsd := Some (default (default nan (maxLossPerTradeUsd cfg))
                                           (ro_maxLossPerTradeUsd body)) |}).
  { unfold next, given. f_equal; try reflexivity;
      try (destruct (ro_model body) as [[| c m] |]; reflexivity);
      repeat match goal with
             | |- context [match ?x with _ => _ end] => destruct x
             end; reflexivity. }
  assert (Hr1 : r1 = (Ok (okConfig next), s1)) by (rewrite Hn; exact E1).
  destruct (handleVibeStatus_run w Hkv s1) as (s2 & E2 & K2 & _).
  subst r2. rewrite Hr1. cbn [fst snd]. rewrite E2. cbn [fst snd].
  split; [reflexivity |]. split; [rewrite Hn; exact K1 |]. split; [exact L1 |].
  split; [exact O1 |]. split; [| exact K2].
  f_equal. f_equal.
  - rewrite K1. symmetry. exact Hn.
  - exact (f_equal (default emptyRuntime)
             (O1 K_runtime ltac:(discriminate) ltac:(discriminate))).
Qed.

Lemma run_then_status_reports_config_witness :
  let w := Sample.world in
  let s := Sample.state in
  let next :=
    {| status := running;
       universe := universe DEFAULT_VIBE_CONFIG;
       maxRiskPerTradeUsd := 250;
       maxDailyLossUsd := 2000;
       maxExposureUsd := 10000;
       leverageCap := 5;
       marginMode := cross;
       model := "qwen2.5-32b-instruct";
       maxLossPerTradeUsd := Some 200%float |} in
  let r1 := handleVibeRun w Sample.env authorized s in
  let r2 := handleVibeStatus w r1.2 in
  kvReliable w
  ∧ adminRejected Sample.env authorized = false
  ∧ finiteConfig next = true
  ∧ r1.1 = Ok (okConfig next)
  ∧ kv_config (st_kv r1.2) = Some next
  ∧ kv_logs (st_kv r1.2) = [{| log_at := 1003; log_body := vibe_status_run running |}]
  ∧ (∀ k, k ≠ K_config → k ≠ K_logs → kvRead k (st_kv r1.2) = kvRead k (st_kv s))
  ∧ r2.1 = Ok (next, emptyRuntime)
  ∧ st_kv r2.2 = st_kv r1.2.
Proof.
  intros w s next r1 r2.
  assert (H1 : kvReliable w) by (intros n; reflexivity).
  assert (H2 : adminRejected Sample.env authorized = false) by reflexivity.
  assert (H3 : finiteConfig next = true) by reflexivity.
  split; [exact H1 |]. split; [exact H2 |]. split; [exact H3 |].
  exact (run_then_status_reports_config w Sample.env authorized s H1 H2 H3).
Defined.

(** ** The log ring and the logs endpoint *)

Lemma lastN_length {A} (n : nat) (l : list A) : length (lastN n l) = min n (length l).
Proof. unfold lastN. rewrite length_drop. lia. Qed.

Lemma lastN_snoc {A} (n : nat) (l : list A) (x : A) :
  0 < n → ∃ l', lastN n (l ++ [x]) = l' ++ [x].
Proof.
  intros Hn. unfold lastN. rewrite length_app. simpl.
  exists (drop (length l + 1 - n) l). rewrite drop_app_le by lia. reflexivity.
Qed.

(** X15.  [GET /api/vibe/logs] serves at most 200 entries, newest first;
    the log ring keeps at most 500 entries, dropping the oldest; and right
    after an [appendLog] (store reliable) the first entry served is the
    one just appended, stamped with the time read for it. *)
Theorem logs_endpoint_serves_newest_first (w : World) (entry : LogBody) (s : State) :
  kvReliable w →
  let r1 := appendLog w entry s in
  let r2 := handleVibeLogs w r1.2 in
  let stored := kv_logs (st_kv r1.2) in
  ∃ served ts,
    r1.1 = Ok tt
    ∧ r2.1 = Ok served
    ∧ served = rev (lastN 200 stored)
    ∧ length served ≤ 200
    ∧ head served = Some {| log_at := ts; log_body := entry |}
    ∧ stored = lastN 500 (kv_logs (st_kv s) ++ [{| log_at := ts; log_body := entry |}])
    ∧ length stored ≤ 500.
Proof.
  intros Hkv r1 r2 stored.
  destruct (appendLog_run w Hkv entry s) as (s1 & E1 & K1 & _).
  assert (Hr1 : r1 = (Ok tt, s1)) by exact E1.
  set (e := {| log_at := w_now w (S (st_step s)); log_body := entry |}) in *.
  assert (Hstored : stored = lastN 500 (kv_logs (st_kv s) ++ [e])).
  { unfold stored. rewrite Hr1. cbn [snd]. rewrite K1. simpl.
    apply pushBounded_drop. }
  exists (rev (lastN 200 stored)), (w_now w (S (st_step s))).
  split; [rewrite Hr1; reflexivity |].
  split.
  { subst r2. unfold handleVibeLogs. rewrite run_bind, (kvGet_run w Hkv). reflexivity. }
  split; [reflexivity |].
  split; [rewrite length_rev, lastN_length; lia |].
  split.
  { rewrite Hstored.
    destruct (lastN_snoc 500 (kv_logs (st_kv s)) e) as (l1 & ->); [lia |].
    destruct (lastN_snoc 200 l1 e) as (l2 & ->); [lia |].
    rewrite rev_app_distr. reflexivity. }
  split; [exact Hstored |].
  rewrite Hstored, lastN_length. lia.
Qed.

Lemma logs_endpoint_serves_newest_first_witness :
  let w := Sample.world in
  let s := Sample.state in
  let r1 := appendLog w (vibe_error "boom") s in
  let r2 := handleVibeLogs w r1.2 in
  let stored := kv_logs (st_kv r1.2) in
  kvReliable w
  ∧ ∃ served ts,
      r1.1 = Ok tt
      ∧ r2.1 = Ok served
      ∧ served = rev (lastN 200 stored)
      ∧ length served ≤ 200
      ∧ head served = Some {| log_at := ts; log_body := vibe_error "boom" |}
      ∧ stored = lastN 500 (kv_logs (st_kv s)
                            ++ [{| log_at := ts; log_body := vibe_error "boom" |}])
      ∧ length stored ≤ 500.
Proof.
  intros w s r1 r2 stored.
  assert (H : kvReliable w) by (intros n; reflexivity).
  split; [exact H |].
  exact (logs_endpoint_serves_newest_first w (vibe_error "boom") s H).
Defined.

(** ** The oracle self-test *)

Lemma handleVibeLlmTest_run (w : World) (env : Env) (s : State) :
  ∃ resp s', handleVibeLlmTest w env s = (Ok resp, s')
    ∧ st_kv s' = st_kv s
    ∧ (Js.truthyS (QWEN_API_KEY env) = false →
       (∃ e, resp = LlmTestFailed e) ∧ st_trace s' = st_trace s).
Proof.
  unfold handleVibeLlmTest, tryCatch. rewrite run_bind.
  unfold kvGet at 1. destruct (w_kvFails w (st_step s)).
  { eexists _, _. split; [reflexivity |]. split; [reflexivity |]. intros _.
    split; [eexists; reflexivity | reflexivity]. }
  cbv beta iota. rewrite run_bind. unfold callLLMDecider.
  destruct (Js.truthyS (QWEN_API_KEY env)); cbn [negb]; cbv iota zeta.
  2: { eexists _, _. split; [reflexivity |]. split; [reflexivity |]. intros _.
       split; [eexists; reflexivity | reflexivity]. }
  rewrite run_bind. unfold perform at 1. cbv beta iota.
  destruct (w_llm w _) as [h | e]; cbv beta iota.
  2: { eexists _, _. split; [reflexivity |]. split; [reflexivity |]. discriminate. }
  destruct (llm_ok h); cbn [negb]; cbv iota.
  2: { eexists _, _. split; [reflexivity |]. split; [reflexivity |]. discriminate. }
  destruct (llm_body h); eexists _, _; (split; [reflexivity |]);
    (split; [reflexivity | discriminate]).
Qed.

(** X16.  [GET /api/vibe/llm-test] never throws: whatever the store and
    the oracle do it answers, with status 200 and the parsed reply or with
    status 500 and the error text, and it writes nothing to the store.
    Without [QWEN_API_KEY] it answers 500 and sends no request to the
    oracle. *)
Theorem llm_test_always_answers (w : World) (env : Env) (s : State) :
  (∃ resp, (handleVibeLlmTest w env s).1 = Ok resp)
  ∧ st_kv (handleVibeLlmTest w env s).2 = st_kv s
  ∧ (Js.truthyS (QWEN_API_KEY env) = false →
     (∃ e, (handleVibeLlmTest w env s).1 = Ok (LlmTestFailed e))
     ∧ st_trace (handleVibeLlmTest w env s).2 = st_trace s).
Proof.
  destruct (handleVibeLlmTest_run w env s) as (resp & s' & -> & K & H).
  cbn [fst snd]. split; [eexists; reflexivity |]. split; [exact K |].
  intros Hkey. destruct (H Hkey) as [[e ->] T]. split; [eexists; reflexivity | exact T].
Qed.


(** ** The hex codec *)

Section HexCodec.

Import Hex.

Local Open Scope string_scope.

Lemma decodePairs_short (tail : string) :
  String.length tail < 2 → decodePairs tail = [].
Proof.
  intros H. unfold decodePairs. rewrite Nat.div_small by exact H. reflexivity.
Qed.

Lemma decodePairs_pair (c1 c2 : ascii) (h : string) :
  decodePairs (String c1 (String c2 h))
  = toUint8 (parseInt16 (String c1 (String c2 ""))) :: decodePairs h.
Proof.
  unfold decodePairs. cbn [String.length].
  replace (S (S (String.length h))) with (1 * 2 + String.length h) by lia.
  rewrite Nat.div_add_l by lia.
  change (seq 0 (1 + String.length h / 2)) with (0 :: seq 1 (String.length h / 2)).
  rewrite fmap_cons. f_equal; [destruct h; reflexivity |].
  rewrite <- fmap_S_seq, <- list_fmap_compose. apply list_fmap_ext.
  intros _ i _. unfold compose, pairAt.
  replace (2 * S i) with (S (S (2 * i))) by lia. reflexivity.
Qed.

(** [append] computed on a literal prefix. *)
Ltac norm_app :=
  repeat first
    [ progress change (String ?c ?s +:+ ?t) with (String c (s +:+ t))
    | progress change ("" +:+ ?t) with t ].

Lemma app_empty_r (s : string) : s +:+ "" = s.
Proof.
  induction s as [| c s IH]; [reflexivity |].
  change (String c s +:+ "") with (String c (s +:+ "")). f_equal. exact IH.
Qed.

Lemma concat_empty_cons (x : string) (l : list string) :
  String.concat "" (x :: l) = x +:+ String.concat "" l.
Proof.
  destruct l as [| y l]; [| reflexivity].
  symmetry. apply app_empty_r.
Qed.

Lemma hex_pair_shape (b : Byte.byte) :
  ∃ c1 c2, padStart2 (toString16 b) = String c1 (String c2 "")
           ∧ toUint8 (parseInt16 (String c1 (String c2 ""))) = b.
Proof. destruct b; eexists _, _; split; reflexivity. Qed.

Lemma decodePairs_encoded (bytes : list Byte.byte) (tail : string) :
  String.length tail < 2 →
  decodePairs (String.concat "" ((λ b, padStart2 (toString16 b)) <$> bytes) +:+ tail)
  = bytes.
Proof.
  intros Htail. induction bytes as [| b bytes IH].
  - simpl. apply decodePairs_short, Htail.
  - rewrite fmap_cons, concat_empty_cons.
    destruct (hex_pair_shape b) as (c1 & c2 & -> & Hb).
    norm_app. rewrite decodePairs_pair, Hb. f_equal. exact IH.
Qed.

(** X17.  Decoding what [bytesToHex] produced gives the bytes back:
    [hexToBytes(bytesToHex(b)) = b] for every byte array. *)
Theorem hex_bytes_round_trip (bytes : list Byte.byte) :
  hexToBytes (bytesToHex bytes) = bytes.
Proof.
  unfold hexToBytes, bytesToHex. norm_app.
  rewrite <- (app_empty_r (String.concat "" _)).
  apply decodePairs_encoded. simpl. lia.
Qed.

Lemma isLowerDigit_cases (c : ascii) : isLowerDigit c = true → c ∈ lowerDigits.
Proof.
  destruct c as [[] [] [] [] [] [] [] []]; intros H; try discriminate H;
    unfold lowerDigits; simpl; repeat first [apply list_elem_of_here | apply list_elem_of_further].
Qed.

Lemma lower_pair_table :
  forallb (λ c1, forallb (λ c2,
    String.eqb (padStart2 (toString16
                  (toUint8 (parseInt16 (String c1 (String c2 ""))))))
               (String c1 (String c2 ""))) lowerDigits) lowerDigits = true.
Proof. vm_compute. reflexivity. Qed.

Lemma lower_pair_encodes (c1 c2 : ascii) :
  isLowerDigit c1 = true → isLowerDigit c2 = true →
  padStart2 (toString16 (toUint8 (parseInt16 (String c1 (String c2 "")))))
  = String c1 (String c2 "").
Proof.
  intros H1 H2. apply isLowerDigit_cases, list_elem_of_In in H1.
  apply isLowerDigit_cases, list_elem_of_In in H2.
  pose proof lower_pair_table as T. rewrite forallb_forall in T.
  specialize (T c1 H1). rewrite forallb_forall in T. specialize (T c2 H2).
  apply String.eqb_eq, T.
Qed.

Lemma encode_decoded_pairs (h : string) :
  isLowerHexPairs h = true →
  String.concat "" ((λ b, padStart2 (toString16 b)) <$> decodePairs h) = h.
Proof.
  revert h. fix IH 1. intros h. destruct h as [| c1 [| c2 r]]; intros H.
  - reflexivity.
  - discriminate H.
  - simpl in H. apply andb_true_iff in H as [H Hr]. apply andb_true_iff in H as [H1 H2].
    rewrite decodePairs_pair, fmap_cons, concat_empty_cons.
    rewrite (lower_pair_encodes c1 c2 H1 H2). norm_app.
    f_equal. f_equal. exact (IH r Hr).
Qed.

(** X18.  Encoding what [hexToBytes] decoded gives the text back: for a
    string [h] made of pairs of lower-case radix-16 digits (as the hash
    and signature helpers produce), with or without the [0x] prefix,
    [bytesToHex(hexToBytes(h))] is [0x] followed by [h], and the decoded
    array has one byte per pair. *)
Theorem hex_text_round_trip (h : string) :
  isLowerHexPairs h = true →
  bytesToHex (hexToBytes h) = "0x" +:+ h
  ∧ bytesToHex (hexToBytes ("0x" +:+ h)) = "0x" +:+ h
  ∧ 2 * length (hexToBytes h) = String.length h.
Proof.
  intros H.
  assert (Hplain : hexToBytes h = decodePairs h).
  { unfold hexToBytes, decodePairs.
    destruct h as [| c1 [| c2 r]]; [reflexivity | discriminate H |].
    simpl in H. apply andb_true_iff in H as [H _]. apply andb_true_iff in H as [_ H2].
    destruct c1 as [[] [] [] [] [] [] [] []]; try reflexivity.
    destruct c2 as [[] [] [] [] [] [] [] []]; try reflexivity. discriminate H2. }
  assert (Hprefixed : hexToBytes ("0x" +:+ h) = decodePairs h) by reflexivity.
  rewrite Hprefixed, Hplain. unfold bytesToHex. rewrite (encode_decoded_pairs h H).
  split; [reflexivity |]. split; [reflexivity |].
  clear Hplain Hprefixed. revert h H. fix IH 1. intros h.
  destruct h as [| c1 [| c2 r]]; intros H.
  - reflexivity.
  - discriminate H.
  - simpl in H. apply andb_true_iff in H as [_ Hr].
    rewrite decodePairs_pair. cbn [length String.length]. specialize (IH r Hr). lia.
Qed.

Lemma hex_text_round_trip_witness :
  let h := "00ff10a5deadbeef" in
  isLowerHexPairs h = true
  ∧ hexToBytes h = [Byte.x00; Byte.xff; Byte.x10; Byte.xa5;
                    Byte.xde; Byte.xad; Byte.xbe; Byte.xef]
  ∧ bytesToHex (hexToBytes h) = "0x" +:+ h
  ∧ bytesToHex (hexToBytes ("0x" +:+ h)) = "0x" +:+ h
  ∧ 2 * length (hexToBytes h) = String.length h.
Proof.
  intros h.
  assert (H : isLowerHexPairs h = true) by reflexivity.
  split; [exact H |]. split; [reflexivity |].
  exact (hex_text_round_trip h H).
Defined.

(** X19.  [hexToBytes] never fails and is lenient: it returns one byte
    per complete pair of code units after at most one [0x] prefix, so a
    trailing odd digit is dropped; and a pair that starts with a code unit
    that is neither white space, a sign nor a radix-16 digit decodes to
    the byte 0 (the NaN of [parseInt] stored into a [Uint8Array]). *)
Theorem hex_decoding_is_lenient (bytes : list Byte.byte) (c c1 c2 : ascii) (hex : string) :
  length (hexToBytes ("0x" +:+ hex)) = String.length hex / 2
  ∧ hexToBytes (bytesToHex bytes +:+ String c "") = bytes
  ∧ (isStrWhiteSpace c1 = false → c1 ≠ "-"%char → c1 ≠ "+"%char →
     digitValue c1 = None →
     hexToBytes (String c1 (String c2 "")) = [Byte.x00]).
Proof.
  split; [| split].
  - unfold hexToBytes. norm_app. unfold decodePairs.
    rewrite length_fmap, length_seq. reflexivity.
  - unfold hexToBytes, bytesToHex. norm_app.
    apply (decodePairs_encoded bytes (String c "")). simpl. lia.
  - intros Hws Hminus Hplus Hdigit.
    destruct c1 as [[] [] [] [] [] [] [] []];
      try discriminate Hws; try discriminate Hdigit; try congruence; reflexivity.
Qed.

End HexCodec.


(** ** Routing *)

(** X20.  No request reaches the handlers that rewrite the stored equity
    series (backfill, erase, restore-from-logs, reconstruct): whatever
    the method and the path, [fetch] routes to none of them.  A pre-flight
    request (method OPTIONS) is answered 204 on every path, and an admin
    handler is only reached by the one method its route names. *)
Theorem equity_rewrite_routes_are_disabled (method pathname : string) (op : AdminOp) :
  (rewritesEquity op = true → route method pathname ≠ RAdmin op)
  ∧ route "OPTIONS" pathname = RPreflight
  ∧ (route method pathname = RAdmin op →
     method = match op with OldOpenTrades => "GET" | _ => "POST" end).
Proof.
  split; [| split].
  - intros Hop. unfold route. cbv zeta.
    repeat match goal with
           | |- (if ?c then _ else _) ≠ _ => destruct c
           | |- match ?x with _ => _ end ≠ _ => destruct x
           end;
      first [discriminate | intros H; inversion H; subst op; discriminate Hop].
  - reflexivity.
  - unfold route. cbv zeta.
    repeat match goal with
           | |- (if ?c then _ else _) = _ → _ => destruct c eqn:?
           | |- match ?x with _ => _ end = _ → _ => destruct x
           end;
      intros H; try discriminate H; inversion H; subst op;
      repeat match goal with
             | E : _ && _ = true |- _ => apply andb_true_iff in E as [_ E]
             end;
      match goal with
      | E : String.eqb method _ = true |- _ => apply String.eqb_eq in E; subst method
      end; reflexivity.
Qed.


(** ** The equity endpoint *)

Lemma insertByAt_perm (p : EquitySample) (l : list EquitySample) :
  insertByAt p l ≡ₚ p :: l.
Proof.
  induction l as [| q l IH]; simpl; [reflexivity |].
  destruct (es_at p <=? es_at q)%Z; [reflexivity |].
  rewrite IH. apply Permutation_swap.
Qed.

Lemma sortByAt_perm (l : list EquitySample) : sortByAt l ≡ₚ l.
Proof.
  induction l as [| p l IH]; simpl; [reflexivity |].
  rewrite insertByAt_perm, IH. reflexivity.
Qed.

Lemma insertByAt_ascending (p : EquitySample) (l : list EquitySample) :
  ascending l → es_at p ∉ es_at <$> l → ascending (insertByAt p l).
Proof.
  induction l as [| q l IH]; simpl; intros Hl Hp.
  - split; [apply Forall_nil_2 | exact I].
  - destruct Hl as [Hq Hl]. apply not_elem_of_cons in Hp as [Hpq Hp].
    destruct (es_at p <=? es_at q)%Z eqn:E.
    + apply Z.leb_le in E. simpl. split; [| split; assumption].
      apply Forall_cons. split; [lia |].
      eapply Forall_impl; [exact Hq |]. simpl. intros r Hr. lia.
    + apply Z.leb_gt in E. simpl. split; [| apply IH; assumption].
      rewrite insertByAt_perm. apply Forall_cons. split; [lia | exact Hq].
Qed.

Lemma sortByAt_ascending (l : list EquitySample) :
  NoDup (es_at <$> l) → ascending (sortByAt l).
Proof.
  induction l as [| p l IH]; simpl; intros Hnd; [exact I |].
  apply NoDup_cons in Hnd as [Hp Hnd].
  apply insertByAt_ascending; [apply IH, Hnd |].
  rewrite sortByAt_perm. exact Hp.
Qed.

Lemma firstByAt_spec (seen : list Z) (l : list EquitySample) :
  NoDup (es_at <$> firstByAt seen l)
  ∧ (∀ p, p ∈ firstByAt seen l → p ∈ l ∧ es_at p ∉ seen)
  ∧ (∀ p, p ∈ l → es_at p ∉ seen → ∃ q, q ∈ firstByAt seen l ∧ es_at q = es_at p).
Proof.
  revert seen. induction l as [| p l IH]; intros seen; simpl.
  - split; [apply NoDup_nil_2 |]. split; intros p H; [| intros _];
      apply elem_of_nil in H; destruct H.
  - case_bool_decide as Hseen.
    + destruct (IH seen) as (N & S & C). split; [exact N |]. split.
      * intros q Hq. destruct (S q Hq) as [H1 H2]. split; [right; exact H1 | exact H2].
      * intros q Hq Hn. apply elem_of_cons in Hq as [-> | Hq]; [contradiction |].
        apply C; assumption.
    + destruct (IH (es_at p :: seen)) as (N & S & C). split; [| split].
      * rewrite fmap_cons. apply NoDup_cons. split; [| exact N].
        intros Hin. apply list_elem_of_fmap in Hin as (q & Hq1 & Hq2).
        destruct (S q Hq2) as [_ Hq3]. apply Hq3. rewrite <- Hq1. left.
      * intros q Hq. apply elem_of_cons in Hq as [-> | Hq].
        { split; [left | exact Hseen]. }
        destruct (S q Hq) as [H1 H2]. split; [right; exact H1 |].
        intros Hin. apply H2. right. exact Hin.
      * intros q Hq Hn. destruct (decide (es_at q = es_at p)) as [E | E].
        { exists p. split; [left | symmetry; exact E]. }
        apply elem_of_cons in Hq as [-> | Hq]; [congruence |].
        destruct (C q Hq) as (r & Hr1 & Hr2).
        { intros Hin. apply elem_of_cons in Hin as [Hin | Hin]; contradiction. }
        exists r. split; [right; exact Hr1 | exact Hr2].
Qed.

Lemma unionFromAnchor_spec (anchorAt : Z) (anchorVal : float)
    (parts rolling : list EquitySample) :
  let union := unionFromAnchor anchorAt anchorVal parts rolling in
  (∀ p, p ∈ union →
        (anchorAt ≤ es_at p)%Z
        ∧ (p ∈ parts ∨ p ∈ rolling
           ∨ (p = {| es_at := anchorAt; es_equityUsd := anchorVal |}
              ∧ Js.gtb anchorVal 0 = true)))
  ∧ (∀ p, p ∈ parts ++ rolling → (anchorAt ≤ es_at p)%Z → p ∈ union)
  ∧ (Js.gtb anchorVal 0 = true → ∃ p, p ∈ union ∧ es_at p = anchorAt).
Proof.
  intros union. subst union. unfold unionFromAnchor.
  set (kept := List.filter (λ p, (anchorAt <=? es_at p)%Z) (parts ++ rolling)).
  assert (Hkept : ∀ p, p ∈ kept ↔ p ∈ parts ++ rolling ∧ (anchorAt ≤ es_at p)%Z).
  { intros p. unfold kept. rewrite list_elem_of_In, filter_In, <- list_elem_of_In.
    rewrite Z.leb_le. reflexivity. }
  destruct (Js.gtb anchorVal 0) eqn:Hval; simpl andb.
  2: { split; [| split; [| discriminate]].
       - intros p Hp. apply Hkept in Hp as [Hp Hat]. split; [exact Hat |].
         apply elem_of_app in Hp as [Hp | Hp]; auto.
       - intros p Hp Hat. apply Hkept. split; assumption. }
  destruct (existsb (λ p, (es_at p =? anchorAt)%Z) kept) eqn:Hex; simpl negb; cbv iota.
  - split; [| split].
    + intros p Hp. apply Hkept in Hp as [Hp Hat]. split; [exact Hat |].
      apply elem_of_app in Hp as [Hp | Hp]; auto.
    + intros p Hp Hat. apply Hkept. split; assumption.
    + intros _. apply existsb_exists in Hex as (p & Hp & E).
      exists p. split; [apply list_elem_of_In, Hp | apply Z.eqb_eq, E].
  - split; [| split].
    + intros p Hp. apply elem_of_app in Hp as [Hp | Hp].
      * apply Hkept in Hp as [Hp Hat]. split; [exact Hat |].
        apply elem_of_app in Hp as [Hp | Hp]; auto.
      * apply list_elem_of_singleton in Hp as ->. split; [simpl; lia | auto].
    + intros p Hp Hat. apply elem_of_app. left. apply Hkept. split; assumption.
    + intros _. eexists. split; [apply elem_of_app; right; apply list_elem_of_singleton;
                                  reflexivity | reflexivity].
Qed.

Lemma readShards_run (w : World) (keys : list string) (s : State) :
  kvReliable w →
  ∃ s', readShards w keys s
        = (Ok (mjoin ((λ k, kvRead (K_equity_day k) (st_kv s)) <$> keys)), s')
    ∧ st_kv s' = st_kv s ∧ st_trace s' = st_trace s.
Proof.
  intros Hkv. unfold readShards.
  assert (Hgen : ∀ acc s, ∃ s',
    foldM (λ acc k, arr ← kvGet w (K_equity_day k); mret (acc ++ arr)) acc keys s
    = (Ok (acc ++ mjoin ((λ k, kvRead (K_equity_day k) (st_kv s)) <$> keys)), s')
    ∧ st_kv s' = st_kv s ∧ st_trace s' = st_trace s).
  { clear s. induction keys as [| k keys IH]; intros acc s; simpl.
    - eexists. rewrite app_nil_r. split; [reflexivity |]. split; reflexivity.
    - rewrite run_bind, run_bind, (kvGet_run w Hkv). cbn [mret M_ret].
      destruct (IH (acc ++ default [] (kv_equity_days (st_kv s) !! k))
                  (stepped (st_kv s) (st_trace s) s)) as (s' & E & K & T).
      exists s'. simpl kvRead. rewrite E, <- app_assoc. split; [reflexivity |].
      split; assumption. }
  exact (Hgen [] s).
Qed.

(** What [GET /api/vibe/equity] serves from a reliable store. *)
Lemma handleVibeEquity_run (w : World) (s : State) :
  kvReliable w →
  let anchor := kv_chart_anchor (st_kv s) in
  let anchorAt := from_option es_at 0%Z anchor in
  let anchorVal := from_option (λ a, Js.or (es_equityUsd a) 0) 0%float anchor in
  let now := w_now w (S (S (st_step s))) in
  let parts := mjoin ((λ k, kvRead (K_equity_day k) (st_kv s))
                        <$> shardKeys anchorAt now) in
  ∃ s', handleVibeEquity w s
        = (Ok (if (0 <? anchorAt)%Z
               then sortByAt (firstByAt []
                      (unionFromAnchor anchorAt anchorVal parts (kv_equity (st_kv s))))
               else kv_equity (st_kv s)), s')
    ∧ st_kv s' = st_kv s ∧ st_trace s' = st_trace s.
Proof.
  intros Hkv anchor anchorAt anchorVal now parts. unfold handleVibeEquity.
  rewrite run_bind, (kvGet_run w Hkv). cbv zeta.
  rewrite run_bind, (kvGet_run w Hkv).
  change (kvRead K_chart_anchor (st_kv s)) with anchor. fold anchorAt. fold anchorVal.
  destruct (0 <? anchorAt)%Z.
  2: { eexists. split; [reflexivity |]. split; reflexivity. }
  rewrite run_bind. unfold dateNow at 1. cbv beta iota.
  rewrite run_bind.
  match goal with
  | |- context [readShards w ?ks ?st] =>
      destruct (readShards_run w ks st Hkv) as (s' & E & K & T)
  end.
  rewrite E. exists s'. split; [reflexivity |]. split; assumption.
Qed.

(** X21.  With a pinned anchor (time > 0) and a reliable store,
    [GET /api/vibe/equity] serves a series whose times are strictly
    increasing (sorted, one entry per time), none of them before the
    anchor; every entry served is stored in a day shard or in the rolling
    buffer, or is the anchor point itself; a positive anchor value
    guarantees an entry at the anchor time; and the store is left
    untouched. *)
Theorem equity_endpoint_serves_sorted_series (w : World) (s : State)
    (anchor : EquitySample) :
  kvReliable w →
  kv_chart_anchor (st_kv s) = Some anchor →
  (0 < es_at anchor)%Z →
  ∃ served s',
    handleVibeEquity w s = (Ok served, s')
    ∧ st_kv s' = st_kv s
    ∧ ascending served
    ∧ Forall (λ p, (es_at anchor ≤ es_at p)%Z) served
    ∧ (∀ p, p ∈ served →
            p ∈ kv_equity (st_kv s)
            ∨ (∃ dk, p ∈ kvRead (K_equity_day dk) (st_kv s))
            ∨ (es_at p = es_at anchor ∧ es_equityUsd p = es_equityUsd anchor))
    ∧ ((0 <? es_equityUsd anchor)%float = true →
       ∃ p, p ∈ served ∧ es_at p = es_at anchor).
Proof.
  intros Hkv Hanchor Hpos.
  destruct (handleVibeEquity_run w s Hkv) as (s' & E & K & _).
  rewrite Hanchor in E. simpl from_option in E.
  rewrite (proj2 (Z.ltb_lt _ _) Hpos) in E.
  eexists _, s'. split; [exact E |]. split; [exact K |].
  match type of E with
  | _ = (Ok (sortByAt (firstByAt [] (unionFromAnchor ?a ?v ?p ?r))), _) =>
      destruct (unionFromAnchor_spec a v p r) as (U1 & U2 & U3);
      destruct (firstByAt_spec [] (unionFromAnchor a v p r)) as (N & F1 & F2);
      set (union := unionFromAnchor a v p r) in *
  end.
  split; [apply sortByAt_ascending, N |]. split; [| split].
  - apply Forall_forall. intros p Hp. rewrite sortByAt_perm in Hp.
    exact (proj1 (U1 p (proj1 (F1 p Hp)))).
  - intros p Hp. rewrite sortByAt_perm in Hp.
    destruct (U1 p (proj1 (F1 p Hp))) as [_ [H | [H | H]]].
    + right. left. apply list_elem_of_join in H as (l & Hl1 & Hl2).
      apply list_elem_of_fmap in Hl2 as (dk & -> & _). exists dk. exact Hl1.
    + left. exact H.
    + right. right. destruct H as [-> Hgt]. simpl. split; [reflexivity |].
      unfold Js.or in *. destruct (Js.truthy (es_equityUsd anchor)); [reflexivity |].
      discriminate Hgt.
  - intros Hval.
    assert (Hgt : Js.gtb (Js.or (es_equityUsd anchor) 0) 0 = true).
    { unfold Js.gtb, Js.or, Js.truthy. rewrite Hval, orb_true_r. exact Hval. }
    destruct (U3 Hgt) as (p & Hp & Hat).
    destruct (F2 p Hp) as (q & Hq & Hqat); [apply not_elem_of_nil |].
    exists q. split; [rewrite sortByAt_perm; exact Hq | congruence].
Qed.

Lemma equity_endpoint_serves_sorted_series_witness :
  let w := clockAt 259200000 in
  let s := Scenario.stateWith charted emptyRuntime in
  let anchor := {| es_at := 172800005; es_equityUsd := 1000 |} in
  kvReliable w
  ∧ kv_chart_anchor (st_kv s) = Some anchor
  ∧ (0 < es_at anchor)%Z
  ∧ (handleVibeEquity w s).1
    = Ok [ {| es_at := 172800005; es_equityUsd := 1000 |};
           {| es_at := 172800007; es_equityUsd := 1000.5 |};
           {| es_at := 172800010; es_equityUsd := 1001.5 |} ]
  ∧ ∃ served s',
      handleVibeEquity w s = (Ok served, s')
      ∧ st_kv s' = st_kv s
      ∧ ascending served
      ∧ Forall (λ p, (es_at anchor ≤ es_at p)%Z) served
      ∧ (∀ p, p ∈ served →
              p ∈ kv_equity (st_kv s)
              ∨ (∃ dk, p ∈ kvRead (K_equity_day dk) (st_kv s))
              ∨ (es_at p = es_at anchor ∧ es_equityUsd p = es_equityUsd anchor))
      ∧ ((0 <? es_equityUsd anchor)%float = true →
         ∃ p, p ∈ served ∧ es_at p = es_at anchor).
Proof.
  intros w s anchor.
  assert (H1 : kvReliable w) by (intros n; reflexivity).
  assert (H2 : kv_chart_anchor (st_kv s) = Some anchor) by reflexivity.
  assert (H3 : (0 < es_at anchor)%Z) by (simpl; lia).
  split; [exact H1 |]. split; [exact H2 |]. split; [exact H3 |].
  split; [vm_compute; reflexivity |].
  exact (equity_endpoint_serves_sorted_series w s anchor H1 H2 H3).
Defined.

Lemma dayKey_same_day (t1 t2 : Z) : dayOf t1 = dayOf t2 → dayKey t1 = dayKey t2.
Proof.
  unfold dayOf, msPerDay, dayKey. intros ->. reflexivity.
Qed.

Lemma shardKeys_cover (anchorAt now ts : Z) :
  (anchorAt ≤ maxTime)%Z →
  (dayOf anchorAt ≤ dayOf ts ≤ dayOf now)%Z →
  dayKey ts ∈ shardKeys anchorAt now.
Proof.
  intros Hmax [Hlo Hhi]. unfold shardKeys.
  rewrite (proj2 (Z.leb_le _ _) Hmax). apply list_elem_of_fmap.
  exists (dayOf ts - dayOf anchorAt)%Z.
  assert (Hday : (0 < msPerDay)%Z) by reflexivity.
  assert (Hstart : (dayStart anchorAt + (dayOf ts - dayOf anchorAt) * msPerDay
                    = dayOf ts * msPerDay)%Z).
  { unfold dayStart, dayOf. lia. }
  split.
  - apply dayKey_same_day. rewrite Hstart. unfold dayOf.
    rewrite Z.div_mul by (unfold msPerDay; lia). reflexivity.
  - apply elem_of_seqZ. split; [lia |].
    assert ((dayOf ts - dayOf anchorAt ≤ (now - dayStart anchorAt) / msPerDay)%Z); [| lia].
    apply Z.div_le_lower_bound; [exact Hday |].
    assert ((msPerDay * dayOf now ≤ now)%Z) by (apply Z.mul_div_le; exact Hday).
    unfold dayStart, dayOf in *. nia.
Qed.

(** X22.  What [GET /api/vibe/equity] covers (store reliable).  Without a
    usable anchor (none stored, or its time is not positive) it serves the
    rolling buffer as it is.  With an anchor it serves an entry for the
    time of every stored sample that is not before the anchor and sits in
    the rolling buffer, or in the shard of a UTC day from the anchor's day
    to the day of the request: samples that the rolling buffer has dropped
    are still served from their day shard. *)
Theorem equity_endpoint_covers_the_store (w : World) (s : State) :
  kvReliable w →
  let now := w_now w (S (S (st_step s))) in
  ∃ served s',
    handleVibeEquity w s = (Ok served, s')
    ∧ ((∀ anchor, kv_chart_anchor (st_kv s) = Some anchor → (es_at anchor ≤ 0)%Z) →
       served = kv_equity (st_kv s))
    ∧ (∀ anchor, kv_chart_anchor (st_kv s) = Some anchor →
         (0 < es_at anchor ≤ maxTime)%Z →
         (∀ p, p ∈ kv_equity (st_kv s) → (es_at anchor ≤ es_at p)%Z →
               ∃ q, q ∈ served ∧ es_at q = es_at p)
         ∧ (∀ ts p, p ∈ kvRead (K_equity_day (dayKey ts)) (st_kv s) →
                    (dayOf (es_at anchor) ≤ dayOf ts ≤ dayOf now)%Z →
                    (es_at anchor ≤ es_at p)%Z →
                    ∃ q, q ∈ served ∧ es_at q = es_at p)).
Proof.
  intros Hkv now.
  destruct (handleVibeEquity_run w s Hkv) as (s' & E & _).
  eexists _, s'. split; [exact E |]. split.
  - intros Hnone. destruct (kv_chart_anchor (st_kv s)) as [anchor |]; [| reflexivity].
    simpl from_option. specialize (Hnone anchor eq_refl).
    rewrite (proj2 (Z.ltb_ge _ _) Hnone). reflexivity.
  - intros anchor Hanchor [Hpos Hmax]. rewrite Hanchor. simpl from_option.
    rewrite (proj2 (Z.ltb_lt _ _) Hpos).
    match goal with
    | |- context [unionFromAnchor ?a ?v ?p ?r] =>
        destruct (unionFromAnchor_spec a v p r) as (_ & U2 & _);
        destruct (firstByAt_spec [] (unionFromAnchor a v p r)) as (_ & _ & F2)
    end.
    split.
    + intros p Hp Hat. destruct (F2 p) as (q & Hq & Hqat); [| apply not_elem_of_nil |].
      { apply U2; [apply elem_of_app; right; exact Hp | exact Hat]. }
      exists q. split; [rewrite sortByAt_perm; exact Hq | exact Hqat].
    + intros ts p Hp Hdays Hat.
      destruct (F2 p) as (q & Hq & Hqat); [| apply not_elem_of_nil |].
      { apply U2; [| exact Hat]. apply elem_of_app. left.
        apply list_elem_of_join. eexists. split; [exact Hp |].
        apply list_elem_of_fmap. exists (dayKey ts). split; [reflexivity |].
        apply shardKeys_cover; [exact Hmax | exact Hdays]. }
      exists q. split; [rewrite sortByAt_perm; exact Hq | exact Hqat].
Qed.

Lemma equity_endpoint_covers_the_store_witness :
  let w := clockAt 259200000 in
  let s := Scenario.stateWith charted emptyRuntime in
  let now := w_now w (S (S (st_step s))) in
  kvReliable w
  ∧ dayKey 172800007 = "/vibe_equity_1970-01-03.json"
  ∧ ∃ served s',
      handleVibeEquity w s = (Ok served, s')
      ∧ ((∀ anchor, kv_chart_anchor (st_kv s) = Some anchor → (es_at anchor ≤ 0)%Z) →
         served = kv_equity (st_kv s))
      ∧ (∀ anchor, kv_chart_anchor (st_kv s) = Some anchor →
           (0 < es_at anchor ≤ maxTime)%Z →
           (∀ p, p ∈ kv_equity (st_kv s) → (es_at anchor ≤ es_at p)%Z →
                 ∃ q, q ∈ served ∧ es_at q = es_at p)
           ∧ (∀ ts p, p ∈ kvRead (K_equity_day (dayKey ts)) (st_kv s) →
                      (dayOf (es_at anchor) ≤ dayOf ts ≤ dayOf now)%Z →
                      (es_at anchor ≤ es_at p)%Z →
                      ∃ q, q ∈ served ∧ es_at q = es_at p)).
Proof.
  intros w s now.
  assert (H : kvReliable w) by (intros n; reflexivity).
  split; [exact H |]. split; [vm_compute; reflexivity |].
  exact (equity_endpoint_covers_the_store w s H).
Defined.


(** ** Confinement of a whole tick *)

Section ConfinedTick.

Variable w : World.
Variable env : Env.
Variable W : Key → bool.
Variable P : Effect → bool.

(** The keys a tick may write; the closed trades apart, which only
    [appendClosedTrade] writes. *)
Hypothesis HW :
  ∀ k, match k with K_config | K_chart_anchor | K_trades => True | _ => W k = true end.

(** Requests other than orders are in [P]; orders are, if the exchange
    credentials are configured. *)
Hypothesis HP : ∀ e, match e with EOrder _ => True | _ => P e = true end.
Hypothesis HPorder : hasCredentials env = true → ∀ p, P (EOrder p) = true.
Hypothesis Hledger : W K_trades = true.

Local Hint Extern 1 (W ?k = true) => exact (HW k) : confined.
Local Hint Extern 1 (P (EGet ?p) = true) => exact (HP (EGet p)) : confined.
Local Hint Extern 1 (P (EOracle ?m) = true) => exact (HP (EOracle m)) : confined.
Local Hint Extern 1 (P (ESleep ?m) = true) => exact (HP (ESleep m)) : confined.

Ltac confined_engine :=
  repeat first
    [ solve [eauto with confined]
    | lazymatch goal with
      | |- confined _ _ (kvPut ?w0 ?k ?v) => exact (confined_kvPut w0 W P k v (HW k))
      | |- confined _ _ (perform (EGet ?p) _) => apply confined_perform; exact (HP (EGet p))
      | |- confined _ _ (perform (EOracle ?m) _) =>
          apply confined_perform; exact (HP (EOracle m))
      | |- confined _ _ (sleep ?ms) => apply confined_perform; exact (HP (ESleep ms))
      end
    | confined_step ].

Lemma appendLog_tick_confined entry : confined W P (appendLog w entry).
Proof. unfold appendLog. confined_engine. Qed.

Lemma asterFapiSignedPost_confined params :
  confined W P (asterFapiSignedPost w env params).
Proof.
  unfold asterFapiSignedPost. destruct (hasCredentials env) eqn:Hc; simpl negb; cbv iota.
  - apply confined_bind; [apply confined_dateNow |]. intros _.
    apply confined_perform. apply HPorder. reflexivity.
  - apply confined_ret.
Qed.

Lemma livePosition_confined sym : confined W P (livePosition w env sym).
Proof. unfold livePosition, fetchPos. confined_engine. Qed.

Lemma tickerPrice_confined sym : confined W P (tickerPrice w env sym).
Proof. unfold tickerPrice. confined_engine. Qed.

Lemma getExchangeInfo_confined : confined W P (getExchangeInfo w env).
Proof. unfold getExchangeInfo. confined_engine. Qed.

Local Hint Resolve appendLog_tick_confined asterFapiSignedPost_confined livePosition_confined
  tickerPrice_confined getExchangeInfo_confined : confined.

Lemma appendClosedTrade_confined trade : confined W P (appendClosedTrade w trade).
Proof.
  unfold appendClosedTrade. apply confined_bind; [exact (confined_kvGet w W P K_trades) |].
  intros list. exact (confined_kvPut w W P K_trades _ Hledger).
Qed.

Lemma setOpenTrades_confined map : confined W P (setOpenTrades w map).
Proof. unfold setOpenTrades. confined_engine. Qed.

Lemma getOpenTrades_confined : confined W P (getOpenTrades w).
Proof. unfold getOpenTrades. confined_engine. Qed.

Local Hint Resolve appendClosedTrade_confined setOpenTrades_confined
  getOpenTrades_confined : confined.

Lemma closeLoop_confined sym price reason stepSz fuel acc :
  confined W P (closeLoop w env sym price reason stepSz fuel acc).
Proof.
  revert acc. induction fuel as [| fuel IH]; intros acc; simpl.
  - confined_engine.
  - confined_engine; apply IH.
Qed.

Local Hint Resolve closeLoop_confined : confined.

Lemma enforceExits_confined cfg : confined W P (enforceExits w env cfg).
Proof.
  unfold enforceExits, enforceExit, closeToFlat, preloadStep, finalCheck, settleClose.
  confined_engine.
Qed.

Lemma tickPreparation_confined ctx : confined W P (tickPreparation w env ctx).
Proof.
  unfold tickPreparation, storeInitialEquity, marketSnapshot, stats24hr, fetchKlines.
  confined_engine; apply enforceExits_confined.
Qed.

Lemma tickPrelude_confined ignoreStatus : confined W P (tickPrelude w env ignoreStatus).
Proof.
  unfold tickPrelude, accountSnapshot, asterFapiGetAccount. confined_engine.
Qed.

Lemma executeOrder_confined a sym size meta :
  confined W P (executeOrder w env a sym size meta).
Proof. unfold executeOrder, orderQuantity, trackFill. confined_engine. Qed.

Lemma narrateFlat_confined events equityUsd :
  confined W P (narrateFlat w env events equityUsd).
Proof. unfold narrateFlat, rateLimitedStatus, emitStatus. confined_engine. Qed.

Local Hint Resolve executeOrder_confined narrateFlat_confined : confined.

Lemma tickAttempt_confined ctx : confined W P (tickAttempt w env ctx).
Proof.
  unfold tickAttempt, tickBody, tickFailed, consultOracle, callLLMDecider, logDecision.
  confined_engine.
Qed.

Lemma sampleEquity_confined x : confined W P (sampleEquity w x).
Proof. unfold sampleEquity. confined_engine. Qed.

Lemma vibeTick_confined ignoreStatus : confined W P (vibeTick w env ignoreStatus).
Proof.
  unfold vibeTick. apply confined_bind; [apply tickPrelude_confined |].
  intros [ctx |]; [| apply confined_ret].
  apply confined_bind; [apply tickPreparation_confined |]. intros _.
  apply confined_tryFinally; [apply tickAttempt_confined | apply sampleEquity_confined].
Qed.

End ConfinedTick.


(** ** What a tick never does *)

(** X23 — Without exchange credentials (base URL, API key or API secret
    missing or empty) a tick sends no order: every order goes through
    [asterFapiSignedPost], which answers 400 by itself.  This holds for
    manual and scheduled ticks, in every world and from every state,
    whether the tick returns or throws. *)
Theorem no_credentials_no_orders (w : World) (env : Env) (ignoreStatus : bool) (s : State)
    (Hcred : hasCredentials env = false) :
  ∃ tr, st_trace (vibeTick w env ignoreStatus s).2 = st_trace s ++ tr
        ∧ Forall (λ e, isOrder e = false) tr.
Proof.
  destruct (vibeTick_confined w env (λ _, true) notOrder) with (ignoreStatus := ignoreStatus)
    (s := s) as [_ (tr & Htr & Hall)].
  - intros []; exact I || reflexivity.
  - intros []; exact I || reflexivity.
  - rewrite Hcred. discriminate.
  - reflexivity.
  - exists tr. split; [exact Htr |].
    apply Forall_forall. intros e He.
    rewrite forallb_forall in Hall. apply list_elem_of_In in He.
    specialize (Hall e He). unfold notOrder in Hall.
    destruct (isOrder e); [discriminate Hall | reflexivity].
Qed.

Lemma no_credentials_no_orders_witness :
  hasCredentials Scenario.offline = false
  ∧ ∃ tr, st_trace (vibeTick Sample.world Scenario.offline true
                      (Scenario.stateWith Sample.store emptyRuntime)).2
          = st_trace (Scenario.stateWith Sample.store emptyRuntime) ++ tr
          ∧ Forall (λ e, isOrder e = false) tr.
Proof.
  split; [reflexivity |].
  apply (no_credentials_no_orders Sample.world Scenario.offline true
           (Scenario.stateWith Sample.store emptyRuntime)).
  reflexivity.
Defined.

(** X24 — A tick never changes the stored configuration or the chart
    anchor: whatever the exchange, the oracle and the store do, and
    whether the tick returns or throws, both keys read after the tick as
    they did before it. *)
Theorem tick_keeps_config_and_anchor (w : World) (env : Env) (ignoreStatus : bool)
    (s : State) :
  kvRead K_config (st_kv (vibeTick w env ignoreStatus s).2) = kvRead K_config (st_kv s)
  ∧ kvRead K_chart_anchor (st_kv (vibeTick w env ignoreStatus s).2)
    = kvRead K_chart_anchor (st_kv s).
Proof.
  pose (W := λ k : Key, match k with K_config | K_chart_anchor => false | _ => true end).
  destruct (vibeTick_confined w env W (λ _, true)) with (ignoreStatus := ignoreStatus)
    (s := s) as [Hkeys _].
  - intros []; exact I || reflexivity.
  - intros []; exact I || reflexivity.
  - reflexivity.
  - reflexivity.
  - split; apply Hkeys; reflexivity.
Qed.

(** ** The closed-trade ledger only grows *)

Lemma grownBy_le l0 n n' s : n ≤ n' → grownBy l0 n s → grownBy l0 n' s.
Proof. intros Hle (added & Hn & H). exists added. split; [lia | exact H]. Qed.

Lemma grownBy_same l0 n s s' :
  kv_trades (st_kv s') = kv_trades (st_kv s) → grownBy l0 n s → grownBy l0 n s'.
Proof. intros K (added & Hn & H). exists added. split; [exact Hn | congruence]. Qed.

Section Appends.

Context {A B : Type}.

Lemma appends_le (n n' : nat) (m : M A) : n ≤ n' → appends n m → appends n' m.
Proof. intros Hle Hm l0 k s H. eapply grownBy_le; [| apply Hm, H]. lia. Qed.

Lemma appends_quiet (m : M A) : confined notLedger anyEffect m → appends 0 m.
Proof.
  intros Hm l0 k s H. destruct (Hm s) as [K _].
  eapply grownBy_le; [| exact (grownBy_same l0 k s _ (K K_trades eq_refl) H)]. lia.
Qed.

Lemma appends_ret (a : A) : appends 0 (mret a).
Proof. intros l0 k s H. eapply grownBy_le; [| exact H]. cbn. lia. Qed.

Lemma appends_bind (n p : nat) (m : M A) (k : A → M B) :
  appends n m → (∀ a, appends p (k a)) → appends (n + p) (m ≫= k).
Proof.
  intros Hm Hk l0 j s H. rewrite run_bind. specialize (Hm l0 j s H).
  destruct (m s) as [[a | e] s1]; cbn [snd] in *.
  - eapply grownBy_le; [| apply Hk, Hm]. lia.
  - eapply grownBy_le; [| exact Hm]. lia.
Qed.

Lemma appends_tryCatch (n p : nat) (m : M A) (h : string → M A) :
  appends n m → (∀ e, appends p (h e)) → appends (n + p) (tryCatch m h).
Proof.
  intros Hm Hh l0 j s H. unfold tryCatch. specialize (Hm l0 j s H).
  destruct (m s) as [[a | e] s1]; cbn [snd] in *.
  - eapply grownBy_le; [| exact Hm]. lia.
  - eapply grownBy_le; [| apply Hh, Hm]. lia.
Qed.

Lemma appends_tryFinally (n p : nat) (m : M A) (fin : M unit) :
  appends n m → appends p fin → appends (n + p) (tryFinally m fin).
Proof.
  intros Hm Hf l0 j s H. unfold tryFinally. specialize (Hm l0 j s H).
  destruct (m s) as [r s1]. specialize (Hf l0 _ s1 Hm).
  destruct (fin s1) as [[u | e] s2]; (eapply grownBy_le; [| exact Hf]); lia.
Qed.

End Appends.

Lemma appends_bind_first {A B} (m : M A) (k : A → M B) :
  appends 1 m → (∀ a, appends 0 (k a)) → appends 1 (m ≫= k).
Proof. intros Hm Hk. exact (appends_bind 1 0 m k Hm Hk). Qed.

Lemma appends_bind_later {A B} (n : nat) (m : M A) (k : A → M B) :
  appends 0 m → (∀ a, appends n (k a)) → appends n (m ≫= k).
Proof. intros Hm Hk. exact (appends_bind 0 n m k Hm Hk). Qed.

Lemma appends_tryCatch_quiet {A} (n : nat) (m : M A) (h : string → M A) :
  appends n m → (∀ e, appends 0 (h e)) → appends n (tryCatch m h).
Proof.
  intros Hm Hh. apply (appends_le (n + 0)); [lia |]. apply appends_tryCatch; assumption.
Qed.

Lemma appends_forM_quiet {A} (l : list A) (f : A → M unit) :
  (∀ x, appends 0 (f x)) → appends 0 (forM_ l f).
Proof.
  intros Hf. induction l as [| x l IH]; cbn [forM_]; [apply appends_ret |].
  apply (appends_bind 0 0); [apply Hf | intros _; exact IH].
Qed.

Section LedgerCount.

Variable w : World.
Variable env : Env.

Lemma appendClosedTrade_appends trade : appends 1 (appendClosedTrade w trade).
Proof.
  intros l0 k s (added & Hn & H). unfold appendClosedTrade. rewrite run_bind.
  unfold kvGet at 1.
  destruct (w_kvFails w (st_step s)); [exists added; split; [lia | exact H] |].
  unfold kvPut. cbn [st_step stepped].
  destruct (w_kvFails w (S (st_step s))); [exists added; split; [lia | exact H] |].
  exists (added ++ [trade]). split; [rewrite length_app; cbn [length]; lia |].
  rewrite foldl_app. cbn [foldl]. rewrite <- H.
  cbn [snd st_kv stepped].
  change (kvRead K_trades (st_kv s)) with (kv_trades (st_kv s)).
  set (V := pushBounded 2000 (kv_trades (st_kv s)) trade). reflexivity.
Qed.

Lemma quiet_keys :
  ∀ k, match k with K_config | K_chart_anchor | K_trades => True | _ => notLedger k = true end.
Proof. intros []; exact I || reflexivity. Qed.

Lemma quiet_effects : ∀ e, match e with EOrder _ => True | _ => anyEffect e = true end.
Proof. intros []; exact I || reflexivity. Qed.

Lemma quiet_orders : hasCredentials env = true → ∀ p, anyEffect (EOrder p) = true.
Proof. reflexivity. Qed.

(** A part of the tick that does not write the closed trades. *)
Ltac calm :=
  apply appends_quiet;
  first
    [ apply closeLoop_confined
    | apply appendLog_tick_confined
    | apply asterFapiSignedPost_confined
    | apply livePosition_confined
    | apply tickerPrice_confined
    | apply getExchangeInfo_confined
    | apply setOpenTrades_confined
    | apply getOpenTrades_confined
    | apply tickPrelude_confined
    | apply narrateFlat_confined
    | apply sampleEquity_confined
    | confined_auto ];
  first [exact quiet_keys | exact quiet_effects | exact quiet_orders | idtac].

Ltac count_step :=
  lazymatch goal with
  | |- appends 0 (mret _) => apply appends_ret
  | |- appends _ (mret _) => apply (appends_le 0); [lia | apply appends_ret]
  | |- appends 1 (appendClosedTrade _ _) => apply appendClosedTrade_appends
  | |- appends _ (match ?x with _ => _ end) => destruct x
  | |- appends _ (let _ := _ in _) => cbv zeta
  | |- appends ?n (mbind _ _) =>
      first [ apply appends_bind_later; [solve [repeat count_step] | intros ?; cbv beta]
            | apply appends_bind_first; [| intros ?; solve [repeat count_step]] ]
  | |- appends _ (tryIgnore _) =>
      apply appends_tryCatch_quiet; [| intros ?; apply appends_ret]
  | |- appends _ (tryCatch _ _) =>
      apply appends_tryCatch_quiet; [| intros ?; solve [repeat count_step]]
  | |- appends _ (forM_ _ _) => apply appends_forM_quiet; intros ?; cbv beta
  | |- appends _ _ => solve [calm]
  end.

Lemma trackFill_appends sym a qty price now meta :
  appends 1 (trackFill w sym a qty price now meta).
Proof. unfold trackFill. repeat count_step. Qed.

Lemma executeOrder_appends a sym size meta :
  appends 1 (executeOrder w env a sym size meta).
Proof.
  unfold executeOrder, orderQuantity. repeat first [apply trackFill_appends | count_step].
Qed.

Lemma settles_ret openMap : settles openMap (mret openMap).
Proof.
  intros l0 k s H. cbn. exists 0. split; [eapply grownBy_le; [| exact H]; lia | lia].
Qed.

Lemma settles_bind {A} openMap (m : M A) (f : A → M (gmap string OpenTrade)) :
  appends 0 m → (∀ a, settles openMap (f a)) → settles openMap (m ≫= f).
Proof.
  intros Hm Hf l0 k s H. rewrite run_bind. specialize (Hm l0 k s H).
  destruct (m s) as [[a | e] s1]; cbn [fst snd] in *.
  - specialize (Hf a l0 (k + 0) s1 Hm). destruct (f a s1) as [[om | e] s2]; cbn [fst snd] in *.
    + destruct Hf as (j & Hj & Hs). exists j. split; [| exact Hs].
      eapply grownBy_le; [| exact Hj]. lia.
    + eapply grownBy_le; [| exact Hf]. lia.
  - eapply grownBy_le; [| exact Hm]. lia.
Qed.

Lemma size_pos_lookup (openMap : gmap string OpenTrade) sym t :
  openMap !! sym = Some t → 0 < size openMap.
Proof.
  intros Ht. destruct (decide (size openMap = 0)) as [Hz | Hz]; [| lia].
  apply map_size_empty_inv in Hz. subst openMap. rewrite lookup_empty in Ht.
  discriminate Ht.
Qed.

Lemma settleClose_settles sym t now acc finalAmt openMap :
  openMap !! sym = Some t →
  settles openMap (settleClose w sym t now acc finalAmt openMap).
Proof.
  intros Ht. pose proof (size_pos_lookup openMap sym t Ht) as Hpos.
  unfold settleClose. destruct (_ && _); [| apply settles_ret].
  intros l0 k s H. rewrite run_bind.
  pose proof (appendClosedTrade_appends (closedFromExit sym t now acc) l0 k s H) as H1.
  destruct (appendClosedTrade w _ s) as [[[] | e] s1]; cbn [fst snd] in *.
  2: { eapply grownBy_le; [| exact H1]. lia. }
  cbv zeta. rewrite run_bind.
  assert (H2 : appends 0 (setOpenTrades w (delete sym openMap))) by calm.
  specialize (H2 l0 _ s1 H1).
  destruct (setOpenTrades w _ s1) as [[[] | e] s2]; cbn [fst snd] in *.
  - exists 1. split; [eapply grownBy_le; [| exact H2]; lia |].
    pose proof (map_size_delete sym openMap) as Hsz. rewrite Ht in Hsz. lia.
  - eapply grownBy_le; [| exact H2]. lia.
Qed.

Lemma enforceExit_settles cfg openMap sym : settles openMap (enforceExit w env cfg openMap sym).
Proof.
  unfold enforceExit. destruct (openMap !! sym) as [t |] eqn:Ht.
  2: { intros l0 k s H. cbn. eapply grownBy_le; [| exact H]. lia. }
  apply settles_bind; [calm |]. intros now.
  apply settles_bind; [calm |]. intros price.
  destruct (negb (priceUsable price)); [apply settles_ret |].
  destruct (exitDecision cfg t now price) as [reason |]; [| apply settles_ret].
  unfold closeToFlat.
  apply settles_bind; [unfold preloadStep; repeat count_step |]. intros stepSz.
  apply settles_bind; [calm |]. intros acc.
  apply settles_bind; [unfold finalCheck; repeat count_step |]. intros finalAmt.
  apply settleClose_settles, Ht.
Qed.

(** The lifecycle loop appends at most one closed trade per entry of the
    map it started from, whatever keys it is given. *)
Lemma enforceLoop_counts cfg syms openMap l0 k s :
  grownBy l0 k s →
  grownBy l0 (k + size openMap) (foldM (enforceExit w env cfg) openMap syms s).2.
Proof.
  revert openMap k s. induction syms as [| sym syms IH]; intros openMap k s H.
  - cbn. eapply grownBy_le; [| exact H]. lia.
  - cbn [foldM]. rewrite run_bind.
    pose proof (enforceExit_settles cfg openMap sym l0 k s H) as H1.
    destruct (enforceExit w env cfg openMap sym s) as [[om | e] s1]; cbn [fst snd] in *.
    + destruct H1 as (j & Hj & Hs). eapply grownBy_le; [| exact (IH om _ s1 Hj)]. lia.
    + eapply grownBy_le; [| exact H1]. lia.
Qed.

(** The open positions stored when the tick starts bound what the
    lifecycle pass appends. *)
Lemma enforceExits_counts cfg l0 k s :
  grownBy l0 k s →
  grownBy l0 (k + size (kv_open_trades (st_kv s))) (enforceExits w env cfg s).2.
Proof.
  intros H. unfold enforceExits, tryIgnore, tryCatch, getOpenTrades. rewrite run_bind.
  unfold kvGet at 1. destruct (w_kvFails w (st_step s)).
  { cbn. eapply grownBy_le; [| exact H]. lia. }
  cbv beta iota. rewrite run_bind. unfold objectKeys at 1. cbv beta iota.
  rewrite run_bind.
  match goal with |- context [foldM ?f ?om ?syms ?s1] =>
    pose proof (enforceLoop_counts cfg syms om l0 k s1 (grownBy_same l0 k s s1 eq_refl H))
      as H1;
    destruct (foldM f om syms s1) as [[om' | e] s2]
  end; exact H1.
Qed.

Lemma tickAttempt_appends ctx : appends 1 (tickAttempt w env ctx).
Proof.
  unfold tickAttempt, tickBody, tickFailed, consultOracle, callLLMDecider, logDecision.
  repeat first [apply executeOrder_appends | count_step].
Qed.

Lemma sampleEquity_appends x : appends 0 (sampleEquity w x).
Proof. calm. Qed.

(** What comes before the lifecycle pass writes neither the closed
    trades nor the open positions. *)
Lemma books_kept {A} (m : M A) l0 k s0 s :
  within notBooks true m →
  grownBy l0 k s ∧ kv_open_trades (st_kv s) = kv_open_trades (st_kv s0) →
  grownBy l0 k (m s).2 ∧ kv_open_trades (st_kv (m s).2) = kv_open_trades (st_kv s0).
Proof.
  intros Hm [H Ho]. destruct (Hm s) as [K _]. split.
  - exact (grownBy_same l0 k s _ (K K_trades eq_refl) H).
  - rewrite <- Ho. exact (K K_open_trades eq_refl).
Qed.

Lemma vibeTick_counts ignoreStatus l0 s :
  grownBy l0 0 s →
  grownBy l0 (size (kv_open_trades (st_kv s)) + 1) (vibeTick w env ignoreStatus s).2.
Proof.
  intros H. unfold vibeTick. rewrite run_bind.
  pose proof (books_kept (tickPrelude w env ignoreStatus) l0 0 s s
                (tickPrelude_within w notBooks true env ignoreStatus)
                (conj H eq_refl)) as [H1 O1].
  destruct (tickPrelude w env ignoreStatus s) as [[[ctx |] | e] s1]; cbn [snd] in *;
    [| eapply grownBy_le; [| exact H1]; lia..].
  unfold tickPreparation. rewrite !run_bind.
  pose proof (books_kept (storeInitialEquity w (cx_equityUsd ctx)) l0 0 s s1
                (storeInitialEquity_within w notBooks true _ eq_refl)
                (conj H1 O1)) as [H2 O2].
  destruct (storeInitialEquity w (cx_equityUsd ctx) s1) as [[[] | e] s2]; cbn [snd] in *;
    [| eapply grownBy_le; [| exact H2]; lia].
  rewrite ?run_bind.
  pose proof (books_kept (marketSnapshot w env (cx_cfg ctx)) l0 0 s s2
                (marketSnapshot_within w notBooks true env _)
                (conj H2 O2)) as [H3 O3].
  destruct (marketSnapshot w env (cx_cfg ctx) s2) as [[[] | e] s3]; cbn [snd] in *;
    [| eapply grownBy_le; [| exact H3]; lia].
  rewrite ?run_bind.
  pose proof (enforceExits_counts (cx_cfg ctx) l0 0 s3 H3) as H4. rewrite O3 in H4.
  destruct (enforceExits w env (cx_cfg ctx) s3) as [[[] | e] s4]; cbn [snd] in *;
    [| eapply grownBy_le; [| exact H4]; lia].
  eapply grownBy_le;
    [| exact (appends_tryFinally 1 0 _ _ (tickAttempt_appends ctx)
                (sampleEquity_appends (cx_sampledEquity ctx)) l0 _ s4 H4)].
  lia.
Qed.

End LedgerCount.

(** X25.  Over a whole tick the closed-trade ledger only grows, and by
    little: what is stored after the tick is what was stored before it
    with the trades the tick appended pushed one by one, each push keeping
    the last 2000, and the tick appends at most one trade for each
    position that was open when it started and one more.  With nothing
    appended the ledger is untouched; otherwise it is the last 2000
    entries of the old ledger followed by the appended trades.  A ledger
    within the cap therefore loses at most as many of its oldest entries
    as trades were appended, and keeps the others in their order.  This
    holds in every world, whether the tick returns or throws. *)
Theorem tick_only_appends_closed_trades (w : World) (env : Env) (ignoreStatus : bool)
    (s : State) :
  let before := kv_trades (st_kv s) in
  let after := kv_trades (st_kv (vibeTick w env ignoreStatus s).2) in
  ∃ added, length added ≤ size (kv_open_trades (st_kv s)) + 1
           ∧ after = foldl (pushBounded 2000) before added
           ∧ (added = [] → after = before)
           ∧ (added ≠ [] →
              after = drop (length (before ++ added) - 2000) (before ++ added))
           ∧ (length before ≤ 2000 →
              ∃ d, d ≤ length added ∧ after = drop d (before ++ added)).
Proof.
  cbv zeta.
  destruct (vibeTick_counts w env ignoreStatus (kv_trades (st_kv s)) s) as (added & Hn & H).
  { exists []. split; [cbn; lia | reflexivity]. }
  exists added. split; [exact Hn |]. split; [exact H |]. split; [| split].
  - intros ->. exact H.
  - intros Hne. rewrite H. apply foldl_pushBounded, Hne.
  - intros Hcap. destruct added as [| t added].
    + exists 0. split; [cbn; lia |]. rewrite H, app_nil_r. reflexivity.
    + exists (length (kv_trades (st_kv s) ++ t :: added) - 2000).
      split; [rewrite length_app; lia |].
      rewrite H. apply foldl_pushBounded. discriminate.
Qed.


(** ** Agent registry *)

Section RegistryFacts.

Variable w : World.
Variable toLowerCase : string → string.

Lemma find_roundTrip (k : string) (l : list (string * Json)) :
  List.find (λ p, String.eqb (fst p) k)
    (List.map (λ p, let '(k, v) := p in (k, jsonRoundTrip v)) l)
  = (λ p, (fst p, jsonRoundTrip (snd p))) <$> List.find (λ p, String.eqb (fst p) k) l.
Proof.
  induction l as [| [k' v] l IH]; [reflexivity |]. simpl.
  destruct (String.eqb k' k); [reflexivity | exact IH].
Qed.

Lemma jget_roundTrip (fields : list (string * Json)) (k : string) :
  jget (jsonRoundTrip (JObj fields)) k = jsonRoundTrip <$> jget (JObj fields) k.
Proof.
  simpl. rewrite <- List.map_rev, find_roundTrip.
  destruct (List.find _ (rev fields)) as [[k' v] |]; reflexivity.
Qed.

Lemma lowerOf_roundTrip (j : Json) (r : option string) :
  lowerOf toLowerCase (Some j) = Ok r → lowerOf toLowerCase (Some (jsonRoundTrip j)) = Ok r.
Proof.
  destruct j as [| b | x | s | l | fields]; try (intros H; exact H).
  - intros H. simpl. destruct (Js.isFinite x); [destruct (x =? 0)%float |]; exact H.
  - intros H. pose proof (jget_roundTrip fields "toLowerCase") as J.
    unfold lowerOf in H |- *. cbn [jsonRoundTrip] in J |- *. rewrite J.
    destruct (jget (JObj fields) "toLowerCase") as [[| b | x | s | l | fs] |];
      first [discriminate H | exact H].
Qed.

Lemma walletKey_stored (a : Agent) (r : option string) :
  walletKey toLowerCase a = Ok r → walletKey toLowerCase (storedAgent a) = Ok r.
Proof. apply lowerOf_roundTrip. Qed.

Lemma findByOwner_none (list : list Agent) (owner : option Json) :
  findByOwner toLowerCase list owner = Ok None →
  list = [] ∨ ∃ r, lowerOf toLowerCase owner = Ok r
                   ∧ Forall (λ a, ∃ l, walletKey toLowerCase a = Ok l ∧ l ≠ r) list.
Proof.
  induction list as [| a rest IH]; [left; reflexivity |]. intros H. right.
  cbn [findByOwner] in H.
  destruct (lowerOf toLowerCase (Some (ag_owner a))) as [l | e] eqn:El; [| discriminate H].
  destruct (lowerOf toLowerCase owner) as [r | e] eqn:Er; [| discriminate H].
  destruct (decide (l = r)) as [| Hne]; [discriminate H |].
  exists r. split; [reflexivity |]. constructor; [exists l; split; assumption |].
  destruct (IH H) as [-> | (r' & Hr' & Hall)]; [constructor |].
  injection Hr' as <-. exact Hall.
Qed.

Lemma stored_keys (list : list Agent) (r : option string) :
  Forall (λ a, ∃ l, walletKey toLowerCase a = Ok l ∧ l ≠ r) list →
  walletKey toLowerCase <$> (storedAgent <$> list) = walletKey toLowerCase <$> list
  ∧ Ok r ∉ walletKey toLowerCase <$> list.
Proof.
  induction 1 as [| a rest (l & Hl & Hne) _ [IH1 IH2]].
  - split; [reflexivity | apply not_elem_of_nil].
  - rewrite !fmap_cons, IH1, (walletKey_stored a l Hl), Hl. split; [reflexivity |].
    apply not_elem_of_cons. split; [congruence | exact IH2].
Qed.

Ltac red_pairs := cbv beta iota zeta delta [fst snd].

(** What a registration does to the stored agents: nothing, or the
    whole list is written back with one agent more. *)
Lemma handleAgentsPost_run (body : Json) (s : Site) (n : nat) :
  ∃ res s' n',
    handleAgentsPost w toLowerCase body (s, n) = (res, (s', n'))
    ∧ ((site_agents s' = site_agents s ∧ ∀ a, res ≠ Ok (AgentCreatedReply a))
       ∨ ∃ agent, findByOwner toLowerCase (site_agents s) (jget body "owner") = Ok None
                  ∧ jTruthy (jget body "owner") = true
                  ∧ jIsText (jget body "owner") "0x0000" = false
                  ∧ ag_owner agent = default JNull (jget body "owner")
                  ∧ site_agents s' = storedAgent <$> (site_agents s ++ [agent])
                  ∧ ∀ a, res = Ok (AgentCreatedReply a) → a = agent).
Proof.
  unfold handleAgentsPost.
  destruct (jTruthy (jget body "owner")) eqn:Ht; cbn [negb orb];
    [| eexists _, _, _; split; [reflexivity |]; left; split; [reflexivity | discriminate]].
  destruct (jIsText (jget body "owner") "0x0000") eqn:Hx;
    [eexists _, _, _; split; [reflexivity |]; left; split; [reflexivity | discriminate] |].
  unfold rbind at 1, rGet at 1. cbn [fst snd].
  destruct (w_kvFails w n); red_pairs;
    [eexists _, _, _; split; [reflexivity |]; left; split; [reflexivity | discriminate] |].
  destruct (findByOwner toLowerCase (site_agents s) (jget body "owner"))
    as [[existing |] | e] eqn:Ef;
    [eexists _, _, _; split; [reflexivity |]; left; split; [reflexivity | discriminate]
    | | eexists _, _, _; split; [reflexivity |]; left; split; [reflexivity | discriminate]].
  unfold rbind, rNow, putAgents, putEvents, rPut, rGet, rret. red_pairs.
  set (agent := {| ag_stamp := w_now w (S n);
                   ag_owner := default JNull (jget body "owner");
                   ag_createdAt := w_now w (S (S n));
                   ag_webhookUrl := jOrNull (jget body "webhookUrl");
                   ag_hmacSecret := jOrNull (jget body "hmacSecret") |}).
  destruct (w_kvFails w (S (S (S n)))); red_pairs;
    [eexists _, _, _; split; [reflexivity |]; left; split; [reflexivity | discriminate] |].
  destruct (w_kvFails w (S (S (S (S n))))); red_pairs;
    [eexists _, _, _; split; [reflexivity |]; right; exists agent;
     repeat (split; [reflexivity |]); intros a Hd; discriminate Hd |].
  destruct (w_kvFails w (S (S (S (S (S (S n))))))); red_pairs;
    (eexists _, _, _; split; [reflexivity |]; right; exists agent;
     repeat (split; [reflexivity |])); [intros a Hd; discriminate Hd |].
  intros a [= <-]. reflexivity.
Qed.

End RegistryFacts.

(** X26 — One agent per wallet.  If no two stored agents have the same
    wallet (the owner as the handler compares it: lower-cased by
    [toLowerCase]), the same holds after [POST /api/agents] with any
    body, whatever the store and the clock do; and the registration
    removes no wallet: the wallets stored before are a prefix of those
    stored after. *)
Theorem one_agent_per_wallet (w : World) (toLowerCase : string → string) (body : Json)
    (s : Site) (n : nat)
    (Hinv : NoDup (walletKey toLowerCase <$> site_agents s)) :
  let s' := (handleAgentsPost w toLowerCase body (s, n)).2.1 in
  NoDup (walletKey toLowerCase <$> site_agents s')
  ∧ (walletKey toLowerCase <$> site_agents s)
      `prefix_of` (walletKey toLowerCase <$> site_agents s').
Proof.
  cbv zeta.
  destruct (handleAgentsPost_run w toLowerCase body s n) as (res & s' & n' & -> & Hrun).
  cbn [fst snd].
  destruct Hrun as [[-> _] | (agent & Hfind & Ht & _ & Hown & -> & _)].
  { split; [exact Hinv | reflexivity]. }
  apply findByOwner_none in Hfind as [Hnil | (r & Hr & Hall)].
  - rewrite Hnil. simpl. split; [apply NoDup_singleton | apply prefix_nil].
  - destruct (stored_keys toLowerCase _ r Hall) as [Hkeys Hnot].
    rewrite fmap_app, fmap_app, Hkeys. simpl.
    assert (Hk : walletKey toLowerCase (storedAgent agent) = Ok r).
    { apply walletKey_stored. unfold walletKey. rewrite Hown.
      destruct (jget body "owner") as [j |]; [exact Hr | discriminate Ht]. }
    rewrite Hk. split; [| apply prefix_app_r; reflexivity].
    apply NoDup_app. split; [exact Hinv |]. split; [| apply NoDup_singleton].
    intros x Hx Hx'. apply list_elem_of_singleton in Hx' as ->. exact (Hnot Hx).
Qed.

Lemma one_agent_per_wallet_witness :
  let body := JObj [("owner", JStr "0xDEF")] in
  let s' := (handleAgentsPost Sample.world asciiLower body (oneAgent, 0%nat)).2.1 in
  NoDup (walletKey asciiLower <$> site_agents oneAgent)
  ∧ NoDup (walletKey asciiLower <$> site_agents s')
  ∧ (walletKey asciiLower <$> site_agents oneAgent)
      `prefix_of` (walletKey asciiLower <$> site_agents s').
Proof.
  cbv zeta.
  assert (H : NoDup (walletKey asciiLower <$> site_agents oneAgent))
    by apply NoDup_singleton.
  split; [exact H |].
  exact (one_agent_per_wallet Sample.world asciiLower (JObj [("owner", JStr "0xDEF")])
           oneAgent 0%nat H).
Defined.

Lemma findByOwner_finds (toLowerCase : string → string) (list : list Agent)
    (owner : option Json) (r : option string) :
  lowerOf toLowerCase owner = Ok r →
  Forall (λ a, ∃ l, walletKey toLowerCase a = Ok l) list →
  Ok r ∈ walletKey toLowerCase <$> list →
  ∃ existing, findByOwner toLowerCase list owner = Ok (Some existing)
              ∧ existing ∈ list ∧ walletKey toLowerCase existing = Ok r.
Proof.
  intros Hr Hall. induction Hall as [| a rest (l & Hl) _ IH]; intros Hin.
  - apply elem_of_nil in Hin as [].
  - cbn [findByOwner]. unfold walletKey in Hl. rewrite Hl, Hr.
    destruct (decide (l = r)) as [-> | Hne].
    + exists a. split; [reflexivity |]. split; [left | exact Hl].
    + rewrite fmap_cons in Hin. apply elem_of_cons in Hin as [Heq | Hin].
      { unfold walletKey in Heq. rewrite Hl in Heq. congruence. }
      destruct (IH Hin) as (existing & Hf & Hex & Hk).
      exists existing. split; [exact Hf |]. split; [right; exact Hex | exact Hk].
Qed.

(** X27 — A wallet that is already registered is refused, whatever the
    case of its letters.  When the body's owner is a text other than the
    empty one and '0x0000', the store answers the read, every stored
    owner can be compared (none is an object with a [toLowerCase] of its
    own), and some stored owner lower-cases to the same text, then
    [POST /api/agents] answers 409 with a stored agent of that wallet
    and writes nothing. *)
Theorem registered_wallet_is_refused (w : World) (toLowerCase : string → string)
    (body : Json) (o : string) (s : Site) (n : nat)
    (Howner : jget body "owner" = Some (JStr o))
    (Hne : o ≠ "") (Hnz : o ≠ "0x0000")
    (Hkv : w_kvFails w n = false)
    (Hall : Forall (λ a, ∃ l, walletKey toLowerCase a = Ok l) (site_agents s))
    (Hreg : Ok (Some (toLowerCase o)) ∈ walletKey toLowerCase <$> site_agents s) :
  ∃ existing,
    handleAgentsPost w toLowerCase body (s, n) = (Ok (AgentExists existing), (s, S n))
    ∧ existing ∈ site_agents s
    ∧ walletKey toLowerCase existing = Ok (Some (toLowerCase o)).
Proof.
  destruct (findByOwner_finds toLowerCase (site_agents s) (Some (JStr o))
              (Some (toLowerCase o)) eq_refl Hall Hreg) as (existing & Hf & Hin & Hk).
  exists existing. split; [| split; assumption].
  unfold handleAgentsPost. rewrite Howner. cbn [jTruthy jIsText].
  apply String.eqb_neq in Hne, Hnz. rewrite Hne, Hnz. cbn [negb orb].
  unfold rbind at 1, rGet at 1. cbn [fst snd]. rewrite Hkv, Hf. reflexivity.
Qed.

Lemma registered_wallet_is_refused_witness :
  ∃ existing,
    handleAgentsPost Sample.world asciiLower (JObj [("owner", JStr "0xabc")])
      (oneAgent, 0%nat) = (Ok (AgentExists existing), (oneAgent, 1%nat))
    ∧ existing ∈ site_agents oneAgent
    ∧ walletKey asciiLower existing = Ok (Some (asciiLower "0xabc")).
Proof.
  apply (registered_wallet_is_refused Sample.world asciiLower
           (JObj [("owner", JStr "0xabc")]) "0xabc" oneAgent 0%nat).
  - reflexivity.
  - discriminate.
  - discriminate.
  - reflexivity.
  - repeat constructor. eexists. reflexivity.
  - left.
Defined.

(** X28 — A registered agent is listed first.  When [POST /api/agents]
    answers 201 with an agent and the store answers the next read,
    [GET /api/agents] lists that agent (as stored) first, followed by at
    most 99 older ones. *)
Theorem registered_agent_is_listed_first (w : World) (toLowerCase : string → string)
    (body : Json) (s : Site) (n : nat) (agent : Agent)
    (Hcreated : (handleAgentsPost w toLowerCase body (s, n)).1 = Ok (AgentCreatedReply agent))
    (Hkv : w_kvFails w (handleAgentsPost w toLowerCase body (s, n)).2.2 = false) :
  ∃ older,
    (handleAgentsGet w (handleAgentsPost w toLowerCase body (s, n)).2).1
      = Ok (storedAgent agent :: older)
    ∧ length older < 100.
Proof.
  revert Hcreated Hkv.
  destruct (handleAgentsPost_run w toLowerCase body s n) as (res & s' & n' & -> & Hrun).
  cbn [fst snd]. intros -> Hkv.
  destruct Hrun as [[_ Hno] | (agent' & _ & _ & _ & _ & Hs' & Hag)];
    [destruct (Hno agent eq_refl) |].
  rewrite (Hag agent eq_refl) in *. clear Hag.
  unfold handleAgentsGet, rbind, rGet, rret. cbn [fst snd]. rewrite Hkv, Hs'.
  rewrite fmap_app. cbn [fmap list_fmap].
  pose proof (lastN_length 100 ((storedAgent <$> site_agents s) ++ [storedAgent agent'])) as Hlen.
  destruct (lastN_snoc 100 (storedAgent <$> site_agents s) (storedAgent agent'))
    as [l' Hl']; [lia |].
  rewrite Hl' in Hlen |- *. rewrite rev_app_distr. simpl.
  exists (rev l'). split; [reflexivity |].
  rewrite length_app in Hlen. cbn [length] in Hlen. rewrite length_rev. lia.
Qed.

Lemma registered_agent_is_listed_first_witness :
  let post := handleAgentsPost Sample.world asciiLower (JObj [("owner", JStr "0xDEF")])
                (oneAgent, 0%nat) in
  let agent := {| ag_stamp := w_now Sample.world 1; ag_owner := JStr "0xDEF";
                  ag_createdAt := w_now Sample.world 2;
                  ag_webhookUrl := JNull; ag_hmacSecret := JNull |} in
  ∃ older, (handleAgentsGet Sample.world post.2).1 = Ok (storedAgent agent :: older)
           ∧ length older < 100.
Proof.
  cbv zeta.
  apply (registered_agent_is_listed_first Sample.world asciiLower
           (JObj [("owner", JStr "0xDEF")]) oneAgent 0%nat).
  - reflexivity.
  - reflexivity.
Defined.


(** ** A tick survives the exchange and the oracle *)



Section Outcome.

Variable w : World.
Variable env : Env.


Hypothesis Hkv : kvReliable w.





End Outcome.




(** ** Day keys and UTC days *)

Lemma allFrom_spec (f : Z → bool) (n : nat) (z k : Z) :
  allFrom f n z = true → (z ≤ k < z + Z.of_nat n)%Z → f k = true.
Proof.
  revert z. induction n as [| n IH]; intros z H Hk; [lia |].
  cbn [allFrom] in H. apply andb_true_iff in H as [Hz H].
  destruct (decide (k = z)) as [-> | Hne]; [exact Hz |].
  apply (IH (z + 1)%Z H). lia.
Qed.

Lemma eraDays_checked : allFrom eraDayChecked (Z.to_nat 146097) 0 = true.
Proof. vm_compute. reflexivity. Qed.

Lemma pad2_checked : forallb pad2Checked (seqZ 1 31) = true.
Proof. vm_compute. reflexivity. Qed.

Lemma eraDay_checked (doe : Z) :
  (0 ≤ doe < 146097)%Z →
  ∃ yoe m d, civilOfEraDay doe = (yoe, m, d)
             ∧ eraDayOfCivil (yoe, m, d) = doe
             ∧ (0 ≤ yoe ≤ 399)%Z ∧ (1 ≤ m ≤ 12)%Z ∧ (1 ≤ d ≤ 31)%Z.
Proof.
  intros Hdoe. pose proof (allFrom_spec _ _ _ doe eraDays_checked) as H.
  rewrite Z2Nat.id in H by lia. specialize (H ltac:(lia)).
  unfold eraDayChecked in H.
  destruct (civilOfEraDay doe) as [[yoe m] d]. exists yoe, m, d.
  repeat (apply andb_true_iff in H as [H ?]).
  split; [reflexivity |]. split; [apply Z.eqb_eq, H | lia].
Qed.

Lemma civilFromDays_split (days : Z) :
  civilFromDays days
  = let era := ((days + 719468) / 146097)%Z in
    let '(yoe, m, d) := civilOfEraDay (days + 719468 - era * 146097) in
    ((yoe + era * 400 + (if m <=? 2 then 1 else 0))%Z, m, d).
Proof. reflexivity. Qed.

Lemma eraDay_bounds (z : Z) : (0 ≤ z - z / 146097 * 146097 < 146097)%Z.
Proof.
  pose proof (Z.mod_pos_bound z 146097 eq_refl) as H.
  rewrite Z.mod_eq in H by discriminate. lia.
Qed.

Lemma civilFromDays_month_day (days : Z) :
  ∃ y m d, civilFromDays days = (y, m, d) ∧ (1 ≤ m ≤ 12)%Z ∧ (1 ≤ d ≤ 31)%Z.
Proof.
  rewrite civilFromDays_split. cbv zeta.
  destruct (eraDay_checked _ (eraDay_bounds (days + 719468)))
    as (yoe & m & d & -> & _ & _ & Hm & Hd).
  eexists _, m, d. split; [reflexivity | split; assumption].
Qed.

Lemma civilFromDays_inj (d1 d2 : Z) : civilFromDays d1 = civilFromDays d2 → d1 = d2.
Proof.
  rewrite !civilFromDays_split. cbv zeta.
  destruct (eraDay_checked _ (eraDay_bounds (d1 + 719468)))
    as (yoe1 & m1 & dd1 & -> & Hback1 & Hy1 & _ & _).
  destruct (eraDay_checked _ (eraDay_bounds (d2 + 719468)))
    as (yoe2 & m2 & dd2 & -> & Hback2 & Hy2 & _ & _).
  intros [= Hy <- <-].
  assert (Hera : ((d1 + 719468) / 146097 = (d2 + 719468) / 146097)%Z) by lia.
  assert (Hyoe : yoe1 = yoe2) by lia. subst yoe2.
  rewrite Hback1 in Hback2. lia.
Qed.

Lemma append_inv_length (s1 s2 t1 t2 : string) :
  String.length s1 = String.length s2 → s1 +:+ t1 = s2 +:+ t2 → s1 = s2 ∧ t1 = t2.
Proof.
  revert s2. induction s1 as [| c s1 IH]; intros [| c' s2] Hlen H;
    try discriminate Hlen.
  - split; [reflexivity | exact H].
  - injection Hlen as Hlen.
    change (String c (s1 +:+ t1) = String c' (s2 +:+ t2)) in H.
    injection H as -> H. destruct (IH s2 Hlen H) as [-> ->]. split; reflexivity.
Qed.

Lemma length_append (s t : string) :
  String.length (s +:+ t) = (String.length s + String.length t)%nat.
Proof.
  induction s as [| c s IH]; [reflexivity |].
  change (S (String.length (s +:+ t)) = S (String.length s + String.length t)).
  rewrite IH. reflexivity.
Qed.

Lemma pad2_two (a : Z) : (1 ≤ a ≤ 31)%Z → String.length (pad2 a) = 2%nat.
Proof.
  intros Ha. pose proof pad2_checked as H. rewrite forallb_forall in H.
  specialize (H a ltac:(apply list_elem_of_In, elem_of_seqZ; lia)).
  unfold pad2Checked in H. apply andb_true_iff in H as [H _].
  apply Nat.eqb_eq, H.
Qed.

Lemma pad2_inj (a b : Z) : (1 ≤ a ≤ 31)%Z → (1 ≤ b ≤ 31)%Z → pad2 a = pad2 b → a = b.
Proof.
  intros Ha Hb Hab. pose proof pad2_checked as H. rewrite forallb_forall in H.
  specialize (H a ltac:(apply list_elem_of_In, elem_of_seqZ; lia)).
  unfold pad2Checked in H. apply andb_true_iff in H as [_ H].
  rewrite forallb_forall in H.
  specialize (H b ltac:(apply list_elem_of_In, elem_of_seqZ; lia)).
  rewrite Hab, String.eqb_refl in H. apply Z.eqb_eq, H.
Qed.

Lemma dayKey_inj_days (t1 t2 : Z) : dayKey t1 = dayKey t2 → dayOf t1 = dayOf t2.
Proof.
  unfold dayKey, dayOf, msPerDay. intros H. apply civilFromDays_inj.
  destruct (civilFromDays_month_day (t1 / 86400000)) as (y1 & m1 & d1 & E1 & Hm1 & Hd1).
  destruct (civilFromDays_month_day (t2 / 86400000)) as (y2 & m2 & d2 & E2 & Hm2 & Hd2).
  rewrite E1, E2 in H |- *.
  apply (append_inv_length "/vibe_equity_" "/vibe_equity_") in H as [_ H];
    [| reflexivity].
  pose proof (f_equal String.length H) as Hlen.
  rewrite !length_append, !pad2_two in Hlen by lia.
  apply append_inv_length in H as [Hy H]; [| cbn [String.length] in Hlen; lia].
  apply (append_inv_length "-" "-") in H as [_ H]; [| reflexivity].
  apply append_inv_length in H as [Hmm H]; [| rewrite !pad2_two by lia; reflexivity].
  apply (append_inv_length "-" "-") in H as [_ H]; [| reflexivity].
  apply append_inv_length in H as [Hdd _]; [| rewrite !pad2_two by lia; reflexivity].
  apply (inj pretty) in Hy. apply pad2_inj in Hmm; [| lia | lia].
  apply pad2_inj in Hdd; [| lia | lia]. congruence.
Qed.

(** X30 — The key of a day partition identifies the UTC day: two times a
    [Date] can hold get the same partition key exactly when they fall on
    the same UTC day, so the samples of two days never share a
    partition. *)
Theorem day_key_identifies_the_day (t1 t2 : Z)
    (H1 : (- maxTime ≤ t1 ≤ maxTime)%Z) (H2 : (- maxTime ≤ t2 ≤ maxTime)%Z) :
  dayKey t1 = dayKey t2 ↔ dayOf t1 = dayOf t2.
Proof.
  split; [apply dayKey_inj_days | apply dayKey_same_day].
Qed.

Lemma day_key_identifies_the_day_witness :
  (- maxTime ≤ 86399999 ≤ maxTime)%Z ∧ (- maxTime ≤ 86400000 ≤ maxTime)%Z
  ∧ (dayKey 86399999 = dayKey 86400000 ↔ dayOf 86399999 = dayOf 86400000).
Proof.
  assert (H1 : (- maxTime ≤ 86399999 ≤ maxTime)%Z) by (unfold maxTime; lia).
  assert (H2 : (- maxTime ≤ 86400000 ≤ maxTime)%Z) by (unfold maxTime; lia).
  split; [exact H1 |]. split; [exact H2 |].
  exact (day_key_identifies_the_day 86399999 86400000 H1 H2).
Defined.


(** ** Equity sampling in the [finally] block *)

Lemma sampleEquity_store (w : World) (x : float) (s : State) :
  kvReliableFrom w (st_step s) →
  Js.gtb x 0 = true →
  let nowTs := w_now w (st_step s) in
  let sample := {| es_at := nowTs; es_equityUsd := x |} in
  ∃ s', sampleEquity w x s = (Ok tt, s')
        ∧ st_kv s'
          = kvWrite (K_equity_day (dayKey nowTs))
              (kvRead (K_equity_day (dayKey nowTs)) (st_kv s) ++ [sample])
              (kvWrite K_equity (pushBounded largeCap (kv_equity (st_kv s)) sample) (st_kv s)).
Proof.
  intros Hkv Hpos nowTs sample.
  assert (Ht : Js.truthy x = true).
  { unfold Js.truthy. unfold Js.gtb in Hpos. rewrite Hpos. apply orb_true_r. }
  unfold sampleEquity, tryIgnore, tryCatch. rewrite Ht, Hpos.
  change (true && true) with true. cbv iota.
  rewrite run_bind. unfold dateNow at 1. cbv iota beta.
  rewrite run_bind. unfold kvGet at 1. simpl st_step.
  rewrite (Hkv (S (st_step s))) by lia.
  cbv iota beta. rewrite run_bind. unfold kvPut at 1. simpl st_step.
  rewrite (Hkv (S (S (st_step s)))) by lia.
  cbv iota beta. rewrite run_bind. unfold kvGet at 1. simpl st_step.
  rewrite (Hkv (S (S (S (st_step s))))) by lia.
  cbv iota beta. unfold kvPut. simpl st_step.
  rewrite (Hkv (S (S (S (S (st_step s)))))) by lia.
  eexists. split; reflexivity.
Qed.

(** C3, as stated, fails when the store stops answering: the account
    snapshot of the tick reads the positive equity 1000, every later step
    that touches the store throws, the failure of the sampling step is
    swallowed by its own [try]/[catch], and the tick ends with the stored
    equity series, rolling and daily, as they were: no sample. *)
Lemma equity_sample_lost_counterexample :
  let w := Sample.blackout in
  let s := Sample.state in
  let r := vibeTick w Sample.env false s in
  (tickPrelude w Sample.env false s).1 = Ok (Some Sample.ctx)
  ∧ cx_sampledEquity Sample.ctx = 1000%float
  ∧ Js.gtb (cx_sampledEquity Sample.ctx) 0 = true
  ∧ st_kv r.2 = st_kv s
  ∧ kv_equity (st_kv r.2) = [].
Proof. repeat split; vm_compute; reflexivity. Qed.

(** C3, amended.  Take a tick that is not skipped and whose account
    snapshot gave a positive, finite equity.  Whatever the main [try]
    does afterwards (it may return, run its catch block, or throw out of
    the catch block when the store fails), the tick ends with that result
    and, the store accepting the four operations of the sampling step,
    the sample (time of the sampling step, snapshot equity) is appended
    to the rolling buffer, capped at 40320 entries, and to one day
    partition, every other partition staying as it was.  That partition
    is the one of the sample's UTC day: among the times a [Date] can
    hold, its key is the key of exactly the times of that day. *)
Theorem equity_sampled_despite_failures (w : World) (env : Env) (ignoreStatus : bool)
    (s : State) (ctx : TickCtx) :
  (tickPrelude w env ignoreStatus s).1 = Ok (Some ctx) →
  Js.gtb (cx_sampledEquity ctx) 0 = true →
  Js.isFinite (cx_sampledEquity ctx) = true →
  let s1 := (tickPrelude w env ignoreStatus s).2 in
  let s2 := (tickPreparation w env ctx s1).2 in
  let r := (tickAttempt w env ctx s2).1 in
  let s3 := (tickAttempt w env ctx s2).2 in
  kvReliableFrom w (st_step s3) →
  let nowTs := w_now w (st_step s3) in
  let sample := {| es_at := nowTs; es_equityUsd := cx_sampledEquity ctx |} in
  let s' := (vibeTick w env ignoreStatus s).2 in
  (vibeTick w env ignoreStatus s).1 = r
  ∧ kv_equity (st_kv s') = pushBounded largeCap (kv_equity (st_kv s)) sample
  ∧ kvRead (K_equity_day (dayKey nowTs)) (st_kv s')
    = kvRead (K_equity_day (dayKey nowTs)) (st_kv s) ++ [sample]
  ∧ (∀ dk, dk ≠ dayKey nowTs →
       kvRead (K_equity_day dk) (st_kv s') = kvRead (K_equity_day dk) (st_kv s))
  ∧ (∀ t, (- maxTime ≤ t ≤ maxTime)%Z → (- maxTime ≤ nowTs ≤ maxTime)%Z →
          dayKey t = dayKey nowTs ↔ dayOf t = dayOf nowTs).
Proof.
  intros Hpre Hpos _. cbv zeta.
  assert (Hnot : ∀ k, notEquity k = true → notEquity k = true) by auto.
  pose proof (tickPrelude_within w notEquity true env ignoreStatus s) as [F1 _].
  destruct (tickPrelude w env ignoreStatus s) as [rp sp] eqn:Ep.
  cbn [fst snd] in Hpre, F1 |- *. subst rp.
  pose proof (tickPreparation_within w notEquity Hnot true env ctx sp) as [F2 _].
  destruct (tickPreparation_ok w env ctx sp) as (sq & Eq).
  rewrite Eq in F2 |- *. cbn [fst snd] in F2 |- *.
  pose proof (tickAttempt_within w notEquity Hnot env ctx sq) as [F3 _].
  destruct (tickAttempt w env ctx sq) as [ra sa] eqn:Ea. cbn [fst snd] in F3 |- *.
  intros Hkv.
  destruct (sampleEquity_store w (cx_sampledEquity ctx) sa Hkv Hpos) as (sf & Ef & Hst).
  assert (Hrun : vibeTick w env ignoreStatus s = (ra, sf)).
  { unfold vibeTick. rewrite run_bind, Ep, run_bind, Eq. unfold tryFinally.
    rewrite Ea, Ef. reflexivity. }
  assert (Hsame : ∀ k, notEquity k = false → kvRead k (st_kv sa) = kvRead k (st_kv s)).
  { intros k Hk. exact (eq_trans (F3 k Hk) (eq_trans (F2 k Hk) (F1 k Hk))). }
  rewrite Hrun. cbn [fst snd]. rewrite Hst.
  split; [reflexivity |]. split; [| split; [| split]].
  - cbn [kvWrite kv_equity]. f_equal. exact (Hsame K_equity eq_refl).
  - rewrite kvRead_kvWrite_eq. f_equal. exact (Hsame (K_equity_day _) eq_refl).
  - intros dk Hdk. rewrite kvRead_kvWrite_ne by congruence.
    rewrite kvRead_kvWrite_ne by discriminate.
    exact (Hsame (K_equity_day dk) eq_refl).
  - intros t _ _. split; [apply dayKey_inj_days | apply dayKey_same_day].
Qed.

Lemma equity_sampled_despite_failures_witness :
  let w := Sample.outage in
  let s := Sample.state in
  let s1 := (tickPrelude w Sample.env false s).2 in
  let s2 := (tickPreparation w Sample.env Sample.ctx s1).2 in
  let r := (tickAttempt w Sample.env Sample.ctx s2).1 in
  let s3 := (tickAttempt w Sample.env Sample.ctx s2).2 in
  let nowTs := w_now w (st_step s3) in
  let sample := {| es_at := nowTs; es_equityUsd := 1000 |} in
  let s' := (vibeTick w Sample.env false s).2 in
  (tickPrelude w Sample.env false s).1 = Ok (Some Sample.ctx)
  ∧ Js.gtb (cx_sampledEquity Sample.ctx) 0 = true
  ∧ Js.isFinite (cx_sampledEquity Sample.ctx) = true
  ∧ kvReliableFrom w (st_step s3)
  ∧ w_llm w 101 = Throw "network timeout"
  ∧ r = Throw "KV get failed"
  ∧ (vibeTick w Sample.env false s).1 = r
  ∧ kv_equity (st_kv s') = pushBounded largeCap (kv_equity (st_kv s)) sample
  ∧ kvRead (K_equity_day (dayKey nowTs)) (st_kv s')
    = kvRead (K_equity_day (dayKey nowTs)) (st_kv s) ++ [sample]
  ∧ (∀ dk, dk ≠ dayKey nowTs →
       kvRead (K_equity_day dk) (st_kv s') = kvRead (K_equity_day dk) (st_kv s))
  ∧ (∀ t, (- maxTime ≤ t ≤ maxTime)%Z → (- maxTime ≤ nowTs ≤ maxTime)%Z →
          dayKey t = dayKey nowTs ↔ dayOf t = dayOf nowTs).
Proof.
  intros w s s1 s2 r s3 nowTs sample s'.
  assert (H1 : (tickPrelude w Sample.env false s).1 = Ok (Some Sample.ctx))
    by (vm_compute; reflexivity).
  assert (H2 : Js.gtb (cx_sampledEquity Sample.ctx) 0 = true) by reflexivity.
  assert (H2' : Js.isFinite (cx_sampledEquity Sample.ctx) = true) by reflexivity.
  assert (H3 : kvReliableFrom w (st_step s3)).
  { intros m Hm. vm_compute in Hm. simpl.
    apply andb_false_iff. right. apply Nat.leb_gt. lia. }
  split; [exact H1 |]. split; [exact H2 |]. split; [exact H2' |]. split; [exact H3 |].
  split; [reflexivity |]. split; [vm_compute; reflexivity |].
  exact (equity_sampled_despite_failures w Sample.env false s Sample.ctx H1 H2 H2' H3).
Defined.


(** ** The untrusted oracle, in every world *)

Lemma post_bind_with {A B} (m : M A) (k : A → M B) (Q : A → Prop) (R : B → Prop) :
  post m Q → (∀ a, Q a → post (k a) R) → post (m ≫= k) R.
Proof.
  intros Hm Hk s b s' E. rewrite run_bind in E.
  destruct (m s) as [[a | e] s1] eqn:Em; [| discriminate E].
  exact (Hk a (Hm s a s1 Em) s1 b s' E).
Qed.

Lemma post_tryCatch {A} (m : M A) (h : string → M A) (Q : A → Prop) :
  post m Q → (∀ e, post (h e) Q) → post (tryCatch m h) Q.
Proof.
  intros Hm Hh s x s' E. unfold tryCatch in E.
  destruct (m s) as [[x0 | e] s1] eqn:Em.
  - injection E as <- <-. exact (Hm s x0 s1 Em).
  - exact (Hh e s1 x s' E).
Qed.

Lemma post_tryFinally {A} (m : M A) (fin : M unit) (Q : A → Prop) :
  post m Q → post (tryFinally m fin) Q.
Proof.
  intros Hm s a s' E. unfold tryFinally in E.
  destruct (m s) as [r s1] eqn:Em. destruct (fin s1) as [[u | e] s2]; [| discriminate E].
  injection E as -> <-. exact (Hm s a s1 Em).
Qed.

Lemma within_bind_with {A B} (W : Key → bool) (entries : bool) (m : M A) (k : A → M B)
    (Q : A → Prop) :
  within W entries m → post m Q → (∀ a, Q a → within W entries (k a)) →
  within W entries (m ≫= k).
Proof.
  intros Hm Hq Hk s. rewrite run_bind. specialize (Hm s).
  destruct (m s) as [[a | e] s1] eqn:Em; cbn [fst snd] in *; [| exact Hm].
  eapply footprint_trans; [exact Hm | exact (Hk a (Hq s a s1 Em) s1)].
Qed.

Lemma narrateFlat_post (w : World) env events equityUsd :
  post (narrateFlat w env events equityUsd) noDecision.
Proof.
  unfold narrateFlat. apply post_tryCatch; [| intros e; apply post_ret; exact I].
  do 6 (apply post_bind; intros ?).
  intros s res s' E. rewrite run_bind in E.
  destruct (rateLimitedStatus w events equityUsd _ s) as [[out | e] s1] eqn:E1;
    [| discriminate E].
  injection E as <- <-. exact (rateLimitedStatus_post _ _ _ _ _ _ _ E1).
Qed.

Section Unusable.

Variable w : World.
Hypothesis Hllm : ∀ n, oracleReplyUsable (w_llm w n) = false.

Lemma consultOracle_flat env cfg :
  post (consultOracle w env cfg) (λ llm, selectAction llm.1 = ActFLAT).
Proof.
  unfold consultOracle. apply post_tryCatch; [exact (callLLMDecider_post w Hllm env cfg) |].
  intros e. apply post_bind. intros _. apply post_ret. reflexivity.
Qed.

Lemma tickBody_flat_within env ctx : within anyKey false (tickBody w env ctx).
Proof.
  unfold tickBody. cbv zeta.
  eapply within_bind_with;
    [exact (consultOracle_within w anyKey false env (cx_cfg ctx) eq_refl)
    | apply consultOracle_flat |].
  intros llm Hflat. cbv beta. rewrite Hflat.
  apply within_bind; [exact (appendLog_within w anyKey false _ eq_refl) |]. intros _.
  apply within_bind; [exact (appendLog_within w anyKey false _ eq_refl) |]. intros _.
  apply within_bind;
    [exact (narrateFlat_within w anyKey false env _ _ eq_refl eq_refl eq_refl) |].
  intros out.
  apply within_bind;
    [exact (executeOrder_flat_within w anyKey false env ActFLAT _ _ _ eq_refl eq_refl) |].
  intros _. within_auto.
Qed.

Lemma tickBody_flat_post env ctx :
  post (tickBody w env ctx) (λ res, ∃ meta out, res = TickOk meta out ∧ noDecision out).
Proof.
  unfold tickBody. cbv zeta.
  eapply post_bind_with; [apply consultOracle_flat |].
  intros llm Hflat. cbv beta. rewrite Hflat.
  apply post_bind. intros _. apply post_bind. intros _.
  eapply post_bind_with; [apply narrateFlat_post |]. intros out Hout.
  do 5 (apply post_bind; intros ?). apply post_ret. eexists _, _.
  split; [reflexivity | exact Hout].
Qed.

Lemma vibeTick_flat_within env ignoreStatus :
  within anyKey false (vibeTick w env ignoreStatus).
Proof.
  unfold vibeTick. apply within_bind; [apply tickPrelude_within |].
  intros [ctx |]; [| apply within_ret].
  apply within_bind; [apply tickPreparation_within; reflexivity |]. intros _.
  apply within_tryFinally.
  - unfold tickAttempt. apply within_tryCatch; [apply tickBody_flat_within |].
    intros e. apply tickFailed_within; reflexivity.
  - apply sampleEquity_within; reflexivity.
Qed.

Lemma vibeTick_flat_post env ignoreStatus :
  post (vibeTick w env ignoreStatus)
    (λ res, res = TickSkipped
            ∨ (∃ meta out, res = TickOk meta out ∧ noDecision out)
            ∨ ∃ e, res = TickError e).
Proof.
  unfold vibeTick. apply post_bind.
  intros [ctx |]; [| apply post_ret; left; reflexivity].
  apply post_bind. intros _. apply post_tryFinally. unfold tickAttempt.
  apply post_tryCatch.
  - intros s res s' E. right. left. exact (tickBody_flat_post env ctx s res s' E).
  - intros e. unfold tickFailed. do 4 (apply post_bind; intros ?).
    apply post_ret. right. right. eexists. reflexivity.
Qed.

End Unusable.

(** *** A reply that names a symbol outside the universe *)

Lemma selectSymbol_stray (cfg : VibeConfig) (parsed : Json) :
  (∀ sym, jString (jget parsed "symbol") = Some sym → sym ∉ universe cfg) →
  selectSymbol cfg parsed = firstOfUniverse cfg.
Proof.
  intros H. unfold selectSymbol.
  destruct (jString (jget parsed "symbol")) as [sym |]; [| reflexivity].
  rewrite bool_decide_eq_false_2; [reflexivity | exact (H sym eq_refl)].
Qed.

Lemma selectAction_kept (parsed : Json) (a : Action) :
  jString (jget parsed "action")
  = Some (match a with ActLONG => "LONG" | ActSHORT => "SHORT" | ActFLAT => "FLAT" end) →
  selectAction parsed = a.
Proof. intros H. unfold selectAction. rewrite H. destruct a; reflexivity. Qed.

Section Answering.

Variable w : World.
Variable env : Env.
Hypothesis Hkv : kvReliable w.

Lemma returns_ret {A} (a : A) : returns (mret a).
Proof. intros s. eexists _, _. reflexivity. Qed.

Lemma returns_bind {A B} (m : M A) (k : A → M B) :
  returns m → (∀ a, returns (k a)) → returns (m ≫= k).
Proof.
  intros Hm Hk s. destruct (Hm s) as (a & s1 & E). rewrite run_bind, E. apply Hk.
Qed.

Lemma returns_tryCatch {A} (m : M A) (h : string → M A) :
  (∀ e, returns (h e)) → returns (tryCatch m h).
Proof.
  intros Hh s. unfold tryCatch. destruct (m s) as [[a | e] s1]; [| apply Hh].
  eexists _, _. reflexivity.
Qed.

Lemma returns_dateNow : returns (dateNow w).
Proof. intros s. eexists _, _. reflexivity. Qed.

Lemma returns_getRt : returns getRt.
Proof. intros s. eexists _, _. reflexivity. Qed.

Lemma returns_kvPut k v : returns (kvPut w k v).
Proof. intros s. rewrite (kvPut_run w Hkv). eexists _, _. reflexivity. Qed.

Lemma returns_appendLog entry : returns (appendLog w entry).
Proof.
  intros s. destruct (appendLog_run w Hkv entry s) as (s' & E & _).
  exists tt, s'. exact E.
Qed.

Ltac returns_step :=
  lazymatch goal with
  | |- returns (mret _) => apply returns_ret
  | |- returns (mbind _ _) => apply returns_bind; [| intros ?; cbv beta]
  | |- returns (tryIgnore _) => apply returns_tryCatch; intros ?; apply returns_ret
  | |- returns (tryCatch _ _) => apply returns_tryCatch; intros ?; cbv beta
  | |- returns (dateNow _) => apply returns_dateNow
  | |- returns getRt => apply returns_getRt
  | |- returns (kvPut _ _ _) => apply returns_kvPut
  | |- returns (appendLog _ _) => apply returns_appendLog
  | |- returns (match ?x with _ => _ end) => destruct x
  end.

(** With a store that answers, the main [try] runs to its end. *)
Lemma tickBody_returns ctx : returns (tickBody w env ctx).
Proof.
  unfold tickBody, consultOracle, narrateFlat, logDecision, executeOrder. cbv zeta.
  repeat returns_step.
Qed.

Variable parsed : Json.
Variable status : Z.
Hypothesis Hkey : Js.truthyS (QWEN_API_KEY env) = true.
Hypothesis Hreply :
  ∀ n, w_llm w n = Ok {| llm_ok := true; llm_status := status;
                        llm_body := ContentJson parsed |}.

Lemma consultOracle_reply cfg : post (consultOracle w env cfg) (λ llm, llm.1 = parsed).
Proof.
  intros s llm s' E. unfold consultOracle, tryCatch, callLLMDecider in E.
  rewrite Hkey in E. cbn [negb] in E. cbv zeta in E. rewrite run_bind in E.
  unfold perform in E. cbv beta iota in E. rewrite Hreply in E.
  cbn [llm_ok llm_body negb] in E. injection E as <- _. reflexivity.
Qed.

(** The decision of the tick is the action and the symbol selected from
    the reply. *)
Lemma tickBody_decision ctx a :
  selectAction parsed = a → a ≠ ActFLAT →
  post (tickBody w env ctx)
    (λ res, ∃ meta,
       res = TickOk meta
               (Some (OutDecision a (selectSymbol (cx_cfg ctx) parsed)
                        (sizeUsd (cx_cfg ctx) (cx_equityUsd ctx)
                           (cx_availableBalance ctx))))).
Proof.
  intros Ha Hne. unfold tickBody. cbv zeta.
  eapply post_bind_with; [apply consultOracle_reply |].
  intros llm ->. cbv beta. rewrite Ha.
  apply post_bind. intros _. apply post_bind. intros _.
  eapply (post_bind_with _ _
            (λ out, out = Some (OutDecision a (selectSymbol (cx_cfg ctx) parsed)
                                  (sizeUsd (cx_cfg ctx) (cx_equityUsd ctx)
                                     (cx_availableBalance ctx))))).
  { destruct a; [| | congruence]; unfold logDecision; cbv zeta;
      do 3 (apply post_bind; intros ?); apply post_ret; reflexivity. }
  intros out ->. do 5 (apply post_bind; intros ?). apply post_ret.
  eexists. reflexivity.
Qed.

Lemma vibeTick_decision ignoreStatus s ctx a :
  selectAction parsed = a → a ≠ ActFLAT →
  (tickPrelude w env ignoreStatus s).1 = Ok (Some ctx) →
  ∃ meta s',
    vibeTick w env ignoreStatus s
    = (Ok (TickOk meta
             (Some (OutDecision a (selectSymbol (cx_cfg ctx) parsed)
                      (sizeUsd (cx_cfg ctx) (cx_equityUsd ctx)
                         (cx_availableBalance ctx))))), s').
Proof.
  intros Ha Hne Hpre. unfold vibeTick. rewrite run_bind.
  destruct (tickPrelude w env ignoreStatus s) as [rp s1]. cbn [fst] in Hpre. subst rp.
  rewrite run_bind. destruct (tickPreparation_ok w env ctx s1) as (s2 & ->).
  unfold tryFinally, tickAttempt, tryCatch.
  destruct (tickBody_returns ctx s2) as (res & s3 & E3). rewrite E3.
  destruct (tickBody_decision ctx a Ha Hne s2 res s3 E3) as (meta & ->).
  match goal with
  | |- context [sampleEquity w ?x s3] =>
      destruct (tryIgnore_ok
                  (if Js.truthy x && Js.gtb x 0
                   then nowTs ← dateNow w;
                        equity ← kvGet w K_equity;
                        let sample := {| es_at := nowTs; es_equityUsd := x |} in
                        _ ← kvPut w K_equity (pushBounded largeCap equity sample);
                        let dk := dayKey nowTs in
                        dayList ← kvGet w (K_equity_day dk);
                        kvPut w (K_equity_day dk) (dayList ++ [sample])
                   else mret tt) s3) as (s4 & E4)
  end.
  change (sampleEquity w (cx_sampledEquity ctx) s3 = (Ok tt, s4)) in E4.
  rewrite E4. eexists _, _. reflexivity.
Qed.

End Answering.

(** C4, amended.  When the oracle call throws, answers with an HTTP
    failure, returns a body or a content that is not JSON, or returns JSON
    without a valid action, the tick performs no new-position order and
    records no trade decision, in every world: it is skipped, or its
    action is FLAT, or it ends in the error branch; and with a store that
    answers it returns normally, skipped or FLAT.  A parsed reply without
    a valid action selects FLAT.

    A symbol outside the universe does not change the action: the reply's
    symbol is replaced by the first symbol of the universe, and with a
    store that answers a tick whose oracle says LONG or SHORT on such a
    symbol returns the decision (that action, first symbol of the
    universe). *)
Theorem oracle_failure_degrades_to_flat :
  (∀ (w : World) (env : Env) (ignoreStatus : bool) (s : State),
     (∀ n, oracleReplyUsable (w_llm w n) = false) →
     let r := vibeTick w env ignoreStatus s in
     (∃ tr, st_trace r.2 = st_trace s ++ tr ∧ forallb (allowed false) tr = true)
     ∧ (∀ res, r.1 = Ok res →
          res = TickSkipped
          ∨ (∃ meta out, res = TickOk meta out ∧ noDecision out)
          ∨ ∃ e, res = TickError e)
     ∧ (kvReliable w →
          ∃ res, r.1 = Ok res
                 ∧ (res = TickSkipped ∨ ∃ meta out, res = TickOk meta out ∧ noDecision out)))
  ∧ (∀ parsed, validAction parsed = false → selectAction parsed = ActFLAT)
  ∧ (∀ cfg parsed,
       (∀ sym, jString (jget parsed "symbol") = Some sym → sym ∉ universe cfg) →
       selectSymbol cfg parsed = firstOfUniverse cfg
       ∧ firstOfUniverse cfg = default "undefined" (head (universe cfg)))
  ∧ (∀ (w : World) (env : Env) (ignoreStatus : bool) (s : State) (ctx : TickCtx)
       (parsed : Json) (status : Z) (a : Action),
       kvReliable w →
       Js.truthyS (QWEN_API_KEY env) = true →
       (∀ n, w_llm w n = Ok {| llm_ok := true; llm_status := status;
                              llm_body := ContentJson parsed |}) →
       (a = ActLONG ∧ jString (jget parsed "action") = Some "LONG"
        ∨ a = ActSHORT ∧ jString (jget parsed "action") = Some "SHORT") →
       (∀ sym, jString (jget parsed "symbol") = Some sym → sym ∉ universe (cx_cfg ctx)) →
       (tickPrelude w env ignoreStatus s).1 = Ok (Some ctx) →
       ∃ meta s',
         vibeTick w env ignoreStatus s
         = (Ok (TickOk meta
                  (Some (OutDecision a (firstOfUniverse (cx_cfg ctx))
                           (sizeUsd (cx_cfg ctx) (cx_equityUsd ctx)
                              (cx_availableBalance ctx))))), s')).
Proof.
  split; [| split; [| split]].
  - intros w env ignoreStatus s Hllm r. subst r. split; [| split].
    + exact (proj2 (vibeTick_flat_within w Hllm env ignoreStatus s)).
    + intros res E. destruct (vibeTick w env ignoreStatus s) as [r s'] eqn:Er.
      cbn [fst] in E. subst r. exact (vibeTick_flat_post w Hllm env ignoreStatus s res s' Er).
    + intros Hkv.
      destruct (vibeTick_yields w Hkv Hllm env ignoreStatus s) as (res & s' & E & HQ & _).
      exists res. rewrite E. split; [reflexivity | exact HQ].
  - exact selectAction_invalid.
  - intros cfg parsed Hstray. split; [exact (selectSymbol_stray cfg parsed Hstray) |].
    reflexivity.
  - intros w env ignoreStatus s ctx parsed status a Hkv Hkey Hreply Ha Hstray Hpre.
    assert (Hsel : selectAction parsed = a ∧ a ≠ ActFLAT).
    { destruct Ha as [[-> Ha] | [-> Ha]];
        [split; [exact (selectAction_kept parsed ActLONG Ha) | discriminate]
        | split; [exact (selectAction_kept parsed ActSHORT Ha) | discriminate]]. }
    destruct Hsel as [Hsel Hne].
    rewrite <- (selectSymbol_stray (cx_cfg ctx) parsed Hstray).
    exact (vibeTick_decision w env Hkv parsed status Hkey Hreply ignoreStatus s ctx a
             Hsel Hne Hpre).
Qed.

Lemma oracle_failure_degrades_to_flat_witness :
  (let r := vibeTick Sample.world Sample.env false Sample.state in
   (∀ n, oracleReplyUsable (w_llm Sample.world n) = false)
   ∧ kvReliable Sample.world
   ∧ (∃ tr, st_trace r.2 = st_trace Sample.state ++ tr
            ∧ forallb (allowed false) tr = true)
   ∧ ∃ res, r.1 = Ok res
            ∧ (res = TickSkipped ∨ ∃ meta out, res = TickOk meta out ∧ noDecision out))
  ∧ ∃ meta s',
      vibeTick Sample.strayWorld Sample.env false Sample.emptyState
      = (Ok (TickOk meta
               (Some (OutDecision ActLONG (firstOfUniverse DEFAULT_VIBE_CONFIG)
                        (sizeUsd DEFAULT_VIBE_CONFIG 1000 900)))), s').
Proof.
  destruct oracle_failure_degrades_to_flat as (Hflat & _ & _ & Hstray).
  split.
  - assert (H1 : ∀ n, oracleReplyUsable (w_llm Sample.world n) = false)
      by (intros n; reflexivity).
    assert (H2 : kvReliable Sample.world) by (intros n; reflexivity).
    destruct (Hflat Sample.world Sample.env false Sample.state H1) as (T & _ & R).
    cbv zeta. split; [exact H1 |]. split; [exact H2 |]. split; [exact T | exact (R H2)].
  - apply (Hstray Sample.strayWorld Sample.env false Sample.emptyState
             {| cx_cfg := DEFAULT_VIBE_CONFIG; cx_events := [];
                cx_availableBalance := 900; cx_equityUsd := 1000;
                cx_sampledEquity := 1000 |}
             (JObj [("action", JStr "LONG"); ("symbol", JStr "FOOUSDT")]) 200%Z ActLONG).
    + intros n. reflexivity.
    + reflexivity.
    + intros n. reflexivity.
    + left. split; reflexivity.
    + intros sym [= <-]. apply (proj1 (bool_decide_eq_false _)). reflexivity.
    + vm_compute. reflexivity.
Defined.

(** ** Flip via synthetic close *)






Section ReliableRun.

Variable w : World.
Hypothesis Hkv : kvReliable w.










End ReliableRun.




Section AnyWorldRun.

Variable w : World.









End AnyWorldRun.



(** ** Status narrator: one pass of the FLAT branch *)







Section NarratorAny.

Variable w : World.










End NarratorAny.



Section NarratorPass.

Variable w : World.
Hypothesis Hkv : kvReliable w.
Hypothesis Hquotes : ∀ n sym, ∃ px, w_tickerPrice w n sym = Ok px.





End NarratorPass.




(** ** The equity store holds positive samples only *)

Lemma positiveSample_pushBounded (cap : nat) (l : list EquitySample) (p : EquitySample) :
  Forall positiveSample l → positiveSample p → Forall positiveSample (pushBounded cap l p).
Proof.
  intros Hl Hp. rewrite pushBounded_drop. apply Forall_drop, Forall_app.
  split; [exact Hl | apply Forall_singleton, Hp].
Qed.

Lemma positiveEquity_put_rolling (s : State) (l : list EquitySample) tr :
  positiveEquity s → Forall positiveSample l →
  positiveEquity (stepped (kvWrite K_equity l (st_kv s)) tr s).
Proof. intros [H1 H2] Hl. split; [exact Hl | exact H2]. Qed.

Lemma positiveEquity_put_day (s : State) (dk : string) (l : list EquitySample) tr :
  positiveEquity s → Forall positiveSample l →
  positiveEquity (stepped (kvWrite (K_equity_day dk) l (st_kv s)) tr s).
Proof.
  intros [H1 H2] Hl. split; [exact H1 |]. intros dk'. simpl.
  destruct (decide (dk = dk')) as [-> | Hne].
  - rewrite lookup_insert_eq. exact Hl.
  - rewrite lookup_insert_ne by exact Hne. apply H2.
Qed.

Lemma sampleEquity_positive (w : World) (x : float) :
  Js.isFinite x = true → preserves positiveEquity (sampleEquity w x).
Proof.
  intros Hfin s H. unfold sampleEquity, tryIgnore, tryCatch.
  destruct (Js.truthy x && Js.gtb x 0) eqn:G; [| exact H].
  apply andb_true_iff in G as [_ G].
  rewrite run_bind. unfold dateNow at 1. cbv beta iota.
  set (s1 := stepped (st_kv s) (st_trace s) s).
  assert (H1 : positiveEquity s1) by exact H.
  set (p := {| es_at := w_now w (st_step s); es_equityUsd := x |}).
  assert (Hp : positiveSample p) by (split; [exact G | exact Hfin]).
  rewrite run_bind. unfold kvGet at 1.
  destruct (w_kvFails w (st_step s1)); [exact H1 |].
  cbv beta iota. set (s2 := stepped (st_kv s1) (st_trace s1) s1).
  assert (H2 : positiveEquity s2) by exact H1.
  rewrite run_bind. unfold kvPut at 1.
  destruct (w_kvFails w (st_step s2)); [exact H2 |].
  cbv beta iota.
  set (s3 := stepped (kvWrite K_equity _ (st_kv s2)) (st_trace s2) s2).
  assert (H3 : positiveEquity s3).
  { apply positiveEquity_put_rolling; [exact H2 |].
    apply positiveSample_pushBounded; [exact (proj1 H1) | exact Hp]. }
  rewrite run_bind. unfold kvGet at 1.
  destruct (w_kvFails w (st_step s3)); [exact H3 |].
  cbv beta iota. unfold kvPut.
  set (s4 := stepped (st_kv s3) (st_trace s3) s3).
  destruct (w_kvFails w (st_step s4)); [exact H3 |].
  cbv beta iota. cbn [snd].
  apply (positiveEquity_put_day s4); [exact H3 |].
  apply Forall_app. split; [apply (proj2 H3) | apply Forall_singleton, Hp].
Qed.

Lemma preserves_bind_with {A B} (Q : State → Prop) (P : A → Prop) (m : M A) (k : A → M B) :
  preserves Q m → post m P → (∀ a, P a → preserves Q (k a)) → preserves Q (m ≫= k).
Proof.
  intros Hm Hp Hk s H. rewrite run_bind. specialize (Hm s H).
  destruct (m s) as [[a | e] s1] eqn:E; cbn [snd] in *; [| exact Hm].
  exact (Hk a (Hp s a s1 E) s1 Hm).
Qed.

(** The equity that a tick samples is a finite number when the exchange
    reports finite balances. *)
Lemma accountSnapshot_finite (w : World) (env : Env) :
  finiteBalances w →
  post (accountSnapshot w env) (λ snap, Js.isFinite snap.2 = true).
Proof.
  intros Hw. unfold accountSnapshot. apply post_tryCatch.
  2: { intros e. apply post_ret. reflexivity. }
  assert (Hacct : post (asterFapiGetAccount w env)
                    (λ acct, ∀ a, acct = Some a →
                                  Js.isFinite (acct_availableBalance a) = true)).
  { unfold asterFapiGetAccount. destruct (negb (hasCredentials env)).
    - apply post_ret. intros a H. discriminate H.
    - apply post_bind. intros _ s acct s' E. unfold perform in E.
      intros a ->. injection E as E _. exact (Hw _ a E). }
  eapply post_bind_with; [exact Hacct |]. intros acct Ha. apply post_ret. cbn [snd].
  destruct acct as [a |]; cbn [from_option]; [| reflexivity].
  destruct (Js.isFinite (acct_wallet a + acct_unrealized a)) eqn:F; [exact F |].
  apply Ha. reflexivity.
Qed.

Lemma tickPrelude_finite (w : World) (env : Env) (ignoreStatus : bool) :
  finiteBalances w →
  post (tickPrelude w env ignoreStatus)
       (λ ctx, ∀ c, ctx = Some c → Js.isFinite (cx_sampledEquity c) = true).
Proof.
  intros Hw. unfold tickPrelude. apply post_bind. intros cfg. cbv zeta.
  apply post_bind. intros rt. apply post_bind. intros _. apply post_bind. intros events.
  destruct (negb (isRunning (default DEFAULT_VIBE_CONFIG cfg)) && negb ignoreStatus).
  { apply post_ret. intros c H. discriminate H. }
  eapply post_bind_with; [exact (accountSnapshot_finite w env Hw) |].
  intros snap Hs. apply post_ret. intros c [= <-]. exact Hs.
Qed.

(** X10.  Provided the exchange never reports a non-finite available
    balance, the equity store only ever receives positive, finite
    samples: if every stored sample (rolling buffer and day partitions)
    has a positive finite equity before a tick, the same holds after it,
    whatever else the world does and however the tick ends.  In particular
    a zero, negative or NaN account reading is never recorded. *)
Theorem equity_samples_stay_positive (w : World) (env : Env) (ignoreStatus : bool)
    (s : State) :
  finiteBalances w →
  positiveEquity s → positiveEquity (vibeTick w env ignoreStatus s).2.
Proof.
  intros Hw.
  assert (Hnot : ∀ k, notEquity k = true → notEquity k = true) by auto.
  assert (HW : ∀ {A} entries (m : M A), within notEquity entries m →
                                        preserves positiveEquity m).
  { intros A entries m. apply within_preserves. intros s0 s' K [H1 H2]. split.
    - rewrite (K K_equity eq_refl : kv_equity (st_kv s') = kv_equity (st_kv s0)).
      exact H1.
    - intros dk. rewrite (K (K_equity_day dk) eq_refl). apply H2. }
  revert s. change (preserves positiveEquity (vibeTick w env ignoreStatus)).
  unfold vibeTick.
  apply (preserves_bind_with _ _ _ _ (HW _ true _ (tickPrelude_within w _ _ env ignoreStatus))
           (tickPrelude_finite w env ignoreStatus Hw)).
  intros [ctx |] Hctx; [| apply preserves_ret].
  apply preserves_bind.
  { apply (HW _ true), tickPreparation_within, Hnot. }
  intros _. apply preserves_tryFinally.
  - apply (HW _ true), tickAttempt_within, Hnot.
  - apply sampleEquity_positive, Hctx. reflexivity.
Qed.

Lemma equity_samples_stay_positive_witness :
  let r := vibeTick Sample.outage Sample.env false Sample.state in
  finiteBalances Sample.outage
  ∧ positiveEquity Sample.state
  ∧ length (kv_equity (st_kv r.2)) = 1
  ∧ positiveEquity r.2.
Proof.
  intros r.
  assert (Hw : finiteBalances Sample.outage) by (intros n a [= <-]; reflexivity).
  assert (H : positiveEquity Sample.state).
  { split; [apply Forall_nil_2 | intros dk; apply Forall_nil_2]. }
  split; [exact Hw |]. split; [exact H |]. split; [vm_compute; reflexivity |].
  exact (equity_samples_stay_positive Sample.outage Sample.env false Sample.state Hw H).
Defined.

(** ** Settling a close *)




Section CloseHistory.

Variable w : World.
Variable env : Env.
Variable sym : string.
Variable price : float.
Variable reason : CloseReason.


End CloseHistory.


Section SettledClose.

Variable w : World.
Variable env : Env.





End SettledClose.


